(** * Bruker RAW decoder (openxrd/databruker.py): a shallow embedding

    The development follows the Python module top-down:
    - Python values, exceptions and byte-string slicing;
    - [struct.unpack] for the little-endian formats the schemas use;
    - the header schema tables ([BrukerHeader] and its subclasses) as
      insertion-ordered association lists, and the object store in which
      [copy]/[__add__] alias them;
    - [get_metta], [get_range], [get_smap], [BrukerData.__init__];
    - [get_index_xy], [get_real_xy], [integrate_2d] and [BrukerData.__add__].

    Python [float] is IEEE binary64; it is modelled by the kernel's primitive
    floats, whose operations are specified by [FloatAxioms]. *)

From Stdlib Require Import ZArith List String Ascii Bool Lia Floats.
From stdpp Require Import base gmap.
Import ListNotations.

Local Open Scope Z_scope.

(** ** Exceptions and results *)

(** The exceptions the module can raise.  The source raises the generic
    [Exception] with distinct messages; each message gets a constructor. *)
Inductive error : Set :=
  | IOError_        (* Exception("I/O error(..)") in get_data_from_file *)
  | InvalidFormat   (* Exception("invalid file type must be RAW1.01") *)
  | AxisMismatch    (* Exception('Type mismatch, must be BrukerData') in BrukerData.__add__ *)
  | SchemaMismatch  (* Exception('Type mismatch, must be BrukerHeader') in BrukerHeader.__add__ *)
  | StructError     (* struct.error *)
  | KeyError
  | IndexError
  | TypeError
  | ValueError
  | OverflowError.

Inductive result (A : Type) : Type :=
  | Ok (a : A)
  | Err (e : error).
Arguments Ok {A} a.
Arguments Err {A} e.

Definition bind {A B} (r : result A) (k : A -> result B) : result B :=
  match r with
  | Ok a => k a
  | Err e => Err e
  end.

Notation "'do' x <- r ; k" := (bind r (fun x => k))
  (at level 10, x pattern, r at level 100, k at level 200).

Definition error_eqb (a b : error) : bool :=
  match a, b with
  | IOError_, IOError_ | InvalidFormat, InvalidFormat
  | AxisMismatch, AxisMismatch | SchemaMismatch, SchemaMismatch
  | StructError, StructError | KeyError, KeyError | IndexError, IndexError
  | TypeError, TypeError | ValueError, ValueError
  | OverflowError, OverflowError => true
  | _, _ => false
  end.

(** ** Byte strings *)

Definition bytes := list Byte.byte.

Definition byte_val (b : Byte.byte) : Z := Z.of_N (Byte.to_N b).

Definition byte_eqb (a b : Byte.byte) : bool := byte_val a =? byte_val b.

Definition blen (b : bytes) : Z := Z.of_nat (length b).

(** Python's clamping of one slice bound. *)
Definition py_index (len i : Z) : Z :=
  if i <? 0 then Z.max 0 (len + i) else Z.min i len.

(** [b[lo:hi]] *)
Definition slice (b : bytes) (lo hi : Z) : bytes :=
  let lo' := py_index (blen b) lo in
  let hi' := py_index (blen b) hi in
  firstn (Z.to_nat (hi' - lo')) (skipn (Z.to_nat lo') b).

Fixpoint bytes_eqb (a b : bytes) : bool :=
  match a, b with
  | [], [] => true
  | x :: a', y :: b' => byte_eqb x y && bytes_eqb a' b'
  | _, _ => false
  end.

Fixpoint starts_with (pat b : bytes) : bool :=
  match pat, b with
  | [], _ => true
  | x :: pat', y :: b' => byte_eqb x y && starts_with pat' b'
  | _ :: _, [] => false
  end.

(** [pat in b] for byte strings: [pat] occurs as a contiguous run. *)
Fixpoint bytes_in (pat b : bytes) : bool :=
  starts_with pat b ||
  match b with
  | [] => false
  | _ :: b' => bytes_in pat b'
  end.

Fixpoint lstrip (p : Byte.byte -> bool) (b : bytes) : bytes :=
  match b with
  | [] => []
  | x :: b' => if p x then lstrip p b' else b
  end.

(** [b.strip(chars)]: both ends. *)
Definition strip (p : Byte.byte -> bool) (b : bytes) : bytes :=
  rev (lstrip p (rev (lstrip p b))).

Definition is_nul (b : Byte.byte) : bool := byte_val b =? 0.

(** The bytes [bytes.strip()] removes: space, \t, \n, \v, \f, \r. *)
Definition is_space (b : Byte.byte) : bool :=
  let v := byte_val b in (v =? 32) || ((9 <=? v) && (v <=? 13)).

(** ** Python numbers *)

(** Little-endian unsigned integer of a byte string. *)
Fixpoint le_uint (b : bytes) : Z :=
  match b with
  | [] => 0
  | x :: b' => byte_val x + 256 * le_uint b'
  end.

(** Two's complement reading of a [w]-bit unsigned integer. *)
Definition to_signed (w : Z) (u : Z) : Z :=
  if u <? 2 ^ (w - 1) then u else u - 2 ^ w.

(** An IEEE interchange bit pattern with [mw] mantissa bits and [ew]
    exponent bits, as the binary64 of the same value (exact for binary32 and
    binary64; the payload of a NaN is dropped). *)
Definition float_of_bits (mw ew : Z) (u : Z) : float :=
  let m := Z.land u (Z.ones mw) in
  let e := Z.land (Z.shiftr u mw) (Z.ones ew) in
  let s := Z.testbit u (mw + ew)%Z in
  let bias := Z.ones (ew - 1)%Z in
  if (e =? Z.ones ew)%Z then
    if (m =? 0)%Z then SF2Prim (S754_infinity s) else nan
  else if (e =? 0)%Z then
    match m with
    | Zpos p => SF2Prim (S754_finite s p (1 - bias - mw)%Z)
    | _ => SF2Prim (S754_zero s)
    end
  else
    match (m + 2 ^ mw)%Z with
    | Zpos p => SF2Prim (S754_finite s p (e - bias - mw)%Z)
    | _ => nan
    end.

(** [float(n)] for a Python int: round to nearest, ties to even.  (Python
    raises OverflowError from 2^1024 on; the decoder's ints are below 2^64.) *)
Definition float_of_int (n : Z) : float :=
  SF2Prim (binary_normalize prec emax n 0 false).

(** The integer part of a finite float, rounded toward zero. *)
Definition trunc_float (f : float) : option Z :=
  match Prim2SF f with
  | S754_zero _ => Some 0
  | S754_finite s m e =>
      let a := if 0 <=? e then Z.pos m * 2 ^ e else Z.pos m / 2 ^ (- e) in
      Some (if s then - a else a)
  | _ => None
  end.

(** The values a decoded field can hold. *)
Inductive value : Set :=
  | VNone
  | VInt (n : Z)
  | VFloat (f : float)
  | VBytes (b : bytes).

(** ** struct.unpack *)

(** The struct format strings of the schema tables: ['<h'], ['<H'], ['<f'],
    ['<I'], ['<d'], ['<Q'], ['<q'], and the tag ['??'] of a variable-length
    trailing string. *)
Inductive fmt : Set := Fh | FH | Ff | FI | Fd | FQ | Fq | Fvar.

(** A schema's type column: an int [n] (a byte string of [n] bytes, unpacked
    with the format [str(n) + 's']) or a format string. *)
Inductive typ : Set :=
  | TStr (n : Z)
  | TFmt (f : fmt).

(** [(out,) = struct.unpack(typ, b)].  The buffer must have exactly the size
    the format asks for.  A negative count is no format; ['??'] read as a
    struct format is two native bools, which the 1-tuple pattern refuses. *)
Definition struct_unpack (t : typ) (b : bytes) : result value :=
  let sized n v := if blen b =? n then Ok v else Err StructError in
  match t with
  | TStr n => if n <? 0 then Err StructError else sized n (VBytes b)
  | TFmt Fh => sized 2 (VInt (to_signed 16 (le_uint b)))
  | TFmt FH => sized 2 (VInt (le_uint b))
  | TFmt FI => sized 4 (VInt (le_uint b))
  | TFmt FQ => sized 8 (VInt (le_uint b))
  | TFmt Fq => sized 8 (VInt (to_signed 64 (le_uint b)))
  | TFmt Ff => sized 4 (VFloat (float_of_bits 23 8 (le_uint b)))
  | TFmt Fd => sized 8 (VFloat (float_of_bits 52 11 (le_uint b)))
  | TFmt Fvar => if blen b =? 2 then Err ValueError else Err StructError
  end.

(** ** Header schemas: the [_attrs] tables *)

(** One entry [[value, label, type, position]].  [__setitem__] on a new key
    stores the short list [[item, key, len]], which has no position. *)
Record field : Set := mkField {
  fvalue : value;
  flabel : string;
  ftyp : typ;
  fpos : option Z
}.

(** A Python dict in insertion order. *)
Abbreviation attrs := (list (string * field)).

Fixpoint dict_get (key : string) (a : attrs) : option field :=
  match a with
  | [] => None
  | (k, f) :: a' => if String.eqb key k then Some f else dict_get key a'
  end.

Definition has_key (key : string) (a : attrs) : bool :=
  match dict_get key a with Some _ => true | None => false end.

(** [BrukerHeader.pos]: [self._attrs[key][3]] *)
Definition pos (a : attrs) (key : string) : result (option Z) :=
  match dict_get key a with
  | Some f => match fpos f with Some p => Ok (Some p) | None => Err IndexError end
  | None => Ok None
  end.

(** [BrukerHeader.typ] *)
Definition typ_of (a : attrs) (key : string) : option typ :=
  option_map ftyp (dict_get key a).

(** [BrukerHeader.label] *)
Definition label (a : attrs) (key : string) : option string :=
  option_map flabel (dict_get key a).

(** [BrukerHeader.__getitem__] *)
Definition getitem (a : attrs) (key : string) : value :=
  match dict_get key a with
  | Some f => fvalue f
  | None => VNone
  end.

Fixpoint set_value (key : string) (item : value) (a : attrs) : attrs :=
  match a with
  | [] => []
  | (k, f) :: a' =>
      if String.eqb key k
      then (k, mkField item (flabel f) (ftyp f) (fpos f)) :: a'
      else (k, f) :: set_value key item a'
  end.

(** [BrukerHeader.__setitem__] *)
Definition setitem (a : attrs) (key : string) (item : value) : attrs :=
  if has_key key a then set_value key item a
  else a ++ [(key, mkField item key (TStr (Z.of_nat (length a))) None)].

(** [__len__] *)
Definition len (a : attrs) : Z := Z.of_nat (length a).

Fixpoint insert_by_pos (k : string) (p : Z) (l : list (string * Z)) : list (string * Z) :=
  match l with
  | [] => [(k, p)]
  | (k', p') :: l' =>
      if p <? p' then (k, p) :: l else (k', p') :: insert_by_pos k p l'
  end.

Fixpoint positions (a : attrs) : result (list (string * Z)) :=
  match a with
  | [] => Ok []
  | (k, f) :: a' =>
      match fpos f with
      | None => Err IndexError
      | Some p => do l <- positions a'; Ok ((k, p) :: l)
      end
  end.

(** [sorted(self._attrs, key=lambda key: self._attrs[key][3])]: the keys in
    position order; [sorted] is stable, so equal positions keep their
    insertion order. *)
Definition sorted_keys (a : attrs) : result (list string) :=
  do l <- positions a;
  Ok (map fst (fold_left (fun acc kp => insert_by_pos (fst kp) (snd kp) acc) l [])).

(** [__next__] with [self.index = index]: the next key and index, or [None]
    for StopIteration. *)
Definition next (a : attrs) (index : Z) : result (option (string * Z)) :=
  do keys <- sorted_keys a;
  if index =? Z.of_nat (length keys) - 1 then Ok None
  else match nth_error keys (Z.to_nat (index + 1)) with
       | Some key => Ok (Some (key, index + 1))
       | None => Err IndexError
       end.

(** [dict.update]: a key of [b] already in [a] keeps its place and takes
    [b]'s entry, a new key is appended. *)
Fixpoint replace_entry (key : string) (f : field) (a : attrs) : attrs :=
  match a with
  | [] => []
  | (k, g) :: a' =>
      if String.eqb key k then (k, f) :: a' else (k, g) :: replace_entry key f a'
  end.

Definition update (a b : attrs) : attrs :=
  fold_left (fun acc kf =>
               if has_key (fst kf) acc then replace_entry (fst kf) (snd kf) acc
               else acc ++ [kf]) b a.

Local Open Scope string_scope.
Local Open Scope list_scope.
Local Open Scope Z_scope.

(** Bruker Raw Header Dictonary *)
Definition BrukerHeader : attrs :=
  [
    ("version", mkField VNone "Version" (TStr 8) (Some 0));
    ("file_status", mkField VNone "File Status" (TFmt FI) (Some 8));
    ("range_cnt", mkField VNone "Range Count" (TFmt FI) (Some 12));
    ("m_date", mkField VNone "Measure Date" (TStr 10) (Some 16));
    ("m_time", mkField VNone "Measure Time" (TStr 10) (Some 26));
    ("user", mkField VNone "User" (TStr 72) (Some 36));
    ("site", mkField VNone "Site" (TStr 218) (Some 108));
    ("sample_id", mkField VNone "Sample ID" (TStr 60) (Some 326));
    ("comment", mkField VNone "Comment" (TStr 160) (Some 386));
    ("head_2", mkField VNone "head 2" (TStr 2) (Some 546));
    ("c_goni", mkField VNone "Goniometer Model" (TFmt FI) (Some 548));
    ("c_goni_s", mkField VNone "Goniometer Stage" (TFmt FI) (Some 552));
    ("c_samp_l", mkField VNone "Sample Changer" (TFmt FI) (Some 556));
    ("c_goni_c", mkField VNone "Goniometer Controler" (TFmt FI) (Some 560));
    ("c_goni_r", mkField VNone "(R4) goniometer radius" (TFmt Ff) (Some 564));
    ("fix_divr", mkField VNone "(R4) fixed divergence" (TFmt Ff) (Some 568));
    ("fix_samp", mkField VNone "(R4) fixed sample slit" (TFmt Ff) (Some 572));
    ("prim_ss", mkField VNone "primary Soller slit" (TFmt FI) (Some 576));
    ("prim_mon", mkField VNone "primary monochromator" (TFmt FI) (Some 580));
    ("fix_anti", mkField VNone "(R4) fixed antiscatter" (TFmt Ff) (Some 584));
    ("fix_detc", mkField VNone "(R4) fixed detector slit" (TFmt Ff) (Some 588));
    ("sec_ss", mkField VNone "secondary Soller slit" (TFmt Ff) (Some 592));
    ("fix_tf", mkField VNone "fixed thin film attach" (TFmt FI) (Some 596));
    ("beta_f", mkField VNone "beta filter" (TStr 4) (Some 600));
    ("sec_mon", mkField VNone "secondary monochromator" (TFmt Ff) (Some 604));
    ("anode", mkField VNone "Anode Material" (TStr 4) (Some 608));
    ("head_3", mkField VNone "head 3" (TStr 4) (Some 612));
    ("alpha_ave", mkField VNone "Alpha Average" (TFmt Fd) (Some 616));
    ("alpha_1", mkField VNone "Alpha 1" (TFmt Fd) (Some 624));
    ("alpha_2", mkField VNone "Alpha 2" (TFmt Fd) (Some 632));
    ("beta", mkField VNone "Beta" (TFmt Fd) (Some 640));
    ("alpha_ratio", mkField VNone "Alpha_ratio" (TFmt Fd) (Some 648));
    ("unit_nm", mkField VNone "(C4) Unit Name" (TStr 4) (Some 656));
    ("int_beta_a1", mkField VNone "Intensity Beta:a1" (TStr 4) (Some 660));
    ("mea_time", mkField VNone "Measurement Time" (TFmt Ff) (Some 664));
    ("head_4", mkField VNone "head 4" (TStr 43) (Some 668));
    ("hard_dep", mkField VNone "hard_dep" (TStr 1) (Some 711))
  ].

(** Bruker Raw Header Dictonary *)
Definition BrukerRangeHeader : attrs :=
  [
    ("header_len", mkField VNone "Header Len" (TFmt FI) (Some 0));
    ("steps", mkField VNone "Steps" (TFmt FI) (Some 4));
    ("start_theta", mkField VNone "Start Theta" (TFmt Fd) (Some 8));
    ("start_2th", mkField (VInt 0) "Start 2Theta" (TFmt Fd) (Some 16));
    ("drive_chi", mkField (VInt 0) "Chi Start" (TFmt Fd) (Some 24));
    ("drive_phi", mkField VNone "Phi Start" (TFmt Fd) (Some 32));
    ("drive_x", mkField VNone "X Start" (TFmt Fd) (Some 40));
    ("drive_y", mkField VNone "Y Start" (TFmt Fd) (Some 48));
    ("drive_z", mkField VNone "Z Start" (TFmt Fd) (Some 56));
    ("ig_1", mkField VNone "ig 1" (TFmt FQ) (Some 64));
    ("ig_2", mkField VNone "ig 2" (TStr 6) (Some 72));
    ("ig_2_1", mkField VNone "ig 2_1" (TFmt Fh) (Some 78));
    ("R8", mkField VNone "(R8) variable anitscat" (TFmt Fd) (Some 80));
    ("ig_3", mkField VNone "ig 3" (TStr 6) (Some 88));
    ("ig_3_1", mkField VNone "ig 3_1" (TFmt Fh) (Some 94));
    ("dec_code", mkField VNone "Detector" (TFmt FI) (Some 96));
    ("hv", mkField VNone "High Voltage" (TFmt Ff) (Some 100));
    ("amp_gain", mkField VNone "Ampliphier Gain" (TFmt Ff) (Some 104));
    ("dis1_LL", mkField VNone "Discriminator1 Lower Lev" (TFmt Ff) (Some 112));
    ("ig_4", mkField VNone "ig 4" (TFmt FI) (Some 116));
    ("ig_5", mkField VNone "ig 5" (TFmt Fd) (Some 120));
    ("ig_6", mkField VNone "ig 6" (TFmt Ff) (Some 128));
    ("ig_a", mkField VNone "ig a" (TFmt Ff) (Some 132));
    ("ig_b", mkField VNone "ig b" (TStr 5) (Some 136));
    ("ig_b_1", mkField VNone "ig b_1" (TStr 3) (Some 141));
    ("ig_c", mkField VNone "Aux Axis 1 start" (TFmt Fd) (Some 144));
    ("ig_d", mkField VNone "Aux Axis 2 start" (TFmt Fd) (Some 152));
    ("ig_e", mkField VNone "Aux Axis 3 start" (TFmt Fd) (Some 160));
    ("ig_f", mkField VNone "Scan Mode" (TStr 4) (Some 168));
    ("ig_g", mkField VNone "ig g" (TFmt FI) (Some 172));
    ("ig_h", mkField VNone "ig h" (TFmt FI) (Some 172));
    ("step_size", mkField VNone "Step Size" (TFmt Fd) (Some 176));
    ("ig_i", mkField VNone "ig i" (TFmt Fd) (Some 184));
    ("step_time", mkField VNone "Time Per Step" (TFmt Ff) (Some 192));
    ("ig_j", mkField VNone "Scan Type" (TFmt FI) (Some 196));
    ("ig_k", mkField VNone "Delay Time" (TFmt Ff) (Some 200));
    ("ig_l", mkField VNone "ig l" (TFmt FI) (Some 204));
    ("rot_speed", mkField VNone "Rotation Speed" (TFmt Ff) (Some 208));
    ("ig_m", mkField VNone "ig m" (TFmt Ff) (Some 212));
    ("ig_n", mkField VNone "ig n" (TFmt FI) (Some 216));
    ("ig_o", mkField VNone "ig o" (TFmt FI) (Some 220));
    ("gen_v", mkField VNone "Generator Voltage" (TFmt FI) (Some 224));
    ("gen_a", mkField VNone "Generator Current" (TFmt FI) (Some 228));
    ("ig_p", mkField VNone "ig p" (TFmt FI) (Some 232));
    ("ig_q", mkField VNone "ig q" (TFmt FI) (Some 236));
    ("lambda", mkField VNone "Lambda" (TFmt Fd) (Some 240));
    ("ig_r", mkField VNone "ig r" (TFmt FI) (Some 248));
    ("ig_s", mkField VNone "Len of each data in bits" (TFmt FI) (Some 252));
    ("sup_len", mkField VNone "supplementary header len" (TFmt FI) (Some 256));
    ("ig_t", mkField VNone "ig t" (TFmt FI) (Some 260));
    ("ig_u", mkField VNone "ig u" (TFmt FI) (Some 264));
    ("ig_v", mkField VNone "ig v" (TFmt FI) (Some 268));
    ("ig_w", mkField VNone "ig w" (TFmt FI) (Some 272));
    ("ig_x", mkField VNone "Reserved for expansion" (TFmt FI) (Some 280))
  ].

(** Bruker Raw Area Detector Supplemental Header Dictonary *)
Definition BrukerSupp200 : attrs :=
  [
    ("type", mkField VNone "Record type" (TFmt FI) (Some 0));
    ("length", mkField VNone "record length" (TFmt FI) (Some 4));
    ("reserved", mkField VNone "reserved" (TFmt FI) (Some 8));
    ("int_start", mkField VNone "integration range start" (TFmt Ff) (Some 16));
    ("int_end", mkField VNone "integration range end" (TFmt Ff) (Some 20));
    ("chi_start", mkField VNone "int range chi start" (TFmt Ff) (Some 24));
    ("chi_end", mkField VNone "int range chi end" (TFmt Ff) (Some 28));
    ("norm", mkField VNone "Normalization method" (TFmt FI) (Some 32));
    ("prog", mkField VNone "program name" (TStr 20) (Some 36));
    ("act_2th", mkField VNone "act 2th" (TFmt Ff) (Some 56));
    ("act_omega", mkField VNone "act omega" (TFmt Ff) (Some 60));
    ("act_phi", mkField VNone "act phi" (TFmt Ff) (Some 64));
    ("act_psi", mkField VNone "act psi" (TFmt Ff) (Some 68))
  ].

(** Bruker Raw EVA Supplemental Header Dictonary *)
Definition BrukerSupp190 : attrs :=
  [
    ("type", mkField VNone "Record type" (TFmt FI) (Some 0));
    ("length", mkField VNone "record length" (TFmt FI) (Some 4));
    ("2th_off", mkField VNone "2theta offset [deg]" (TFmt Ff) (Some 8));
    ("int_off", mkField VNone "intensity offset [% max]" (TFmt Ff) (Some 12));
    ("ig_z", mkField VNone "reserved for expansion" (TStr 16) (Some 16))
  ].

(** Bruker Raw removed data for search Supplemental Header Dictonary *)
Definition BrukerSupp150 : attrs :=
  [
    ("type", mkField VNone "Record type" (TFmt FI) (Some 0));
    ("length", mkField VNone "record length" (TFmt FI) (Some 4));
    ("ex_start", mkField VNone "excld 2theta start [deg]" (TFmt Ff) (Some 8));
    ("ex_end", mkField VNone "excld 2theta end [deg]" (TFmt Ff) (Some 12));
    ("ig_z", mkField VNone "reserved for expansion" (TStr 16) (Some 16))
  ].

(** Bruker Raw Comment Supplemental Header Dictonary *)
Definition BrukerSupp140 : attrs :=
  [
    ("type", mkField VNone "Record type" (TFmt FI) (Some 0));
    ("length", mkField VNone "record length" (TFmt FI) (Some 4));
    ("comment", mkField VNone "comment" (TFmt Fvar) (Some 8))
  ].

(** Bruker Raw QCI parameters (obsolete) Supplemental Header Dictonary *)
Definition BrukerSupp130 : attrs :=
  [
    ("type", mkField VNone "Record type" (TFmt FI) (Some 0));
    ("length", mkField VNone "record length" (TFmt FI) (Some 4));
    ("var_type", mkField VNone "variable type" (TFmt Ff) (Some 8));
    ("comp_name", mkField VNone "ASCII:compound name" (TFmt Fvar) (Some 12))
  ].

(** Bruker Raw Description for Optimized Quantitative Measurement record Supplemental Header Dictonary *)
Definition BrukerSupp120 : attrs :=
  [
    ("type", mkField VNone "Record type" (TFmt FI) (Some 0));
    ("length", mkField VNone "record length" (TFmt FI) (Some 4));
    ("ig_z", mkField VNone "undefined" (TStr 64) (Some 8))
  ].

(** Bruker Raw PSD parameters Supplemental Header Dictonary *)
Definition BrukerSupp110 : attrs :=
  [
    ("type", mkField VNone "Record type" (TFmt FI) (Some 0));
    ("length", mkField VNone "record length" (TFmt FI) (Some 4));
    ("goni_2th", mkField VNone "2theta of goni[deg]" (TFmt Ff) (Some 8));
    ("chnl", mkField VNone "first channel used" (TFmt FI) (Some 16));
    ("ig_z", mkField VNone "reserved for expansion" (TStr 20) (Some 20))
  ].

(** Bruker Raw Oscillation parameters Supplemental Header Dictonary *)
Definition BrukerSupp100 : attrs :=
  [
    ("type", mkField VNone "Record type" (TFmt FI) (Some 0));
    ("length", mkField VNone "record length" (TFmt FI) (Some 4));
    ("osc_drv", mkField VNone "oscillation drive" (TFmt Ff) (Some 8));
    ("osc_amp", mkField VNone "oscil amp[deg or mm]" (TFmt Fd) (Some 16));
    ("osc_spd", mkField VNone "oscil spd[deg/s or mm/s]" (TFmt Ff) (Some 24));
    ("ig_z", mkField VNone "reserved for expansion" (TStr 12) (Some 28))
  ].

(** [globals()["BrukerSupp" + str(typ)]()]: the supplemental schema of a type
    tag; a tag with no class of that name is a KeyError. *)
Definition BrukerSupp (tag : Z) : result attrs :=
  if tag =? 100 then Ok BrukerSupp100
  else if tag =? 110 then Ok BrukerSupp110
  else if tag =? 120 then Ok BrukerSupp120
  else if tag =? 130 then Ok BrukerSupp130
  else if tag =? 140 then Ok BrukerSupp140
  else if tag =? 150 then Ok BrukerSupp150
  else if tag =? 190 then Ok BrukerSupp190
  else if tag =? 200 then Ok BrukerSupp200
  else Err KeyError.

(** ** Decoding one record *)

(** [int(f)] of a Python float. *)
Definition int_of_float (f : float) : result Z :=
  match trunc_float f with
  | Some n => Ok n
  | None => if PrimFloat.is_nan f then Err ValueError else Err OverflowError
  end.

(** [BrukerData._unpack]: [typ] is [None] when the schema has no such key. *)
Definition _unpack (filecontent : bytes) (pos : Z) (t : option typ) (bits : Z)
  : result value :=
  match t with
  | None => Err TypeError
  | Some t =>
      do out <- struct_unpack t (slice filecontent pos (pos + bits));
      Ok (match out with
          | VBytes b => VBytes (strip is_space (strip is_nul b))
          | _ => out
          end)
  end.

(** [int(mettaclass['length'] - pos)] *)
Definition var_bits (mettaclass : attrs) (pos : Z) : result Z :=
  match getitem mettaclass "length" with
  | VInt n => Ok (n - pos)
  | VFloat f => int_of_float (f - float_of_int pos)%float
  | _ => Err TypeError
  end.

(** The [if]/[elif] chain of [get_metta]: the type handed to [_unpack] and
    the number of bytes to read at absolute position [pos]. *)
Definition field_bits (mettaclass : attrs) (t : option typ) (pos : Z)
  : result (option typ * Z) :=
  match t with
  | Some (TStr n) => Ok (t, n)
  | Some (TFmt Fh) | Some (TFmt FH) => Ok (t, 2)
  | Some (TFmt Ff) | Some (TFmt FI) => Ok (t, 4)
  | Some (TFmt Fd) | Some (TFmt FQ) | Some (TFmt Fq) => Ok (t, 8)
  | Some (TFmt Fvar) => do bits <- var_bits mettaclass pos; Ok (Some (TStr bits), bits)
  | None => Ok (t, 0)
  end.

(** One turn of the [for key in mettaclass] loop of [get_metta]. *)
Definition get_metta_key (filecontent : bytes) (start_pos : Z) (mettaclass : attrs)
  (key : string) : result attrs :=
  do p <- pos mettaclass key;
  do pos <- match p with Some p => Ok (p + start_pos) | None => Err TypeError end;
  do tb <- field_bits mettaclass (typ_of mettaclass key) pos;
  do v <- _unpack filecontent pos (fst tb) (snd tb);
  Ok (setitem mettaclass key v).

Fixpoint get_metta_keys (filecontent : bytes) (start_pos : Z) (keys : list string)
  (mettaclass : attrs) : result attrs :=
  match keys with
  | [] => Ok mettaclass
  | key :: keys' =>
      do m <- get_metta_key filecontent start_pos mettaclass key;
      get_metta_keys filecontent start_pos keys' m
  end.

(** [BrukerData.get_metta].  [__next__] walks the sorted keys by index
    (lemma [next_visits_sorted_keys]) and the loop assigns only keys the
    schema has, so the order it recomputes at every turn is the one computed
    at the first (lemma [sorted_keys_setitem]). *)
Definition get_metta (filecontent : bytes) (mettaclass : attrs) (start_pos : Z)
  : result attrs :=
  do keys <- sorted_keys mettaclass;
  get_metta_keys filecontent start_pos keys mettaclass.

(** ** Ranges *)

(** [rng.supmetta]: the plain dict [{'type': None}] or a decoded schema. *)
Inductive supmeta : Set :=
  | SupDict (d : list (string * value))
  | SupHeader (a : attrs).

Record BrukerRange : Set := mkRange {
  metta : attrs;
  supmetta : supmeta;
  counts_data : list float
}.

Fixpoint dict_value (key : string) (d : list (string * value)) : option value :=
  match d with
  | [] => None
  | (k, v) :: d' => if String.eqb key k then Some v else dict_value key d'
  end.

(** [rng.supmetta[key]] *)
Definition sup_getitem (s : supmeta) (key : string) : result value :=
  match s with
  | SupDict d => match dict_value key d with Some v => Ok v | None => Err KeyError end
  | SupHeader a => Ok (getitem a key)
  end.

(** A value used where the code needs an int (an offset, a count, a bound). *)
Definition as_int (v : value) : result Z :=
  match v with
  | VInt n => Ok n
  | _ => Err TypeError
  end.

(** A value used in float arithmetic. *)
Definition as_float (v : value) : result float :=
  match v with
  | VFloat f => Ok f
  | VInt n => Ok (float_of_int n)
  | _ => Err TypeError
  end.

(** The sample loop of [get_range]: [n] more samples, the next at index [i]. *)
Fixpoint read_counts (filecontent : bytes) (pos : Z) (n : nat) (i : Z)
  : result (list float) :=
  match n with
  | O => Ok []
  | S n' =>
      do ret <- struct_unpack (TFmt Ff) (slice filecontent (pos + i * 4) (pos + i * 4 + 4));
      do f <- as_float ret;
      do rest <- read_counts filecontent pos n' (i + 1);
      Ok (f :: rest)
  end.

(** [BrukerData.get_range] *)
Definition get_range (filecontent : bytes) (pos : Z) : result (BrukerRange * Z) :=
  do metta <- get_metta filecontent BrukerRangeHeader pos;
  do header_len <- as_int (getitem metta "header_len");
  let pos := pos + header_len in
  do sup_len <- as_int (getitem metta "sup_len");
  do supmetta <-
    (if 0 <? sup_len then
       do t <- struct_unpack (TFmt FI) (slice filecontent pos (pos + 4));
       do tag <- as_int t;
       do cls <- BrukerSupp tag;
       do s <- get_metta filecontent cls pos;
       Ok (SupHeader s)
     else Ok (SupDict [("type", VNone)]));
  let pos := pos + sup_len in
  do data_len <- as_int (getitem metta "steps");
  do counts <- read_counts filecontent pos (Z.to_nat data_len) 0;
  Ok (mkRange metta supmetta counts, pos + data_len * 4).

(** ** The numpy and builtin functions the assembler uses *)

(** [np.arange(n)] *)
Definition arange (n : Z) : list Z := map Z.of_nat (seq 0 (Z.to_nat n)).

Fixpoint set_last {A} (l : list A) (v : A) : list A :=
  match l with
  | [] => []
  | [_] => [v]
  | a :: l' => a :: set_last l' v
  end.

(** [np.linspace(start, stop, num)] with the default [endpoint=True]:
    [step = (stop - start) / (num - 1)], the points [k * step + start], and
    the last point overwritten by [stop]. *)
Definition linspace (start stop : float) (num : Z) : result (list float) :=
  if num <? 0 then Err ValueError
  else
    let div := num - 1 in
    let delta := (stop - start)%float in
    let ks := map float_of_int (arange num) in
    let y :=
      if 0 <? div then
        let step := (delta / float_of_int div)%float in
        if (step =? 0)%float
        then map (fun k => (k / float_of_int div * delta)%float) ks
        else map (fun k => (k * step)%float) ks
      else map (fun k => (k * delta)%float) ks in
    let y := map (fun v => (v + start)%float) y in
    Ok (if 1 <? num then set_last y stop else y).

(** The builtin [min] of a list: a later item replaces the minimum when
    [item < minimum]. *)
Definition py_min (l : list float) : result float :=
  match l with
  | [] => Err ValueError
  | a :: l' => Ok (fold_left (fun m v => if (v <? m)%float then v else m) l' a)
  end.

(** The builtin [max]: replaced when [item > maximum]. *)
Definition py_max (l : list float) : result float :=
  match l with
  | [] => Err ValueError
  | a :: l' => Ok (fold_left (fun m v => if (m <? v)%float then v else m) l' a)
  end.

(** [lens.max()] *)
Definition max_len (lens : list Z) : result Z :=
  match lens with
  | [] => Err ValueError
  | a :: l' => Ok (fold_left Z.max l' a)
  end.

(** [np.argmax(lens)]: the first index of the maximum. *)
Fixpoint argmax_from (lens : list Z) (i best : nat) (bestv : Z) : nat :=
  match lens with
  | [] => best
  | v :: l' =>
      if bestv <? v then argmax_from l' (S i) i v else argmax_from l' (S i) best bestv
  end.

Definition argmax (lens : list Z) : result nat :=
  match lens with
  | [] => Err ValueError
  | a :: l' => Ok (argmax_from l' 1 0 a)
  end.

(** The conversion of a float64 stored into an int64 array: the fraction is
    dropped; a NaN, an infinity or a value outside int64 becomes the minimum
    int64 (what the x86-64 conversion instruction delivers). *)
Definition int64_of_float (f : float) : Z :=
  match trunc_float f with
  | Some n => if (- 2 ^ 63 <=? n) && (n <? 2 ^ 63) then n else - 2 ^ 63
  | None => - 2 ^ 63
  end.

(** [lens[:, None] > np.arange(m)] *)
Definition len_mask (lens : list Z) (m : Z) : list (list bool) :=
  map (fun l => map (fun j => j <? l) (arange m)) lens.

(** [np.full(mask.shape, 0)]: the fill value [0] is a Python int, so the
    array is an int64 array. *)
Definition full_zero (mask : list (list bool)) : list (list Z) :=
  map (map (fun _ => 0)) mask.

Definition count_true (mask : list (list bool)) : nat :=
  length (List.filter (fun b : bool => b) (concat mask)).

Fixpoint assign_row (out : list Z) (mask : list bool) (vals : list Z)
  : list Z * list Z :=
  match out, mask with
  | o :: out', b :: mask' =>
      match b, vals with
      | true, v :: vals' =>
          let (r, rest) := assign_row out' mask' vals' in (v :: r, rest)
      | _, _ =>
          let (r, rest) := assign_row out' mask' vals in (o :: r, rest)
      end
  | _, _ => (out, vals)
  end.

Fixpoint assign_rows (out : list (list Z)) (mask : list (list bool)) (vals : list Z)
  : list (list Z) :=
  match out, mask with
  | o :: out', m :: mask' =>
      let (r, rest) := assign_row o m vals in r :: assign_rows out' mask' rest
  | _, _ => out
  end.

(** [out[mask] = values]: the selected cells take the values in row-major
    order, converted to the array's type; one value is broadcast, any other
    count that differs from the number of selected cells is a ValueError. *)
Definition masked_assign (out : list (list Z)) (mask : list (list bool))
  (values : list float) : result (list (list Z)) :=
  let n := count_true mask in
  let vals := map int64_of_float values in
  if Nat.eqb (length vals) n then Ok (assign_rows out mask vals)
  else match vals with
       | [v] => Ok (assign_rows out mask (repeat v n))
       | _ => Err ValueError
       end.

(** ** Datasets *)

(** [self.x] and [self.y] hold a Python list or a numpy array. *)
Inductive axis : Set :=
  | PyList (l : list float)
  | NdArray (l : list float).

Definition axis_values (a : axis) : list float :=
  match a with PyList l | NdArray l => l end.

Record BrukerData : Set := mkData {
  filename : option string;
  header : option attrs;
  rngs : list BrukerRange;
  x : axis;
  y : axis;
  smap : option (list (list Z))
}.

(** [BrukerData.add_range] *)
Definition add_range (rngs : list BrukerRange) (rng : BrukerRange) : list BrukerRange :=
  rngs ++ [rng].

(** [BrukerData.get_data_from_file]; [fs] is the file system. *)
Definition get_data_from_file (fs : string -> option bytes) (filename : string)
  : result bytes :=
  match fs filename with
  | None => Err IOError_
  | Some filecontent =>
      if negb (bytes_in (list_byte_of_string "RAW1.01") (slice filecontent 0 8))
      then Err InvalidFormat
      else Ok filecontent
  end.

(** The tilt coordinate of one range in [get_smap]. *)
Definition tilt (rng : BrukerRange) : result float :=
  do phi <- sup_getitem (supmetta rng) "act_psi";
  do chi_s <- sup_getitem (supmetta rng) "chi_start";
  do chi_e <- sup_getitem (supmetta rng) "chi_end";
  do phi <- as_float phi;
  do chi_s <- as_float chi_s;
  do chi_e <- as_float chi_e;
  Ok (90 - phi + (90 + chi_s - (chi_s - chi_e) / 2))%float.

Fixpoint tilts (rngs : list BrukerRange) : result (list float) :=
  match rngs with
  | [] => Ok []
  | rng :: rngs' =>
      do t <- tilt rng;
      do ts <- tilts rngs';
      Ok (t :: ts)
  end.

(** The angular axis of a range: [np.linspace(twoth_0, twoth_e, twoth_len)]
    with [twoth_e = twoth_0 + twoth_s * steps]. *)
Definition twoth_axis (rng : BrukerRange) (twoth_len : Z) : result (list float) :=
  do twoth_0 <- as_float (getitem (metta rng) "start_2th");
  do twoth_s <- as_float (getitem (metta rng) "step_size");
  do steps <- as_float (getitem (metta rng) "steps");
  let twoth_e := (twoth_0 + twoth_s * steps)%float in
  linspace twoth_0 twoth_e twoth_len.

(** [BrukerData.get_smap]: the new [x], [y] and [smap]. *)
Definition get_smap (rngs : list BrukerRange)
  : result (list float * list float * list (list Z)) :=
  do y <- tilts rngs;
  let smap := map counts_data rngs in
  let lens := map (fun item => Z.of_nat (length item)) smap in
  do m <- max_len lens;
  let mask := len_mask lens m in
  do out <- masked_assign (full_zero mask) mask (concat smap);
  do userng <- argmax lens;
  do rng <- match nth_error rngs userng with Some r => Ok r | None => Err IndexError end;
  do x <- twoth_axis rng m;
  do ymin <- py_min y;
  do ymax <- py_max y;
  do y <- linspace ymin ymax (Z.of_nat (length rngs));
  Ok (x, y, out).

(** [v == n] for a decoded value and an int. *)
Definition eq_int (v : value) (n : Z) : bool :=
  match v with
  | VInt m => m =? n
  | VFloat f => (f =? float_of_int n)%float
  | _ => false
  end.

(** The range loop of [__init__]: [n] more declared ranges, the next at [pos]. *)
Fixpoint init_ranges (filecontent : bytes) (n : nat) (pos : Z) (header : attrs)
  (rngs : list BrukerRange) : result (attrs * list BrukerRange) :=
  match n with
  | O => Ok (header, rngs)
  | S n' =>
      do rp <- get_range filecontent pos;
      do steps <- as_int (getitem (metta (fst rp)) "steps");
      if 0 <? steps then
        init_ranges filecontent n' (snd rp) header (add_range rngs (fst rp))
      else
        do cnt <- as_int (getitem header "range_cnt");
        init_ranges filecontent n' (snd rp)
          (setitem header "range_cnt" (VInt (cnt - 1))) rngs
  end.

(** [BrukerData.__init__] *)
Definition BrukerData_init (fs : string -> option bytes) (filename : option string)
  : result BrukerData :=
  match filename with
  | None | Some EmptyString =>
      Ok (mkData filename None [] (PyList []) (PyList []) (Some [[]]))
  | Some name =>
      do filecontent <- get_data_from_file fs name;
      do header <- get_metta filecontent BrukerHeader 0;
      do range_cnt <- as_int (getitem header "range_cnt");
      do hr <- init_ranges filecontent (Z.to_nat range_cnt) 712 header [];
      let header := fst hr in
      let rngs := snd hr in
      do rng0 <- match rngs with r :: _ => Ok r | [] => Err IndexError end;
      do tag <- sup_getitem (supmetta rng0) "type";
      if eq_int tag 200 then
        do xys <- get_smap rngs;
        Ok (mkData filename (Some header) rngs
              (NdArray (fst (fst xys))) (NdArray (snd (fst xys))) (Some (snd xys)))
      else
        let y := counts_data rng0 in
        do x <- twoth_axis rng0 (Z.of_nat (length y));
        Ok (mkData filename (Some header) rngs (NdArray x) (PyList y) None)
  end.

(** ** Building files for the examples *)

Definition byte_of_Z (z : Z) : Byte.byte :=
  match Byte.of_N (Z.to_N (z mod 256)) with
  | Some b => b
  | None => Byte.x00
  end.

(** [n] bytes of [v], little-endian. *)
Fixpoint le_bytes (n : nat) (v : Z) : bytes :=
  match n with
  | O => []
  | S n' => byte_of_Z v :: le_bytes n' (v / 256)
  end.

(** [buf] with [data] written at offset [off]. *)
Definition poke (off : nat) (data : bytes) (buf : bytes) : bytes :=
  firstn off buf ++ data ++ skipn (off + length data) buf.

Definition zeros (n : nat) : bytes := repeat Byte.x00 n.

(** A global header: the signature [sig] and the range count. *)
Definition file_header (sig : bytes) (range_cnt : Z) : bytes :=
  poke 12 (le_bytes 4 range_cnt) (poke 0 sig (zeros 712)).

(** A 304-byte range header; [start_2th] and [step_size] are binary64 bit
    patterns. *)
Definition range_header (steps start_2th step_size sup_len : Z) : bytes :=
  poke 256 (le_bytes 4 sup_len)
    (poke 176 (le_bytes 8 step_size)
       (poke 16 (le_bytes 8 start_2th)
          (poke 4 (le_bytes 4 steps)
             (poke 0 (le_bytes 4 304) (zeros 304))))).

(** Samples from binary32 bit patterns. *)
Definition samples (bits : list Z) : bytes := concat (map (le_bytes 4) bits).

Definition RAW1_01 : bytes := list_byte_of_string "RAW1.01".

(** The single-range scan: 5 steps from 10.0 with step size 1.0 and the
    samples 1.5, 2.5, 100.0, 0.25, 7.0. *)
Definition scan_1d : bytes :=
  file_header RAW1_01 1
    ++ range_header 5 0x4024000000000000 0x3FF0000000000000 0
    ++ samples [0x3FC00000; 0x40200000; 0x42C80000; 0x3E800000; 0x40E00000].

(** A file system holding one file. *)
Definition one_file (name : string) (content : bytes) : string -> option bytes :=
  fun n => if String.eqb n name then Some content else None.

(** A 72-byte area-detector supplemental header (type 200); the angles are
    binary32 bit patterns. *)
Definition supp200 (chi_start chi_end act_psi : Z) : bytes :=
  poke 68 (le_bytes 4 act_psi)
    (poke 28 (le_bytes 4 chi_end)
       (poke 24 (le_bytes 4 chi_start)
          (poke 4 (le_bytes 4 72)
             (poke 0 (le_bytes 4 200) (zeros 72))))).

(** An area map of two ranges: 3 steps (1.5, 2.5, 3.5) at psi = 0 and
    5 steps (1.0 .. 5.0) at psi = 10, both from 2theta = 10.0 with step
    size 1.0 and chi from 0 to 0. *)
Definition map_2d : bytes :=
  file_header RAW1_01 2
    ++ range_header 3 0x4024000000000000 0x3FF0000000000000 72
    ++ supp200 0 0 0
    ++ samples [0x3FC00000; 0x40200000; 0x40600000]
    ++ range_header 5 0x4024000000000000 0x3FF0000000000000 72
    ++ supp200 0 0 0x41200000
    ++ samples [0x3F800000; 0x40000000; 0x40400000; 0x40800000; 0x40A00000].

(** ** Queries and concatenation of datasets *)

(** [DOUBLE_argmin] of numpy: the first index of the minimum; a NaN counts
    as minimal and ends the scan. *)
Fixpoint argmin_from (l : list float) (i best : nat) (mp : float) : nat :=
  match l with
  | [] => best
  | v :: l' =>
      if negb (mp <=? v)%float then
        if PrimFloat.is_nan v then i else argmin_from l' (S i) i v
      else argmin_from l' (S i) best mp
  end.

(** [a.argmin()] *)
Definition argmin (l : list float) : result nat :=
  match l with
  | [] => Err ValueError
  | a :: l' => Ok (if PrimFloat.is_nan a then O else argmin_from l' 1 0 a)
  end.

(** One coordinate of [get_index_xy]:
    [out = np.abs(axis - v).argmin()], then
    [if len(axis) == 1 and v > axis[0]: out = 1].
    A Python list has no [-] with a float. *)
Definition nearest_index (a : axis) (v : float) : result Z :=
  match a with
  | PyList _ => Err TypeError
  | NdArray l =>
      do out <- argmin (map (fun e => abs (e - v))%float l);
      Ok (match l with
          | [a0] => if (a0 <? v)%float then 1 else Z.of_nat out
          | _ => Z.of_nat out
          end)
  end.

(** [BrukerData.get_index_xy]: [y] is resolved first. *)
Definition get_index_xy (self : BrukerData) (qx qy : float) : result (Z * Z) :=
  do y_out <- nearest_index (y self) qy;
  do x_out <- nearest_index (x self) qx;
  Ok (x_out, y_out).

Fixpoint all_eqb (a b : list float) : bool :=
  match a, b with
  | [], [] => true
  | u :: a', v :: b' => (u =? v)%float && all_eqb a' b'
  | _, _ => false
  end.

(** [np.array_equal]: same shape and [(a == b).all()]. *)
Definition array_equal (a b : axis) : bool :=
  all_eqb (axis_values a) (axis_values b).

Fixpoint hstack (a b : list (list Z)) : list (list Z) :=
  match a, b with
  | r :: a', s :: b' => (r ++ s) :: hstack a' b'
  | _, _ => []
  end.

(** [np.concatenate((a, b), axis=1)] of two 2-D arrays: the row counts must
    agree; [None] is not an array. *)
Definition concatenate_cols (a b : option (list (list Z))) : result (list (list Z)) :=
  match a, b with
  | Some a, Some b =>
      if Nat.eqb (length a) (length b) then Ok (hstack a b) else Err ValueError
  | _, _ => Err ValueError
  end.

(** [BrukerData.__add__].  The [raise] inside the [try] is caught by the bare
    [except], which raises the one exception callers see. *)
Definition BrukerData_add (self other : BrukerData) : result BrukerData :=
  if negb (array_equal (y self) (y other)) then Err AxisMismatch
  else
    do m <- concatenate_cols (smap self) (smap other);
    let rx := NdArray (axis_values (x self) ++ axis_values (x other)) in
    do name <- match filename self, filename other with
               | Some a, Some b => Ok (a ++ " & " ++ b)%string
               | _, _ => Err TypeError
               end;
    Ok (mkData (Some name) None (rngs self ++ rngs other) rx (y self) (Some m)).

(** ** Schema objects *)

(** A [BrukerHeader] instance holds a reference to its [_attrs] dict; the
    dicts live in a store, so that two instances can share one. *)
Abbreviation store := (gmap nat attrs).

Record BrukerHeaderObj : Set := mkObj { _attrs : nat }.

(** A constructor call [cls()]: a new dict holding the class's table. *)
Definition new_header (cls : attrs) (h : store) : store * BrukerHeaderObj :=
  let l := fresh (dom h) in (<[l := cls]> h, mkObj l).

(** [BrukerHeader.__deepcopy__]: [_head = BrukerHeader()], then
    [_head._attrs = self._attrs]. *)
Definition deepcopy (self : BrukerHeaderObj) (h : store) : store * BrukerHeaderObj :=
  let (h', _head) := new_header BrukerHeader h in
  (h', mkObj (_attrs self)).

(** [BrukerHeader.copy] *)
Definition copy (self : BrukerHeaderObj) (h : store) : store * BrukerHeaderObj :=
  deepcopy self h.

(** [BrukerHeader.__add__]; an operand that has no [_attrs] dict, like a key
    in both tables, ends in the [except] clause. *)
Definition BrukerHeader_add (self other : BrukerHeaderObj) (h : store)
  : result (store * BrukerHeaderObj) :=
  match h !! _attrs self, h !! _attrs other with
  | Some sa, Some oa =>
      let same := List.filter (fun key => has_key key oa) (map fst sa) in
      match same with
      | _ :: _ => Err SchemaMismatch
      | [] =>
          let (h1, _head) := copy self h in
          match h1 !! _attrs _head, h1 !! _attrs other with
          | Some ha, Some ob => Ok (<[_attrs _head := update ha ob]> h1, _head)
          | _, _ => Err SchemaMismatch
          end
      end
  | _, _ => Err SchemaMismatch
  end.

(** ** Reference decoding of the declared ranges *)

(** The [n] declared ranges decoded one after the other, each at the cursor
    its predecessor returned; no range is dropped. *)
Fixpoint decode_ranges (filecontent : bytes) (n : nat) (pos : Z)
  : result (list BrukerRange) :=
  match n with
  | O => Ok []
  | S n' =>
      do rp <- get_range filecontent pos;
      do rest <- decode_ranges filecontent n' (snd rp);
      Ok (fst rp :: rest)
  end.

(** [rng.metta['steps'] > 0] *)
Definition has_steps (rng : BrukerRange) : bool :=
  match getitem (metta rng) "steps" with
  | VInt n => 0 <? n
  | _ => false
  end.

(** ** More example files *)

(** Three declared ranges, the second with no step. *)
Definition scan_gap : bytes :=
  file_header RAW1_01 3
    ++ range_header 2 0x4024000000000000 0x3FF0000000000000 0
    ++ samples [0x3FC00000; 0x40200000]
    ++ range_header 0 0x4024000000000000 0x3FF0000000000000 0
    ++ range_header 1 0x4034000000000000 0x3FF0000000000000 0
    ++ samples [0x40E00000].

(** An area map of two ranges of 2 steps taken at the same tilt. *)
Definition map_flat : bytes :=
  file_header RAW1_01 2
    ++ range_header 2 0x4024000000000000 0x3FF0000000000000 72
    ++ supp200 0 0 0
    ++ samples [0x3F800000; 0x40000000]
    ++ range_header 2 0x4024000000000000 0x3FF0000000000000 72
    ++ supp200 0 0 0
    ++ samples [0x40400000; 0x40800000].

(** A comment record (type 140) of total length 20: the comment field at
    offset 8 holds the 12 bytes [hello world!]. *)
Definition comment_record : bytes :=
  le_bytes 4 140 ++ le_bytes 4 20 ++ list_byte_of_string "hello world!".

(** A scan whose only range carries the comment record. *)
Definition scan_comment : bytes :=
  file_header RAW1_01 1
    ++ range_header 1 0x4024000000000000 0x3FF0000000000000 20
    ++ comment_record
    ++ samples [0x40E00000].

(** No declared range, and one declared range with no step. *)
Definition scan_none : bytes := file_header RAW1_01 0.

Definition scan_empty : bytes :=
  file_header RAW1_01 1
    ++ range_header 0 0x4024000000000000 0x3FF0000000000000 0.

(** ** Example schema instances *)

(** A file header and a range header constructed in an empty store. *)
Definition two_headers : store * (BrukerHeaderObj * BrukerHeaderObj) :=
  let ha := new_header BrukerHeader ∅ in
  let hb := new_header BrukerRangeHeader (fst ha) in
  (fst hb, (snd ha, snd hb)).

Definition store0 : store := fst two_headers.
Definition file_schema : BrukerHeaderObj := fst (snd two_headers).
Definition range_schema : BrukerHeaderObj := snd (snd two_headers).

(** The dataset a file decodes to (the empty dataset when decoding fails). *)
Definition decoded (content : bytes) : BrukerData :=
  match BrukerData_init (one_file "scan.raw" content) (Some "scan.raw") with
  | Ok d => d
  | Err _ => mkData None None [] (PyList []) (PyList []) None
  end.

(** [not (has_steps rng)] *)
Definition no_steps (rng : BrukerRange) : bool := negb (has_steps rng).

(** The scan of 5 steps with other first bytes: the signature moved one byte
    to the right, and a different version number. *)
Definition scan_shifted : bytes := poke 0 (list_byte_of_string "XRAW1.01") scan_1d.

Definition scan_v100 : bytes := poke 0 (list_byte_of_string "RAW1.00") scan_1d.

(** ** Predicates used in the statements *)

(** A computation that does not end in the signature error. *)
Definition no_invalid {A} (r : result A) : Prop := r <> Err InvalidFormat.

(** Specification-level floats ([spec_float]) by kind: a number of sign [sx]
    that is not a zero; a zero or a finite number; [+0]; a positive number
    or [+inf]. *)
Definition positive_sf (sx : bool) (f : spec_float) : Prop :=
  (exists m e, f = S754_finite sx m e) \/ f = S754_infinity sx.

Definition finite_sf (f : spec_float) : Prop :=
  match f with
  | S754_zero _ | S754_finite _ _ _ => True
  | _ => False
  end.

Definition zero_sf (f : spec_float) : Prop := f = S754_zero false.

Definition pos_sf (f : spec_float) : Prop :=
  match f with
  | S754_finite false _ _ | S754_infinity false => True
  | _ => False
  end.

Definition nonneg_sf (f : spec_float) : Prop := zero_sf f \/ pos_sf f.

(** The same kinds for the distances [abs (e - v)] the lookup compares. *)
Definition is_zero_dist (d : float) : Prop := zero_sf (Prim2SF d).
Definition is_pos_dist (d : float) : Prop := pos_sf (Prim2SF d).
Definition is_dist (d : float) : Prop := nonneg_sf (Prim2SF d).

(** The row of the assembled matrix for one range: its samples converted to
    the integer type of the matrix, then zeros up to [w] columns. *)
Definition padded_row (w : Z) (rng : BrukerRange) : list Z :=
  map int64_of_float (counts_data rng)
    ++ repeat 0 (Z.to_nat w - length (counts_data rng)).

(** ** Layouts of schemas *)

(** The bytes the [elif] chain of [get_metta] assigns to a type other than ['??']. *)
Definition fixed_bits (t : typ) : Z :=
  match t with
  | TStr n => n
  | TFmt Fh | TFmt FH => 2
  | TFmt Ff | TFmt FI => 4
  | TFmt Fd | TFmt FQ | TFmt Fq => 8
  | TFmt Fvar => 0
  end.

Definition is_var (t : typ) : bool :=
  match t with TFmt Fvar => true | _ => false end.

(** What a schema fixes: the keys in order with label, type and position. *)
Definition schema_of (a : attrs) : list (string * (string * typ * option Z)) :=
  map (fun kf => (fst kf, (flabel (snd kf), ftyp (snd kf), fpos (snd kf)))) a.

Fixpoint unique_keys (a : attrs) : bool :=
  match a with
  | [] => true
  | (k, _) :: a' => negb (has_key k a') && unique_keys a'
  end.

(** A field of fixed size: a type other than ['??'], at least one byte, at a
    position that is not negative. *)
Definition fixed_field (f : field) : bool :=
  negb (is_var (ftyp f)) && (0 <? fixed_bits (ftyp f))
  && match fpos f with Some p => 0 <=? p | None => false end.

(** A schema of fixed layout: some field, unique keys, fixed fields only. *)
Definition fixed_schema (m : attrs) : bool :=
  match m with [] => false | _ => true end
  && unique_keys m && forallb (fun kf => fixed_field (snd kf)) m.

Definition field_end (f : field) : Z :=
  match fpos f with
  | Some p => p + fixed_bits (ftyp f)
  | None => 0
  end.

(** The offset just behind the last byte a schema describes. *)
Definition extent (m : attrs) : Z :=
  fold_right (fun kf acc => Z.max (field_end (snd kf)) acc) 0 m.

Definition supp_classes : list (Z * attrs) :=
  [(100, BrukerSupp100); (110, BrukerSupp110); (120, BrukerSupp120);
   (130, BrukerSupp130); (140, BrukerSupp140); (150, BrukerSupp150);
   (190, BrukerSupp190); (200, BrukerSupp200)].

(** ** Reading the axes at positions *)

(** An argument of [get_real_xy]: [None], an [int] or a [float], a list of
    them, or an object of another type, which a numpy integer is (in
    Python 3 [numpy.int64] is not an instance of [int]). *)
Inductive pynum : Set :=
  | PInt (n : Z)
  | PFloat (f : float).

Inductive coord : Set :=
  | CNone
  | CNum (v : pynum)
  | CList (l : list pynum)
  | COther.

(** An entry of the list [get_real_xy] returns. *)
Inductive real : Set :=
  | RNone
  | RNum (f : float)
  | RList (l : list float).

(** [int(v)] *)
Definition py_int (v : pynum) : result Z :=
  match v with
  | PInt n => Ok n
  | PFloat f => int_of_float f
  end.

(** [a[k]] for a list or a 1-D array: a negative index counts from the end. *)
Definition axis_getitem (a : axis) (k : Z) : result float :=
  let l := axis_values a in
  let n := Z.of_nat (length l) in
  if (- n <=? k) && (k <? n) then
    match nth_error l (Z.to_nat (if k <? 0 then k + n else k)) with
    | Some v => Ok v
    | None => Err IndexError
    end
  else Err IndexError.

(** [[getattr(self, z)[int(i)] for i in l]] *)
Fixpoint axis_getitems (a : axis) (l : list pynum) : result (list float) :=
  match l with
  | [] => Ok []
  | v :: l' =>
      do k <- py_int v;
      do e <- axis_getitem a k;
      do es <- axis_getitems a l';
      Ok (e :: es)
  end.

(** One pass of the loop of [get_real_xy]. *)
Definition real_of (a : axis) (c : coord) : result real :=
  match c with
  | CList l => do es <- axis_getitems a l; Ok (RList es)
  | CNum v => do k <- py_int v; do e <- axis_getitem a k; Ok (RNum e)
  | CNone | COther => Ok RNone
  end.

(** [BrukerData.get_real_xy]: [x] is resolved first. *)
Definition get_real_xy (self : BrukerData) (cx cy : coord) : result (real * real) :=
  do ox <- real_of (x self) cx;
  do oy <- real_of (y self) cy;
  Ok (ox, oy).

(** A query the lookup answers with a position of the axis: the axis is not
    empty, and the query is not beyond the only entry of a one-entry axis. *)
Definition answered (l : list float) (v : float) : Prop :=
  match l with
  | [] => False
  | [a0] => (a0 <? v)%float = false
  | _ => True
  end.

(** The distance the lookup minimises. *)
Definition dist (e v : float) : float := abs (e - v)%float.

(** ** Integration over a region *)

(** [l[lo:hi]] for a list or along one dimension of an array. *)
Definition seq_slice {A} (l : list A) (lo hi : Z) : list A :=
  let n := Z.of_nat (length l) in
  let lo' := py_index n lo in
  let hi' := py_index n hi in
  firstn (Z.to_nat (hi' - lo')) (skipn (Z.to_nat lo') l).

(** The [area] argument of [integrate_2d]: the string ['all'] or a sequence
    of ints. *)
Inductive area : Set :=
  | AreaAll
  | AreaSeq (l : list Z).

(** What [integrate_2d] raises: its two [Exception]s, and the errors of
    touching a matrix that is [None]. *)
Inductive integrate_error : Set :=
  | AreaError         (* Exception('area must be "all" or (x1, y1, x2, y2).') *)
  | AxisError         (* Exception('axis must be specified either "x" or "y".') *)
  | NoShape           (* AttributeError: 'NoneType' object has no attribute 'shape' *)
  | NotSubscriptable. (* TypeError: 'NoneType' object is not subscriptable *)

Inductive outcome (A : Type) : Type :=
  | Done (a : A)
  | Raised (e : integrate_error).
Arguments Done {A} a.
Arguments Raised {A} e.

(** The second entry of [smap.shape]. *)
Definition ncols (m : list (list Z)) : Z :=
  match m with
  | [] => 0
  | row :: _ => Z.of_nat (length row)
  end.

(** An int64 result: the sum modulo [2^64], read as signed. *)
Definition wrap64 (z : Z) : Z := to_signed 64 (z mod 2 ^ 64).

Definition total (l : list Z) : Z := fold_right Z.add 0 l.

(** [smap[y1:y2, x1:x2]] *)
Definition box (m : list (list Z)) (x1 y1 x2 y2 : Z) : list (list Z) :=
  map (fun row => seq_slice row x1 x2) (seq_slice m y1 y2).

(** [np.sum(b, axis=1)]: one sum per row. *)
Definition sum_axis1 (b : list (list Z)) : list Z :=
  map (fun row => wrap64 (total row)) b.

(** [np.sum(b, axis=0)] for a box of [w] columns: one sum per column. *)
Definition sum_axis0 (w : nat) (b : list (list Z)) : list Z :=
  map (fun j => wrap64 (total (map (fun row => nth j row 0) b))) (seq 0 w).

(** The bounds [x1, y1, x2, y2] the first [if] chain of [integrate_2d] sets. *)
Definition area_bounds (self : BrukerData) (a : area) : outcome (Z * Z * Z * Z) :=
  match a with
  | AreaAll =>
      match smap self with
      | None => Raised NoShape
      | Some m => Done (0, 0, ncols m, Z.of_nat (length m))
      end
  | AreaSeq [x1; y1; x2; y2] => Done (x1, y1, x2, y2)
  | AreaSeq _ => Raised AreaError
  end.

(** [BrukerData.integrate_2d], on the int64 matrix that [get_smap] builds
    and [__add__] concatenates. *)
Definition integrate_2d (self : BrukerData) (a : area) (axis : string)
  : outcome (list Z) :=
  match area_bounds self a with
  | Raised e => Raised e
  | Done (x1, y1, x2, y2) =>
      if String.eqb axis "x" then
        match smap self with
        | None => Raised NotSubscriptable
        | Some m =>
            Done (sum_axis0 (length (seq_slice (seq 0 (Z.to_nat (ncols m))) x1 x2))
                    (box m x1 y1 x2 y2))
        end
      else if String.eqb axis "y" then
        match smap self with
        | None => Raised NotSubscriptable
        | Some m => Done (sum_axis1 (box m x1 y1 x2 y2))
        end
      else Raised AxisError
  end.

(** A matrix of [w] columns. *)
Definition rectangular (w : nat) (m : list (list Z)) : Prop :=
  Forall (fun row => length row = w) m.

(** ** Orders and shapes *)

(** Pairs of key and position in non-decreasing order of position. *)
Fixpoint sorted_by_pos (l : list (string * Z)) : Prop :=
  match l with
  | [] => True
  | kp :: l' => Forall (fun kp' => snd kp <= snd kp') l' /\ sorted_by_pos l'
  end.

(** A dataset whose matrix fits its axes: one row per entry of [y], one
    column per entry of [x]. *)
Definition well_shaped (d : BrukerData) : Prop :=
  exists m, smap d = Some m
            /\ length m = length (axis_values (y d))
            /\ rectangular (length (axis_values (x d))) m.

(** A byte string that neither begins nor ends with a NUL or a whitespace
    byte. *)
Definition trimmed (b : bytes) : bool :=
  match b with
  | [] => true
  | c :: _ =>
      negb (is_nul c || is_space c)
      && negb (is_nul (List.last b c) || is_space (List.last b c))
  end.

(** ** A file with an unknown supplemental record *)

(** A scan whose only range carries a supplemental record of a type the
    module has no class for (210). *)
Definition scan_supp210 : bytes :=
  file_header RAW1_01 1
    ++ range_header 1 0x4024000000000000 0x3FF0000000000000 72
    ++ poke 0 (le_bytes 4 210) (supp200 0 0 0)
    ++ samples [0x40E00000].

(** * Properties *)

(** ** The result monad *)

Lemma bind_ok {A B} (r : result A) (k : A -> result B) (b : B) :
  bind r k = Ok b -> exists a, r = Ok a /\ k a = Ok b.
Proof.
  destruct r as [a | e]; simpl; intros H; [ exists a; auto | discriminate ].
Qed.

Lemma bind_err {A B} (r : result A) (k : A -> result B) (e : error) :
  bind r k = Err e -> r = Err e \/ exists a, r = Ok a /\ k a = Err e.
Proof.
  destruct r as [a | e']; simpl; intros H; [ right; exists a; split; auto | left; congruence ].
Qed.

(** Splits a successful chain of binds into its steps. *)
Ltac bind_inv H :=
  let a := fresh "a" in
  let Ha := fresh "Ha" in
  apply bind_ok in H; destruct H as (a & Ha & H).

Tactic Notation "bind_as" hyp(H) ident(a) ident(Ha) :=
  apply bind_ok in H; destruct H as (a & Ha & H).

Lemma as_int_ok (v : value) (n : Z) : as_int v = Ok n -> v = VInt n.
Proof. destruct v; simpl; intros H; inversion H; reflexivity. Qed.

(** ** The schema tables under assignment *)

Lemma dict_get_set_value key item a :
  dict_get key (set_value key item a)
  = option_map (fun f => mkField item (flabel f) (ftyp f) (fpos f)) (dict_get key a).
Proof.
  induction a as [| [k f] a IH]; simpl; [ reflexivity | ].
  destruct (String.eqb key k) eqn:E; simpl; rewrite E; auto.
Qed.

Lemma dict_get_app_new key f a :
  dict_get key a = None -> dict_get key (a ++ [(key, f)]) = Some f.
Proof.
  induction a as [| [k g] a IH]; simpl.
  - now rewrite String.eqb_refl.
  - destruct (String.eqb key k); [ discriminate | auto ].
Qed.

(** What [__setitem__] stored is what [__getitem__] returns. *)
Lemma getitem_setitem a key item : getitem (setitem a key item) key = item.
Proof.
  unfold getitem, setitem, has_key.
  destruct (dict_get key a) as [f |] eqn:E.
  - rewrite dict_get_set_value, E. reflexivity.
  - rewrite dict_get_app_new by exact E. reflexivity.
Qed.

Lemma positions_set_value key item a : positions (set_value key item a) = positions a.
Proof.
  induction a as [| [k f] a IH]; simpl; [ reflexivity | ].
  destruct (String.eqb key k); simpl; [ reflexivity | now rewrite IH ].
Qed.

(** Assigning a key the schema already has leaves the iteration order of
    [__next__] unchanged, which is why [get_metta] can take it once. *)
Lemma sorted_keys_setitem a key item :
  has_key key a = true -> sorted_keys (setitem a key item) = sorted_keys a.
Proof.
  intros H. unfold sorted_keys, setitem. rewrite H, positions_set_value. reflexivity.
Qed.

(** Iterating with [__next__] from [index = -1] visits the keys of
    [sorted_keys] one by one and stops after the last. *)
Lemma next_visits_sorted_keys (a : attrs) (keys : list string) (i : nat) :
  sorted_keys a = Ok keys ->
  next a (Z.of_nat i - 1)
  = match nth_error keys i with
    | Some key => Ok (Some (key, Z.of_nat i))
    | None => if Nat.eqb i (length keys) then Ok None else Err IndexError
    end.
Proof.
  intros H. unfold next. rewrite H. simpl.
  replace (Z.of_nat i - 1 + 1) with (Z.of_nat i) by lia. rewrite Nat2Z.id.
  destruct (Z.of_nat i - 1 =? Z.of_nat (length keys) - 1) eqn:E.
  - apply Z.eqb_eq in E. assert (i = length keys) by lia. subst i.
    rewrite (proj2 (List.nth_error_None keys (length keys))) by lia.
    now rewrite Nat.eqb_refl.
  - apply Z.eqb_neq in E. destruct (nth_error keys i); [ reflexivity | ].
    destruct (Nat.eqb i (length keys)) eqn:E'; [ | reflexivity ].
    apply Nat.eqb_eq in E'. lia.
Qed.

(** ** Floats that differ *)

(** Two axes that differ under [==] at some place, the second free of NaN,
    are different values. *)
Lemma axis_neq (a b : axis) :
  array_equal a b = false -> array_equal b b = true -> a <> b.
Proof. intros H1 H2 E. subst a. congruence. Qed.

(** ** The end-to-end scan of 5 steps *)

(** C1 (the code departs from the claim): the single-range file with
    [steps = 5], [start_2th = 10.0], [step_size = 1.0] and the samples
    1.5, 2.5, 100.0, 0.25, 7.0 decodes to a dataset whose intensity vector is
    the 5 samples verbatim, and whose angular axis is
    [10.0, 11.25, 12.5, 13.75, 15.0]: [linspace] runs to
    [start_2th + step_size * steps] with the end point included, so the axis
    is not [10.0, 11.0, 12.0, 13.0, 14.0]. *)
Theorem C1_scan_1d_axis :
  exists d,
    BrukerData_init (one_file "scan.raw" scan_1d) (Some "scan.raw") = Ok d
    /\ y d = PyList [1.5; 2.5; 100; 0.25; 7]%float
    /\ x d = NdArray [10; 11.25; 12.5; 13.75; 15]%float
    /\ x d <> NdArray [10; 11; 12; 13; 14]%float.
Proof.
  eexists. split; [ vm_compute; reflexivity | ].
  simpl x; simpl y. repeat split.
  apply axis_neq; vm_compute; reflexivity.
Qed.

(** ** Variable-length trailing strings *)



(** C3 (the code departs from the claim): a comment record (type tag 140) of
    total length 20 has its ['??'] field at offset 8.  Decoded at the start
    of the buffer the field has 20 - 8 = 12 bytes; the same record decoded at
    position 4 yields 8 bytes, and in a file, where a supplemental header
    starts beyond byte 1016, the computed length is negative and decoding
    stops with struct.error.  The length is the total-length field minus the
    field's absolute position. *)
Theorem C3_comment_length_depends_on_start :
  (exists m, get_metta comment_record BrukerSupp140 0 = Ok m
             /\ getitem m "comment" = VBytes (list_byte_of_string "hello world!"))
  /\ (exists m, get_metta (zeros 4 ++ comment_record) BrukerSupp140 4 = Ok m
                /\ getitem m "comment" = VBytes (list_byte_of_string "hello wo"))
  /\ BrukerData_init (one_file "scan.raw" scan_comment) (Some "scan.raw")
     = Err StructError.
Proof.
  split; [ | split ].
  - eexists. split; [ vm_compute; reflexivity | reflexivity ].
  - eexists. split; [ vm_compute; reflexivity | reflexivity ].
  - vm_compute. reflexivity.
Qed.

(** ** The area map at a concrete file *)

(** C4 (the code departs from the claim): the area file of two ranges with
    the samples 1.5, 2.5, 3.5 and 1.0 .. 5.0 assembles into a matrix of 2 rows
    and 5 columns whose first row ends in two zeros; but the matrix is made by
    [np.full(mask.shape, 0)], an integer array, so the samples of the first
    range are stored as 1, 2, 3 and not copied. *)
Theorem C4_map_2d_truncates :
  exists d,
    BrukerData_init (one_file "map.raw" map_2d) (Some "map.raw") = Ok d
    /\ map counts_data (rngs d) = [[1.5; 2.5; 3.5]; [1; 2; 3; 4; 5]]%float
    /\ smap d = Some [[1; 2; 3; 0; 0]; [1; 2; 3; 4; 5]].
Proof.
  eexists. split; [ vm_compute; reflexivity | ].
  split; reflexivity.
Qed.

(** ** Schema composition *)

(** [copy] returns an instance that shares the dict of [self]: the dict the
    constructor made for it is dropped. *)
Lemma copy_aliases (self : BrukerHeaderObj) (h : store) :
  _attrs (snd (copy self h)) = _attrs self.
Proof. reflexivity. Qed.

(** Composing two schemas with no common key succeeds, returns an instance
    on the dict of the left operand, and that dict now holds the merged
    table; the dict of a distinct right operand is left as it was. *)
Lemma BrukerHeader_add_shares (h : store) (self other : BrukerHeaderObj)
  (sa oa : attrs) :
  h !! _attrs self = Some sa ->
  h !! _attrs other = Some oa ->
  List.filter (fun key => has_key key oa) (map fst sa) = [] ->
  exists h',
    BrukerHeader_add self other h = Ok (h', mkObj (_attrs self))
    /\ h' !! _attrs self = Some (update sa oa)
    /\ (_attrs other <> _attrs self -> h' !! _attrs other = Some oa).
Proof.
  intros Hs Ho Hd.
  assert (Hf : forall l t, h !! l = Some t -> fresh (dom h) <> l).
  { intros l t Hl E. apply (is_fresh (dom h)). rewrite E.
    apply elem_of_dom. eauto. }
  exists (<[_attrs self := update sa oa]> (<[fresh (dom h) := BrukerHeader]> h)).
  split; [ | split ].
  - unfold BrukerHeader_add. rewrite Hs, Ho, Hd.
    unfold copy, deepcopy, new_header. simpl.
    rewrite !lookup_insert_ne by eauto.
    rewrite Hs, Ho. reflexivity.
  - apply lookup_insert_eq.
  - intros Hne. rewrite !lookup_insert_ne by eauto. exact Ho.
Qed.

(** A table grows by the keys it did not have. *)
Lemma update_length_ge (a b : attrs) : (length a <= length (update a b))%nat.
Proof.
  unfold update. revert a.
  induction b as [| kf b IH]; intros a; simpl; [ lia | ].
  etransitivity; [ | apply IH ].
  destruct (has_key (fst kf) a).
  - clear. induction a as [| [k g] a IH]; simpl; [ lia | ].
    destruct (String.eqb (fst kf) k); simpl; lia.
  - rewrite length_app. simpl. lia.
Qed.

(** C9 (the code departs from the claim): [BrukerHeader() + BrukerRangeHeader()],
    two schemas with disjoint field names.  The sum succeeds, but the instance
    it returns shares the [_attrs] dict of the left operand
    ([__deepcopy__] assigns the reference), so after the sum the left
    operand's table has the 91 fields of both schemas instead of its 37.
    The right operand's table is unchanged. *)
Theorem C9_add_mutates_left_operand :
  store0 !! _attrs file_schema = Some BrukerHeader
  /\ store0 !! _attrs range_schema = Some BrukerRangeHeader
  /\ exists h' r,
       BrukerHeader_add file_schema range_schema store0 = Ok (h', r)
       /\ _attrs r = _attrs file_schema
       /\ h' !! _attrs file_schema = Some (update BrukerHeader BrukerRangeHeader)
       /\ length (update BrukerHeader BrukerRangeHeader) = 91%nat
       /\ length BrukerHeader = 37%nat
       /\ h' !! _attrs range_schema = Some BrukerRangeHeader.
Proof.
  assert (Ha : store0 !! _attrs file_schema = Some BrukerHeader)
    by (vm_compute; reflexivity).
  assert (Hb : store0 !! _attrs range_schema = Some BrukerRangeHeader)
    by (vm_compute; reflexivity).
  split; [ exact Ha | split; [ exact Hb | ] ].
  destruct (BrukerHeader_add_shares store0 file_schema range_schema
              BrukerHeader BrukerRangeHeader Ha Hb) as (h' & Hadd & Hl & Hr);
    [ vm_compute; reflexivity | ].
  exists h', (mkObj (_attrs file_schema)).
  split; [ exact Hadd | ].
  split; [ reflexivity | ].
  split; [ exact Hl | ].
  split; [ vm_compute; reflexivity | ].
  split; [ vm_compute; reflexivity | ].
  apply Hr. vm_compute. discriminate.
Qed.

(** ** The range loop of the assembler *)

(** A decoded range has an int step count, and as many samples. *)
Lemma get_range_steps filecontent pos rp :
  get_range filecontent pos = Ok rp ->
  exists s, getitem (metta (fst rp)) "steps" = VInt s
            /\ length (counts_data (fst rp)) = Z.to_nat s.
Proof.
  unfold get_range. intros H.
  bind_inv H. bind_inv H. bind_inv H. bind_inv H. bind_inv H. bind_inv H.
  injection H as <-. simpl.
  apply as_int_ok in Ha3. exists a3. split; [ exact Ha3 | ].
  clear - Ha4. revert Ha4. generalize 0. generalize (pos + a0 + a1). revert a4.
  induction (Z.to_nat a3) as [| n IH]; intros l p i H; simpl in H.
  - injection H as <-. reflexivity.
  - bind_inv H. bind_inv H. bind_inv H. injection H as <-.
    simpl. f_equal. eapply IH. exact Ha1.
Qed.

(** The loop of [__init__] against the plain decoding of all declared
    ranges: it succeeds on the same ranges, keeps those with steps in their
    order, and lowers the count once for every other one. *)
Lemma init_ranges_decode filecontent n :
  forall pos header rngs header' rngs' cnt,
    init_ranges filecontent n pos header rngs = Ok (header', rngs') ->
    getitem header "range_cnt" = VInt cnt ->
    exists all,
      decode_ranges filecontent n pos = Ok all
      /\ length all = n
      /\ rngs' = rngs ++ List.filter has_steps all
      /\ getitem header' "range_cnt"
         = VInt (cnt - Z.of_nat (length (List.filter no_steps all))).
Proof.
  induction n as [| n IH]; intros pos header rngs header' rngs' cnt H Hc; simpl in H.
  - injection H as <- <-. exists []. simpl.
    rewrite app_nil_r, Z.sub_0_r. auto.
  - bind_inv H. bind_inv H. apply as_int_ok in Ha0.
    assert (Hh : has_steps (fst a) = (0 <? a0)) by (unfold has_steps; now rewrite Ha0).
    simpl. rewrite Ha. simpl.
    destruct (0 <? a0) eqn:Hs.
    + destruct (IH _ _ _ _ _ _ H Hc) as (all & Hd & Hl & Hr & Hcnt).
      exists (fst a :: all). rewrite Hd. simpl.
      unfold no_steps at 1. rewrite Hh. simpl.
      split; [ reflexivity | ].
      split; [ now rewrite Hl | ].
      split; [ | exact Hcnt ].
      rewrite Hr. unfold add_range. now rewrite <- app_assoc.
    + bind_inv H. apply as_int_ok in Ha1. rewrite Hc in Ha1. injection Ha1 as <-.
      destruct (IH _ _ _ _ _ (cnt - 1) H (getitem_setitem _ _ _))
        as (all & Hd & Hl & Hr & Hcnt).
      exists (fst a :: all). rewrite Hd. simpl.
      unfold no_steps at 1. rewrite Hh. simpl.
      split; [ reflexivity | ].
      split; [ now rewrite Hl | ].
      split; [ exact Hr | ].
      rewrite Hcnt. f_equal. lia.
Qed.

(** Conversely, when all declared ranges decode, the loop succeeds. *)
Lemma decode_ranges_init filecontent n :
  forall pos header rngs all cnt,
    decode_ranges filecontent n pos = Ok all ->
    getitem header "range_cnt" = VInt cnt ->
    exists header' rngs',
      init_ranges filecontent n pos header rngs = Ok (header', rngs').
Proof.
  induction n as [| n IH]; intros pos header rngs all cnt H Hc; simpl in H |- *.
  - eauto.
  - bind_inv H. bind_inv H. rewrite Ha. simpl.
    destruct (get_range_steps _ _ _ Ha) as (s & Hs & _). rewrite Hs. simpl.
    destruct (0 <? s).
    + eapply IH; eauto.
    + rewrite Hc. simpl. eapply IH; [ eauto | apply getitem_setitem ].
Qed.

(** ** What a successful construction went through *)

Lemma get_data_from_file_ok fs name content :
  get_data_from_file fs name = Ok content ->
  fs name = Some content
  /\ bytes_in RAW1_01 (slice content 0 8) = true.
Proof.
  unfold get_data_from_file. destruct (fs name) as [c |]; [ | discriminate ].
  fold RAW1_01. destruct (bytes_in RAW1_01 (slice c 0 8)) eqn:E; simpl; [ | discriminate ].
  intros H. injection H as <-. auto.
Qed.

Lemma BrukerData_init_ok fs name d :
  name <> "" ->
  BrukerData_init fs (Some name) = Ok d ->
  exists content hdr cnt hdr' rng0 rngs',
    get_data_from_file fs name = Ok content
    /\ get_metta content BrukerHeader 0 = Ok hdr
    /\ getitem hdr "range_cnt" = VInt cnt
    /\ init_ranges content (Z.to_nat cnt) 712 hdr [] = Ok (hdr', rng0 :: rngs')
    /\ rngs d = rng0 :: rngs'
    /\ header d = Some hdr'
    /\ filename d = Some name.
Proof.
  intros Hn H. unfold BrukerData_init in H.
  destruct name as [| c name]; [ congruence | ].
  bind_inv H. bind_inv H. bind_inv H. bind_inv H.
  apply as_int_ok in Ha1.
  destruct a2 as [hdr' rngs']. simpl in H.
  destruct rngs' as [| rng0 rngs']; simpl in H; [ discriminate | ].
  bind_inv H.
  exists a, a0, a1, hdr', rng0, rngs'.
  destruct (eq_int a2 200).
  - bind_inv H. injection H as <-. simpl. auto 10.
  - bind_inv H. injection H as <-. simpl. auto 10.
Qed.

(** The retained ranges of a decoded dataset are the declared ranges that
    have steps. *)
Lemma retained_ranges_decoded fs name d :
  name <> "" ->
  BrukerData_init fs (Some name) = Ok d ->
  exists content declared all,
    decode_ranges content (Z.to_nat declared) 712 = Ok all
    /\ rngs d = List.filter has_steps all.
Proof.
  intros Hn H.
  destruct (BrukerData_init_ok _ _ _ Hn H)
    as (content & hdr & cnt & hdr' & rng0 & rngs' & Hf & Hm & Hc & Hi & Hr & Hh & _).
  destruct (init_ranges_decode _ _ _ _ _ _ _ _ Hi Hc) as (all & Hd & Hl & Hk & Hcnt).
  exists content, cnt, all. rewrite Hr, Hk. auto.
Qed.

(** C5: during assembly the loop runs once for each originally declared
    range, each decoded at the cursor the previous one returned; the dataset
    keeps exactly the ranges with [steps > 0], in their order, drops the ones
    with [steps == 0], and the header's range count ends as the declared
    count minus one for every dropped range. *)
Theorem C5_zero_step_ranges_are_dropped fs name d :
  name <> "" ->
  BrukerData_init fs (Some name) = Ok d ->
  exists content hdr declared all h,
    fs name = Some content
    /\ get_metta content BrukerHeader 0 = Ok hdr
    /\ getitem hdr "range_cnt" = VInt declared
    /\ decode_ranges content (Z.to_nat declared) 712 = Ok all
    /\ length all = Z.to_nat declared
    /\ rngs d = List.filter has_steps all
    /\ header d = Some h
    /\ getitem h "range_cnt"
       = VInt (declared - Z.of_nat (length (List.filter no_steps all))).
Proof.
  intros Hn H.
  destruct (BrukerData_init_ok _ _ _ Hn H)
    as (content & hdr & cnt & hdr' & rng0 & rngs' & Hf & Hm & Hc & Hi & Hr & Hh & _).
  destruct (init_ranges_decode _ _ _ _ _ _ _ _ Hi Hc) as (all & Hd & Hl & Hk & Hcnt).
  apply get_data_from_file_ok in Hf. destruct Hf as [Hf _].
  exists content, hdr, cnt, all, hdr'.
  rewrite Hr, Hk. auto 10.
Qed.

(** The scan with three declared ranges, the second without steps: two
    ranges are kept and the count ends at 2. *)
Lemma C5_witness :
  exists content hdr all h,
    get_metta content BrukerHeader 0 = Ok hdr
    /\ getitem hdr "range_cnt" = VInt 3
    /\ decode_ranges content 3 712 = Ok all
    /\ length (rngs (decoded scan_gap)) = 2%nat
    /\ rngs (decoded scan_gap) = List.filter has_steps all
    /\ header (decoded scan_gap) = Some h
    /\ getitem h "range_cnt" = VInt 2.
Proof.
  assert (Hn : "scan.raw" <> "") by discriminate.
  assert (H : BrukerData_init (one_file "scan.raw" scan_gap) (Some "scan.raw")
              = Ok (decoded scan_gap)) by (vm_compute; reflexivity).
  destruct (C5_zero_step_ranges_are_dropped _ _ _ Hn H)
    as (content & hdr & declared & all & h & Hf & Hm & Hc & Hd & Hl & Hr & Hh & Hcnt).
  assert (content = scan_gap) by (cbv [one_file String.eqb Ascii.eqb Bool.eqb] in Hf; congruence).
  subst content.
  assert (Hhdr : get_metta scan_gap BrukerHeader 0 = Ok hdr -> getitem hdr "range_cnt" = VInt 3).
  { clear. intros Hm. 
    assert (E : exists h0, get_metta scan_gap BrukerHeader 0 = Ok h0
                           /\ getitem h0 "range_cnt" = VInt 3)
      by (eexists; split; [ vm_compute; reflexivity | reflexivity ]).
    destruct E as (h0 & E1 & E2). congruence. }
  assert (declared = 3) by (specialize (Hhdr Hm); congruence). subst declared.
  assert (Hlen : length (rngs (decoded scan_gap)) = 2%nat) by (vm_compute; reflexivity).
  exists scan_gap, hdr, all, h.
  split; [ exact Hm | ]. split; [ exact Hc | ]. split; [ exact Hd | ].
  split; [ exact Hlen | ]. split; [ exact Hr | ]. split; [ exact Hh | ].
  rewrite Hcnt. f_equal.
  assert (Hp : forall l : list BrukerRange,
             (length (List.filter has_steps l) + length (List.filter no_steps l)
              = length l)%nat).
  { clear. induction l as [| r l IH]; simpl; [ reflexivity | ].
    unfold no_steps at 1. destruct (has_steps r); simpl; lia. }
  specialize (Hp all). rewrite <- Hr, Hlen, Hl in Hp.
  change (Z.to_nat 3) with 3%nat in Hp. lia.
Defined.

(** ** Datasets without a range *)

(** C10: when the range loop retains no range (no range is declared, or every
    declared range has [steps == 0]) the construction does not return a
    dataset: [self.rngs[0]] raises IndexError; and every dataset the
    construction returns from a file has at least one range. *)
Theorem C10_no_dataset_without_a_range fs name :
  name <> "" ->
  (forall content hdr cnt hdr',
      get_data_from_file fs name = Ok content ->
      get_metta content BrukerHeader 0 = Ok hdr ->
      getitem hdr "range_cnt" = VInt cnt ->
      init_ranges content (Z.to_nat cnt) 712 hdr [] = Ok (hdr', []) ->
      BrukerData_init fs (Some name) = Err IndexError)
  /\ (forall d, BrukerData_init fs (Some name) = Ok d -> rngs d <> []).
Proof.
  intros Hn. split.
  - intros content hdr cnt hdr' Hf Hm Hc Hi.
    unfold BrukerData_init. destruct name as [| c name]; [ congruence | ].
    rewrite Hf. simpl. rewrite Hm. simpl. rewrite Hc. simpl. rewrite Hi.
    reflexivity.
  - intros d H.
    destruct (BrukerData_init_ok _ _ _ Hn H)
      as (content & hdr & cnt & hdr' & rng0 & rngs' & _ & _ & _ & _ & Hr & _).
    rewrite Hr. discriminate.
Qed.

(** A file that declares no range, a file whose only range has no step, and
    the scan of 5 steps. *)
Lemma C10_witness :
  BrukerData_init (one_file "scan.raw" scan_none) (Some "scan.raw") = Err IndexError
  /\ BrukerData_init (one_file "scan.raw" scan_empty) (Some "scan.raw") = Err IndexError
  /\ rngs (decoded scan_1d) <> [].
Proof.
  assert (Hn : "scan.raw" <> "") by discriminate.
  split; [ | split ].
  - eapply (proj1 (C10_no_dataset_without_a_range (one_file "scan.raw" scan_none)
                     "scan.raw" Hn)) with (cnt := 0);
      [ reflexivity | vm_compute; reflexivity | reflexivity | vm_compute; reflexivity ].
  - eapply (proj1 (C10_no_dataset_without_a_range (one_file "scan.raw" scan_empty)
                     "scan.raw" Hn)) with (cnt := 1);
      [ reflexivity | vm_compute; reflexivity | reflexivity | vm_compute; reflexivity ].
  - apply (proj2 (C10_no_dataset_without_a_range (one_file "scan.raw" scan_1d)
                    "scan.raw" Hn)).
    vm_compute. reflexivity.
Defined.

(** ** Coordinate lookup on a single-element axis *)

(** C8: on an axis with exactly one element, a query strictly greater than
    that element resolves to index 1, and the axis has no element at
    index 1. *)
Theorem C8_single_element_axis_index_1 (a0 v : float) :
  (a0 <? v)%float = true ->
  nearest_index (NdArray [a0]) v = Ok 1
  /\ nth_error [a0] (Z.to_nat 1) = None
  /\ forall self q out,
       (x self = NdArray [a0] -> get_index_xy self v q = Ok out -> fst out = 1)
       /\ (y self = NdArray [a0] -> get_index_xy self q v = Ok out -> snd out = 1).
Proof.
  intros H.
  assert (E : nearest_index (NdArray [a0]) v = Ok 1).
  { unfold nearest_index, argmin. simpl. rewrite H. reflexivity. }
  split; [ exact E | ]. split; [ reflexivity | ].
  intros self q out. unfold get_index_xy. split; intros Hx Hg.
  - bind_inv Hg. rewrite Hx, E in Hg. simpl in Hg. injection Hg as <-. reflexivity.
  - rewrite Hx, E in Hg. simpl in Hg. bind_inv Hg. injection Hg as <-. reflexivity.
Qed.

(** The tilt axis [180.0] queried with 181.0. *)
Lemma C8_witness :
  nearest_index (NdArray [180]%float) 181%float = Ok 1
  /\ nth_error [180%float] (Z.to_nat 1) = None.
Proof.
  destruct (C8_single_element_axis_index_1 180%float 181%float eq_refl) as (H1 & H2 & _).
  split; [ exact H1 | exact H2 ].
Defined.

(** ** Concatenation of two datasets *)

(** [np.array_equal] holds exactly for axes of one length whose entries are
    pairwise [==]. *)
Lemma all_eqb_spec (a b : list float) :
  all_eqb a b = true <->
  length a = length b
  /\ forall i u v, nth_error a i = Some u -> nth_error b i = Some v ->
                   (u =? v)%float = true.
Proof.
  revert b. induction a as [| u a IH]; intros [| v b]; simpl.
  - split; [ intros _; split; [ reflexivity | intros [| i]; discriminate ] | reflexivity ].
  - split; [ discriminate | intros [H _]; discriminate ].
  - split; [ discriminate | intros [H _]; discriminate ].
  - rewrite andb_true_iff, IH. split.
    + intros [Huv [Hl Hn]]. split; [ now rewrite Hl | ].
      intros [| i] u' v' Hu Hv; simpl in Hu, Hv.
      * injection Hu as <-. injection Hv as <-. exact Huv.
      * eapply Hn; eauto.
    + intros [Hl Hn]. split; [ apply (Hn 0%nat); reflexivity | ].
      split; [ now injection Hl | ].
      intros i u' v' Hu Hv. apply (Hn (S i)); assumption.
Qed.

Lemma hstack_length (a b : list (list Z)) :
  length a = length b -> length (hstack a b) = length a.
Proof.
  revert b. induction a as [| r a IH]; intros [| s b] H; simpl in *;
    try reflexivity; try discriminate.
  f_equal. apply IH. now injection H.
Qed.

(** Row [i] of the stacked matrix is row [i] of the left one followed by
    row [i] of the right one. *)
Lemma hstack_row (a b : list (list Z)) (i : nat) (r s : list Z) :
  nth_error a i = Some r -> nth_error b i = Some s ->
  nth_error (hstack a b) i = Some (r ++ s).
Proof.
  revert b i. induction a as [| r0 a IH]; intros [| s0 b] [| i] Ha Hb;
    simpl in *; try discriminate.
  - injection Ha as <-. injection Hb as <-. reflexivity.
  - apply IH; assumption.
Qed.

(** C6: the sum of two datasets fails with the exception of [__add__] when
    their tilt axes are not element-wise equal.  When it succeeds, the tilt
    axes have one length and are pairwise equal, the result's angular axis is
    the left axis followed by the right one (its length is the sum of the two
    lengths), its tilt axis is the left operand's, its range list is the left
    list followed by the right one, and its matrix has the rows of the left
    matrix each followed by the same row of the right matrix (so each row has
    as many columns as the two rows together). *)
Theorem C6_add_concatenates (a b : BrukerData) :
  (array_equal (y a) (y b) = false -> BrukerData_add a b = Err AxisMismatch)
  /\ forall r,
      BrukerData_add a b = Ok r ->
      (length (axis_values (y a)) = length (axis_values (y b))
       /\ forall i u v, nth_error (axis_values (y a)) i = Some u ->
                        nth_error (axis_values (y b)) i = Some v ->
                        (u =? v)%float = true)
      /\ x r = NdArray (axis_values (x a) ++ axis_values (x b))
      /\ length (axis_values (x r))
         = (length (axis_values (x a)) + length (axis_values (x b)))%nat
      /\ y r = y a
      /\ rngs r = rngs a ++ rngs b
      /\ exists ma mb m,
           smap a = Some ma /\ smap b = Some mb /\ smap r = Some m
           /\ length ma = length mb /\ length m = length ma
           /\ forall i ra rb,
                nth_error ma i = Some ra -> nth_error mb i = Some rb ->
                nth_error m i = Some (ra ++ rb)
                /\ length (ra ++ rb) = (length ra + length rb)%nat.
Proof.
  unfold BrukerData_add. split.
  - intros H. rewrite H. reflexivity.
  - intros r H.
    destruct (array_equal (y a) (y b)) eqn:E; simpl in H; [ | discriminate ].
    bind_as H m Hm. bind_as H name Hname. injection H as <-. simpl.
    split; [ apply all_eqb_spec; exact E | ].
    split; [ reflexivity | ].
    split; [ apply length_app | ].
    split; [ reflexivity | ].
    split; [ reflexivity | ].
    unfold concatenate_cols in Hm.
    destruct (smap a) as [ma |]; [ | discriminate ].
    destruct (smap b) as [mb |]; [ | discriminate ].
    destruct (Nat.eqb (length ma) (length mb)) eqn:El; [ | discriminate ].
    apply Nat.eqb_eq in El. injection Hm as <-.
    exists ma, mb, (hstack ma mb).
    repeat (split; [ reflexivity | ]).
    split; [ exact El | ].
    split; [ apply hstack_length; exact El | ].
    intros i ra rb Hra Hrb. split; [ apply hstack_row; assumption | apply length_app ].
Qed.

(** The area map of two ranges added to itself: 10 angular values, the tilt
    axis kept, 4 ranges and rows of 10 columns; and the scan of 5 steps, whose
    intensity list is not the tilt axis of the map, refused. *)
Lemma C6_witness :
  BrukerData_add (decoded scan_1d) (decoded map_2d) = Err AxisMismatch
  /\ exists r,
       BrukerData_add (decoded map_2d) (decoded map_2d) = Ok r
       /\ length (axis_values (x r)) = 10%nat
       /\ y r = NdArray [170; 180]%float
       /\ length (rngs r) = 4%nat
       /\ smap r = Some [[1; 2; 3; 0; 0; 1; 2; 3; 0; 0]; [1; 2; 3; 4; 5; 1; 2; 3; 4; 5]].
Proof.
  split.
  - apply (proj1 (C6_add_concatenates (decoded scan_1d) (decoded map_2d))).
    vm_compute. reflexivity.
  - pose (r := match BrukerData_add (decoded map_2d) (decoded map_2d) with
                | Ok r => r
                | Err _ => decoded map_2d
                end).
    assert (E : BrukerData_add (decoded map_2d) (decoded map_2d) = Ok r)
      by (vm_compute; reflexivity).
    exists r. split; [ exact E | ].
    destruct (proj2 (C6_add_concatenates (decoded map_2d) (decoded map_2d)) r E)
      as (_ & Hx & Hl & Hy & Hr & _).
    split; [ rewrite Hl; vm_compute; reflexivity | ].
    split; [ rewrite Hy; vm_compute; reflexivity | ].
    split; [ rewrite Hr; vm_compute; reflexivity | ].
    vm_compute. reflexivity.
Defined.

(** ** Where the signature error can come from *)

Lemma no_invalid_ok {A} (a : A) : no_invalid (Ok a).
Proof. discriminate. Qed.

Lemma no_invalid_bind {A B} (r : result A) (k : A -> result B) :
  no_invalid r -> (forall a, no_invalid (k a)) -> no_invalid (bind r k).
Proof.
  unfold no_invalid. intros Hr Hk H. apply bind_err in H.
  destruct H as [H | (a & _ & H)]; [ now apply Hr | now apply (Hk a) ].
Qed.

Create HintDb ni discriminated.

(** Walks through binds, matches and conditionals; the leaves are results
    that are not the signature error, or calls covered by the hint base. *)
Ltac ni_step :=
  match goal with
  | |- no_invalid (Ok _) => apply no_invalid_ok
  | |- no_invalid (Err _) => discriminate
  | |- no_invalid (bind _ _) => apply no_invalid_bind; [ | intros ? ]
  | |- no_invalid (match ?u with _ => _ end) => destruct u
  | |- no_invalid (let (_, _) := ?u in _) => destruct u
  | |- no_invalid _ => solve [ auto with ni ]
  end.

Ltac ni := repeat ni_step.

Lemma ni_struct_unpack t b : no_invalid (struct_unpack t b).
Proof. unfold struct_unpack. ni. Qed.
#[local] Hint Resolve ni_struct_unpack : ni.

Lemma ni__unpack fc p t bits : no_invalid (_unpack fc p t bits).
Proof. unfold _unpack. ni. Qed.
#[local] Hint Resolve ni__unpack : ni.

Lemma ni_field_bits m t p : no_invalid (field_bits m t p).
Proof. unfold field_bits, var_bits, int_of_float. ni. Qed.
#[local] Hint Resolve ni_field_bits : ni.

Lemma ni_pos m key : no_invalid (pos m key).
Proof. unfold pos. ni. Qed.
#[local] Hint Resolve ni_pos : ni.

Lemma ni_get_metta_keys fc start keys : forall m, no_invalid (get_metta_keys fc start keys m).
Proof.
  induction keys as [| key keys IH]; intros m; simpl; [ ni | ].
  unfold get_metta_key. ni.
Qed.
#[local] Hint Resolve ni_get_metta_keys : ni.

Lemma ni_positions a : no_invalid (positions a).
Proof. induction a as [| [k f] a IH]; simpl; ni. Qed.
#[local] Hint Resolve ni_positions : ni.

Lemma ni_get_metta fc m start : no_invalid (get_metta fc m start).
Proof. unfold get_metta, sorted_keys. ni. Qed.
#[local] Hint Resolve ni_get_metta : ni.

Lemma ni_as_int v : no_invalid (as_int v).
Proof. unfold as_int. ni. Qed.

Lemma ni_as_float v : no_invalid (as_float v).
Proof. unfold as_float. ni. Qed.

Lemma ni_sup_getitem s key : no_invalid (sup_getitem s key).
Proof. unfold sup_getitem. ni. Qed.

Lemma ni_BrukerSupp tag : no_invalid (BrukerSupp tag).
Proof. unfold BrukerSupp. ni. Qed.
#[local] Hint Resolve ni_as_int ni_as_float ni_sup_getitem ni_BrukerSupp : ni.

Lemma ni_read_counts fc p n : forall i, no_invalid (read_counts fc p n i).
Proof. induction n as [| n IH]; intros i; simpl; ni. Qed.
#[local] Hint Resolve ni_read_counts : ni.

Lemma ni_get_range fc p : no_invalid (get_range fc p).
Proof. unfold get_range. ni. Qed.
#[local] Hint Resolve ni_get_range : ni.

Lemma ni_init_ranges fc n : forall p header rngs, no_invalid (init_ranges fc n p header rngs).
Proof. induction n as [| n IH]; intros p header rngs; simpl; ni. Qed.
#[local] Hint Resolve ni_init_ranges : ni.

Lemma ni_linspace a b n : no_invalid (linspace a b n).
Proof. unfold linspace. ni. Qed.

Lemma ni_tilts rngs : no_invalid (tilts rngs).
Proof. induction rngs as [| r rngs IH]; simpl; [ ni | ]. unfold tilt. ni. Qed.
#[local] Hint Resolve ni_linspace ni_tilts : ni.

Lemma ni_twoth_axis rng n : no_invalid (twoth_axis rng n).
Proof. unfold twoth_axis. ni. Qed.
#[local] Hint Resolve ni_twoth_axis : ni.

Lemma ni_get_smap rngs : no_invalid (get_smap rngs).
Proof. unfold get_smap, max_len, masked_assign, argmax, py_min, py_max. ni. Qed.
#[local] Hint Resolve ni_get_smap : ni.

(** C2 (as amended): decoding a file fails with the signature error exactly
    when the 7 bytes [RAW1.01] do not occur in the first 8 bytes of the
    buffer; no later step raises that error. *)
Theorem C2_signature_is_contained fs name content :
  name <> "" ->
  fs name = Some content ->
  BrukerData_init fs (Some name) = Err InvalidFormat
  <-> bytes_in RAW1_01 (slice content 0 8) = false.
Proof.
  intros Hn Hf. unfold BrukerData_init.
  destruct name as [| c name]; [ congruence | ].
  unfold get_data_from_file. rewrite Hf. fold RAW1_01.
  destruct (bytes_in RAW1_01 (slice content 0 8)); simpl.
  - split; [ | discriminate ]. intros H. exfalso. revert H.
    change (no_invalid
      (do header <- get_metta content BrukerHeader 0;
       do range_cnt <- as_int (getitem header "range_cnt");
       do hr <- init_ranges content (Z.to_nat range_cnt) 712 header [];
       do rng0 <- match snd hr with r :: _ => Ok r | [] => Err IndexError end;
       do tag <- sup_getitem (supmetta rng0) "type";
       if eq_int tag 200 then
         do xys <- get_smap (snd hr);
         Ok (mkData (Some (String c name)) (Some (fst hr)) (snd hr)
               (NdArray (fst (fst xys))) (NdArray (snd (fst xys))) (Some (snd xys)))
       else
         do x <- twoth_axis rng0 (Z.of_nat (length (counts_data rng0)));
         Ok (mkData (Some (String c name)) (Some (fst hr)) (snd hr) (NdArray x)
               (PyList (counts_data rng0)) None))).
    ni.
  - split; reflexivity.
Qed.

(** The scan with the version bytes [RAW1.00] is refused with the signature
    error. *)
Lemma C2_witness :
  BrukerData_init (one_file "scan.raw" scan_v100) (Some "scan.raw") = Err InvalidFormat.
Proof.
  apply (proj2 (C2_signature_is_contained (one_file "scan.raw" scan_v100)
                  "scan.raw" scan_v100 ltac:(discriminate) eq_refl)).
  vm_compute. reflexivity.
Defined.

(** C2 (the claim as stated fails): no 8-byte signature exists such that the
    buffers rejected with the signature error are exactly those whose first 8
    bytes differ from it.  The scan of 5 steps decodes both with the first
    bytes [RAW1.01\0] and with the first bytes [XRAW1.01]. *)
Lemma C2_no_eight_byte_signature :
  ~ exists sig : bytes,
      forall content,
        BrukerData_init (one_file "scan.raw" content) (Some "scan.raw")
        = Err InvalidFormat
        <-> slice content 0 8 <> sig.
Proof.
  intros [sig H].
  assert (D1 : BrukerData_init (one_file "scan.raw" scan_1d) (Some "scan.raw")
               <> Err InvalidFormat) by (vm_compute; discriminate).
  assert (D2 : BrukerData_init (one_file "scan.raw" scan_shifted) (Some "scan.raw")
               <> Err InvalidFormat) by (vm_compute; discriminate).
  assert (H1 : slice scan_1d 0 8 = sig).
  { destruct (List.list_eq_dec Byte.byte_eq_dec (slice scan_1d 0 8) sig) as [E | E];
      [ exact E | ].
    apply (H scan_1d) in E. destruct (D1 E). }
  assert (H2 : slice scan_shifted 0 8 = sig).
  { destruct (List.list_eq_dec Byte.byte_eq_dec (slice scan_shifted 0 8) sig) as [E | E];
      [ exact E | ].
    apply (H scan_shifted) in E. destruct (D2 E). }
  assert (D : slice scan_1d 0 8 <> slice scan_shifted 0 8) by (vm_compute; discriminate).
  exact (D (eq_trans H1 (eq_sym H2))).
Qed.

(** ** Rounding in the specification of binary64

    The lookup subtracts and compares floats; the facts it needs about
    [SFsub] are derived here from the definitions of [SpecFloat]. *)

(** A positive number has at least [2 ^ (digits - 1)]. *)
Lemma digits2_pos_lower (p : positive) :
  2 ^ (Z.pos (digits2_pos p) - 1) <= Z.pos p.
Proof.
  induction p as [p IH | p IH |]; simpl digits2_pos.
  - rewrite Pos2Z.inj_succ.
    replace (Z.succ (Z.pos (digits2_pos p)) - 1) with (Z.succ (Z.pos (digits2_pos p) - 1)) by lia.
    rewrite Z.pow_succ_r by lia. lia.
  - rewrite Pos2Z.inj_succ.
    replace (Z.succ (Z.pos (digits2_pos p)) - 1) with (Z.succ (Z.pos (digits2_pos p) - 1)) by lia.
    rewrite Z.pow_succ_r by lia. lia.
  - simpl. lia.
Qed.

Lemma digits2_pos_shift (m d : positive) :
  Z.pos (digits2_pos (Pos.iter xO m d)) = Z.pos (digits2_pos m) + Z.pos d.
Proof.
  induction d as [| d IH] using Pos.peano_ind.
  - simpl. lia.
  - rewrite Pos.iter_succ. simpl digits2_pos. rewrite Pos2Z.inj_succ, IH. lia.
Qed.

Lemma shr_1_div2 (r : shr_record) :
  0 <= shr_m r -> shr_m (shr_1 r) = shr_m r / 2 /\ 0 <= shr_m (shr_1 r).
Proof.
  destruct r as [m r s]. simpl. intros H.
  destruct m as [| p | p]; [ | | lia ].
  - simpl. split; [ reflexivity | lia ].
  - destruct p as [p | p |]; simpl shr_m.
    + rewrite Pos2Z.inj_xI. split; [ | lia ].
      apply Z.div_unique with 1; lia.
    + rewrite Pos2Z.inj_xO. split; [ | lia ].
      apply Z.div_unique with 0; lia.
    + split; [ reflexivity | lia ].
Qed.

Lemma iter_pos_nat {A} (f : A -> A) (n : positive) :
  forall x, SpecFloat.iter_pos f n x = Nat.iter (Pos.to_nat n) f x.
Proof.
  induction n as [n IH | n IH |]; intros x; simpl SpecFloat.iter_pos.
  - rewrite !IH, Pos2Nat.inj_xI.
    replace (S (2 * Pos.to_nat n))%nat with (Pos.to_nat n + S (Pos.to_nat n))%nat by lia.
    rewrite Nat.iter_add. f_equal. now rewrite Nat.iter_succ_r.
  - rewrite !IH, Pos2Nat.inj_xO.
    replace (2 * Pos.to_nat n)%nat with (Pos.to_nat n + Pos.to_nat n)%nat by lia.
    now rewrite Nat.iter_add.
  - reflexivity.
Qed.

Lemma shr_iter_div (n : nat) (r : shr_record) :
  0 <= shr_m r ->
  shr_m (Nat.iter n shr_1 r) = shr_m r / 2 ^ Z.of_nat n
  /\ 0 <= shr_m (Nat.iter n shr_1 r).
Proof.
  intros H. induction n as [| n [IH1 IH2]].
  - simpl. rewrite Z.div_1_r. auto.
  - simpl Nat.iter. destruct (shr_1_div2 _ IH2) as [E1 E2].
    split; [ | exact E2 ].
    rewrite E1, IH1, Nat2Z.inj_succ, Z.pow_succ_r by lia.
    rewrite Z.div_div by lia. f_equal. lia.
Qed.

(** A positive mantissa keeps a positive mantissa through [shr_fexp] when
    the exponent is not below [emin]. *)
Lemma shr_fexp_pos (p : positive) (e : Z) (l : location) :
  -1074 <= e ->
  exists q r s e',
    shr_fexp prec emax (Z.pos p) e l = (Build_shr_record (Z.pos q) r s, e')
    /\ -1074 <= e'.
Proof.
  intros He. unfold shr_fexp, shr.
  set (rec := shr_record_of_loc (Z.pos p) l).
  assert (Hrec : shr_m rec = Z.pos p) by (destruct l as [| []]; reflexivity).
  destruct (fexp prec emax (Zdigits2 (Z.pos p) + e) - e) as [| k | k] eqn:En.
  - destruct rec as [m r s]. simpl in Hrec. subst m.
    exists p, r, s, e. split; [ reflexivity | exact He ].
  - rewrite iter_pos_nat.
    destruct (shr_iter_div (Pos.to_nat k) rec) as [E1 E2]; [ rewrite Hrec; lia | ].
    rewrite Hrec, positive_nat_Z in E1.
    assert (Hk : Z.pos k = Z.pos (digits2_pos p) - 53).
    { unfold fexp, SpecFloat.emin, prec, emax in En. simpl Zdigits2 in En. lia. }
    assert (Hq : 1 <= Z.pos p / 2 ^ Z.pos k).
    { apply Z.div_le_lower_bound; [ apply Z.pow_pos_nonneg; lia | ].
      rewrite Z.mul_1_r. etransitivity; [ | apply digits2_pos_lower ].
      apply Z.pow_le_mono_r; lia. }
    destruct (Nat.iter (Pos.to_nat k) shr_1 rec) as [m r s]. simpl in E1.
    destruct m as [| q | q]; [ lia | | lia ].
    exists q, r, s, (e + Z.pos k). split; [ reflexivity | lia ].
  - destruct rec as [m r s]. simpl in Hrec. subst m.
    exists p, r, s, e. split; [ reflexivity | exact He ].
Qed.

Lemma binary_round_aux_pos sx p e l :
  -1074 <= e -> positive_sf sx (binary_round_aux prec emax sx (Z.pos p) e l).
Proof.
  intros He. unfold binary_round_aux.
  destruct (shr_fexp_pos p e l He) as (q & r & s & e' & E & He'). rewrite E.
  assert (Hr : exists q', round_nearest_even (shr_m (Build_shr_record (Z.pos q) r s))
                 (loc_of_shr_record (Build_shr_record (Z.pos q) r s)) = Z.pos q').
  { simpl shr_m. destruct r, s; simpl;
      try (exists q; reflexivity); try (exists (q + 1)%positive; reflexivity).
    destruct q; try (eexists; reflexivity). }
  destruct Hr as [q' Hr]. rewrite Hr.
  destruct (shr_fexp_pos q' e' loc_Exact He') as (q2 & r2 & s2 & e2 & E2 & _).
  rewrite E2. simpl shr_m.
  destruct (e2 <=? emax - prec); [ left; eauto | right; reflexivity ].
Qed.

Lemma binary_round_pos sx m e :
  -1074 <= e -> positive_sf sx (binary_round prec emax sx m e).
Proof.
  intros He. unfold binary_round, shl_align.
  destruct (fexp prec emax (Z.pos (digits2_pos m) + e) - e) as [| k | k] eqn:En;
    try (apply binary_round_aux_pos; exact He).
  apply binary_round_aux_pos.
  unfold fexp, SpecFloat.emin, prec, emax. lia.
Qed.

Lemma binary_normalize_nonzero z e :
  -1074 <= e -> z <> 0 ->
  exists s, positive_sf s (binary_normalize prec emax z e false).
Proof.
  intros He Hz. destruct z as [| p | p]; [ congruence | | ]; simpl.
  - exists false. now apply binary_round_pos.
  - exists true. now apply binary_round_pos.
Qed.

(** A canonical mantissa has at most 53 digits, and exactly 53 above the
    least exponent. *)
Lemma bounded_emin m e : bounded prec emax m e = true -> -1074 <= e.
Proof.
  unfold bounded, canonical_mantissa, fexp, SpecFloat.emin, prec, emax.
  rewrite andb_true_iff, Z.eqb_eq. lia.
Qed.

Lemma bounded_digits m e :
  bounded prec emax m e = true ->
  Z.pos (digits2_pos m) <= 53 /\ (-1074 < e -> Z.pos (digits2_pos m) = 53).
Proof.
  unfold bounded, canonical_mantissa, fexp, SpecFloat.emin, prec, emax.
  rewrite andb_true_iff, Z.eqb_eq. lia.
Qed.

Lemma shl_align_same m e : shl_align m e e = (m, e).
Proof. unfold shl_align. now rewrite Z.sub_diag. Qed.

Lemma shl_align_lower m e e' :
  e' < e -> exists d, Z.pos d = e - e' /\ shl_align m e e' = (Pos.iter xO m d, e').
Proof.
  intros H. unfold shl_align.
  destruct (e' - e) as [| d | d] eqn:E; try lia.
  exists d. split; [ lia | reflexivity ].
Qed.

(** Two canonical finite floats of one sign whose aligned mantissas agree are
    the same float. *)
Lemma aligned_mantissas_inj mx ex my ey :
  bounded prec emax mx ex = true ->
  bounded prec emax my ey = true ->
  fst (shl_align mx ex (Z.min ex ey)) = fst (shl_align my ey (Z.min ex ey)) ->
  mx = my /\ ex = ey.
Proof.
  intros Bx By H.
  pose proof (bounded_emin _ _ Bx). pose proof (bounded_emin _ _ By).
  destruct (bounded_digits _ _ Bx) as [Dx Dx'].
  destruct (bounded_digits _ _ By) as [Dy Dy'].
  destruct (Z.lt_trichotomy ex ey) as [L | [E | L]].
  - exfalso. rewrite Z.min_l in H by lia. rewrite shl_align_same in H.
    destruct (shl_align_lower my ey ex L) as (d & Hd & E). rewrite E in H.
    simpl in H. pose proof (digits2_pos_shift my d) as S. rewrite <- H in S. lia.
  - subst ey. rewrite Z.min_id, !shl_align_same in H. simpl in H. auto.
  - exfalso. rewrite Z.min_r in H by lia. rewrite shl_align_same in H.
    destruct (shl_align_lower mx ex ey L) as (d & Hd & E). rewrite E in H.
    simpl in H. pose proof (digits2_pos_shift mx d) as S. rewrite H in S. lia.
Qed.

Lemma SFcompare_refl_finite s m e :
  SFcompare (S754_finite s m e) (S754_finite s m e) = Some Eq.
Proof.
  simpl. rewrite Z.compare_refl, Pos.compare_cont_refl. now destruct s.
Qed.

Lemma positive_sf_abs s x : positive_sf s x -> pos_sf (SFabs x).
Proof. intros [(m & e & ->) | ->]; exact I. Qed.

Lemma SFsub_abs x y :
  finite_sf x -> finite_sf y ->
  valid_binary x = true -> valid_binary y = true ->
  (SFeqb x y = true -> zero_sf (SFabs (SF64sub x y)))
  /\ (SFeqb x y = false -> pos_sf (SFabs (SF64sub x y))).
Proof.
  unfold SF64sub, SFeqb, zero_sf.
  destruct x as [sx | sx | | sx mx ex], y as [sy | sy | | sy my ey];
    try contradiction; intros _ _ Vx Vy; simpl valid_binary in Vx, Vy.
  - split; [ | discriminate ]. intros _. now destruct sx, sy.
  - split; [ simpl; destruct sy; discriminate | intros _; exact I ].
  - split; [ simpl; destruct sx; discriminate | intros _; exact I ].
  - set (ez := Z.min ex ey).
    set (z := SpecFloat.cond_Zopp sx (Z.pos (fst (shl_align mx ex ez)))
              - SpecFloat.cond_Zopp sy (Z.pos (fst (shl_align my ey ez)))).
    change (SFsub prec emax (S754_finite sx mx ex) (S754_finite sy my ey))
      with (binary_normalize prec emax z ez false).
    assert (He : -1074 <= ez).
    { pose proof (bounded_emin _ _ Vx). pose proof (bounded_emin _ _ Vy).
      unfold ez. lia. }
    destruct (Z.eq_dec z 0) as [Hz | Hz].
    + assert (E : sx = sy /\ mx = my /\ ex = ey).
      { unfold z in Hz. destruct sx, sy; simpl in Hz; try lia;
          (split; [ reflexivity | ]);
          apply aligned_mantissas_inj; auto; fold ez; lia. }
      destruct E as (-> & -> & ->). rewrite SFcompare_refl_finite.
      split; [ | discriminate ]. intros _. rewrite Hz. reflexivity.
    + destruct (binary_normalize_nonzero z ez He Hz) as [s P].
      split; [ | intros _; eapply positive_sf_abs; exact P ].
      intros E. exfalso.
      assert (E' : sx = sy /\ mx = my /\ ex = ey).
      { revert E. simpl. destruct sx, sy; try discriminate;
          destruct (ex ?= ey) eqn:C; try discriminate;
          apply Z.compare_eq in C; subst ey;
          destruct (Pos.compare_cont Eq mx my) eqn:C'; try discriminate;
          apply Pos.compare_eq in C'; auto. }
      destruct E' as (-> & -> & ->). apply Hz. unfold z. lia.
Qed.

(** ** Finite floats in the primitive operations *)

Lemma is_finite_sf f : is_finite f = true -> finite_sf (Prim2SF f).
Proof.
  unfold is_finite, is_nan, is_infinity. rewrite !FloatAxioms.eqb_spec, abs_spec.
  change (Prim2SF infinity) with (S754_infinity false).
  destruct (Prim2SF f) as [s | s | | s m e]; simpl; try exact (fun _ => I).
  - destruct s; discriminate.
  - discriminate.
Qed.

(** The distance of two finite floats is [+0] when they are equal and a
    positive number or [+inf] when they are not; it is never a NaN. *)
Lemma abs_sub_finite u v :
  is_finite u = true -> is_finite v = true ->
  ((u =? v)%float = true -> is_zero_dist (abs (u - v)))
  /\ ((u =? v)%float = false -> is_pos_dist (abs (u - v))).
Proof.
  intros Hu Hv. unfold is_zero_dist, is_pos_dist.
  rewrite abs_spec, sub_spec, FloatAxioms.eqb_spec.
  apply SFsub_abs; auto using is_finite_sf, Prim2SF_valid.
Qed.

Lemma eqb_refl_finite v : is_finite v = true -> (v =? v)%float = true.
Proof.
  intros H. apply is_finite_sf in H. rewrite FloatAxioms.eqb_spec. unfold SFeqb.
  destruct (Prim2SF v) as [s | s | | s m e]; try contradiction.
  - reflexivity.
  - now rewrite SFcompare_refl_finite.
Qed.

Lemma eqb_not_ltb u v : (u =? v)%float = true -> (u <? v)%float = false.
Proof.
  rewrite FloatAxioms.eqb_spec, FloatAxioms.ltb_spec. unfold SFeqb, SFltb.
  destruct (SFcompare (Prim2SF u) (Prim2SF v)) as [[] |]; congruence.
Qed.

Lemma leb_pos_zero mp z :
  is_pos_dist mp -> is_zero_dist z -> (mp <=? z)%float = false.
Proof.
  unfold is_pos_dist, is_zero_dist, zero_sf. rewrite FloatAxioms.leb_spec. intros P ->.
  destruct (Prim2SF mp) as [s | [] | | [] m e]; try contradiction; reflexivity.
Qed.

Lemma leb_zero_dist z d :
  is_zero_dist z -> is_dist d -> (z <=? d)%float = true.
Proof.
  unfold is_zero_dist, is_dist, nonneg_sf, zero_sf. rewrite FloatAxioms.leb_spec.
  intros -> [-> | P]; [ reflexivity | ].
  destruct (Prim2SF d) as [s | [] | | [] m e]; try contradiction; reflexivity.
Qed.

Lemma dist_not_nan d : is_dist d -> PrimFloat.is_nan d = false.
Proof.
  unfold is_dist, nonneg_sf, zero_sf, PrimFloat.is_nan. rewrite FloatAxioms.eqb_spec.
  unfold SFeqb. intros [-> | P]; [ reflexivity | ].
  destruct (Prim2SF d) as [s | [] | | [] m e]; try contradiction.
  - reflexivity.
  - now rewrite SFcompare_refl_finite.
Qed.

Lemma pos_dist_is_dist d : is_pos_dist d -> is_dist d.
Proof. intros H. right. exact H. Qed.

Lemma zero_dist_is_dist d : is_zero_dist d -> is_dist d.
Proof. intros H. left. exact H. Qed.

(** ** The scan of [argmin] *)

(** Once the minimum is [+0] no later distance replaces it. *)
Lemma argmin_from_zero l :
  forall i best z,
    is_zero_dist z -> Forall is_dist l -> argmin_from l i best z = best.
Proof.
  induction l as [| d l IH]; intros i best z Hz Hl; simpl; [ reflexivity | ].
  inversion Hl as [| ? ? Hd Hl']; subst.
  rewrite (leb_zero_dist z d Hz Hd). simpl. now apply IH.
Qed.

(** Over positive distances followed by a [+0] the scan stops at the [+0]. *)
Lemma argmin_from_first_zero l1 :
  forall i best mp z l2,
    is_pos_dist mp -> Forall is_pos_dist l1 -> is_zero_dist z -> Forall is_dist l2 ->
    argmin_from (l1 ++ z :: l2) i best mp = (i + length l1)%nat.
Proof.
  induction l1 as [| d l1 IH]; intros i best mp z l2 Hmp H1 Hz H2; simpl.
  - rewrite (leb_pos_zero mp z Hmp Hz). simpl.
    rewrite (dist_not_nan z (zero_dist_is_dist z Hz)).
    rewrite argmin_from_zero by assumption. lia.
  - inversion H1 as [| ? ? Hd H1']; subst.
    destruct (mp <=? d)%float; simpl.
    + rewrite IH by assumption. lia.
    + rewrite (dist_not_nan d (pos_dist_is_dist d Hd)).
      rewrite IH by assumption. lia.
Qed.

Lemma argmin_first_zero l1 z l2 :
  Forall is_pos_dist l1 -> is_zero_dist z -> Forall is_dist l2 ->
  argmin (l1 ++ z :: l2) = Ok (length l1).
Proof.
  intros H1 Hz H2. destruct l1 as [| d l1]; simpl.
  - rewrite (dist_not_nan z (zero_dist_is_dist z Hz)).
    now rewrite argmin_from_zero.
  - inversion H1 as [| ? ? Hd H1']; subst.
    rewrite (dist_not_nan d (pos_dist_is_dist d Hd)).
    now rewrite argmin_from_first_zero.
Qed.

Lemma Forall_nth_error {A} (P : A -> Prop) (l : list A) :
  (forall k w, nth_error l k = Some w -> P w) -> Forall P l.
Proof.
  induction l as [| a l IH]; intros H; constructor.
  - apply (H 0%nat). reflexivity.
  - apply IH. intros k w Hk. apply (H (S k)). exact Hk.
Qed.

(** On an axis of finite values a finite query resolves to the first index
    whose entry equals it. *)
Lemma nearest_index_first_equal (l : list float) (j : nat) (u v : float) :
  Forall (fun e => is_finite e = true) l ->
  is_finite v = true ->
  nth_error l j = Some u ->
  (u =? v)%float = true ->
  (forall k w, (k < j)%nat -> nth_error l k = Some w -> (w =? v)%float = false) ->
  nearest_index (NdArray l) v = Ok (Z.of_nat j).
Proof.
  intros Hl Hv Hj Huv Hbefore.
  destruct (List.nth_error_split l j Hj) as (l1 & l2 & -> & Hlen).
  apply List.Forall_app in Hl. destruct Hl as [Hl1 Hl2].
  inversion Hl2 as [| ? ? Hu Hl2']; subst.
  assert (H1 : Forall is_pos_dist (map (fun e => abs (e - v))%float l1)).
  { apply List.Forall_map. apply Forall_nth_error. intros k w Hk.
    assert (Hkl : (k < length l1)%nat) by (apply List.nth_error_Some; congruence).
    assert (Hw : is_finite w = true).
    { clear - Hl1 Hk. revert k Hk. induction Hl1 as [| a l1 Ha Hl1 IH]; intros [| k] Hk;
        simpl in Hk; try discriminate.
      - now injection Hk as <-.
      - eapply IH; eauto. }
    apply (abs_sub_finite w v Hw Hv). apply (Hbefore k w Hkl).
    rewrite List.nth_error_app1 by exact Hkl. exact Hk. }
  assert (H2 : Forall is_dist (map (fun e => abs (e - v))%float l2)).
  { apply List.Forall_map. clear - Hl2' Hv.
    induction Hl2' as [| a l2 Ha Hl2 IH]; constructor; [ | exact IH ].
    destruct (abs_sub_finite a v Ha Hv) as [Hz Hp].
    destruct (a =? v)%float; [ left; now apply Hz | right; now apply Hp ]. }
  assert (Hz : is_zero_dist (abs (u - v))) by now apply (abs_sub_finite u v Hu Hv).
  unfold nearest_index. rewrite List.map_app. simpl map.
  rewrite (argmin_first_zero _ _ _ H1 Hz H2), length_map. simpl.
  destruct l1 as [| a l1]; simpl.
  - destruct l2; [ now rewrite (eqb_not_ltb u v Huv) | reflexivity ].
  - destruct l1; reflexivity.
Qed.

(** ** Looking up a stored coordinate *)

(** C7 (as amended): on axes whose entries are all finite, looking up the
    exact values stored at angular index [i] and tilt index [j] returns
    [(i, j)] whenever no earlier entry of either axis equals the value
    looked up; among equal entries the first one is the one returned. *)
Theorem C7_lookup_of_stored_value (self : BrukerData) (lx ly : list float)
  (i j : nat) (vx vy : float) :
  x self = NdArray lx ->
  y self = NdArray ly ->
  Forall (fun e => is_finite e = true) lx ->
  Forall (fun e => is_finite e = true) ly ->
  nth_error lx i = Some vx ->
  nth_error ly j = Some vy ->
  (forall k w, (k < i)%nat -> nth_error lx k = Some w -> (w =? vx)%float = false) ->
  (forall k w, (k < j)%nat -> nth_error ly k = Some w -> (w =? vy)%float = false) ->
  get_index_xy self vx vy = Ok (Z.of_nat i, Z.of_nat j).
Proof.
  intros Hx Hy Fx Fy Hi Hj Bi Bj.
  assert (Hvx : is_finite vx = true).
  { clear - Fx Hi. revert i Hi. induction Fx as [| a l Ha Hl IH]; intros [| i] Hi;
      simpl in Hi; try discriminate; [ now injection Hi as <- | eauto ]. }
  assert (Hvy : is_finite vy = true).
  { clear - Fy Hj. revert j Hj. induction Fy as [| a l Ha Hl IH]; intros [| j] Hj;
      simpl in Hj; try discriminate; [ now injection Hj as <- | eauto ]. }
  unfold get_index_xy. rewrite Hx, Hy.
  rewrite (nearest_index_first_equal ly j vy vy Fy Hvy Hj (eqb_refl_finite vy Hvy) Bj).
  rewrite (nearest_index_first_equal lx i vx vx Fx Hvx Hi (eqb_refl_finite vx Hvx) Bi).
  reflexivity.
Qed.

(** The area map of two ranges: the angle 12.5 stored at index 2 and the
    tilt 180.0 stored at index 1. *)
Lemma C7_witness :
  x (decoded map_2d) = NdArray [10; 11.25; 12.5; 13.75; 15]%float
  /\ y (decoded map_2d) = NdArray [170; 180]%float
  /\ get_index_xy (decoded map_2d) 12.5%float 180%float = Ok (2, 1).
Proof.
  assert (Hx : x (decoded map_2d) = NdArray [10; 11.25; 12.5; 13.75; 15]%float)
    by (vm_compute; reflexivity).
  assert (Hy : y (decoded map_2d) = NdArray [170; 180]%float)
    by (vm_compute; reflexivity).
  split; [ exact Hx | split; [ exact Hy | ] ].
  apply (C7_lookup_of_stored_value (decoded map_2d) _ _ 2 1 _ _ Hx Hy).
  - repeat constructor.
  - repeat constructor.
  - reflexivity.
  - reflexivity.
  - intros [| [| k]] w Hk E; simpl in E; try lia; injection E as <-; reflexivity.
  - intros [| k] w Hk E; simpl in E; try lia; injection E as <-; reflexivity.
Defined.

(** C7 (the claim as stated fails): the area file whose two ranges were taken
    at the same tilt decodes to the tilt axis [180.0, 180.0]; looking up the
    value stored at tilt index 1 returns index 0. *)
Lemma C7_equal_entries_resolve_to_the_first :
  ~ (forall (self : BrukerData) (lx ly : list float) (i j : nat) (vx vy : float),
        x self = NdArray lx ->
        y self = NdArray ly ->
        nth_error lx i = Some vx ->
        nth_error ly j = Some vy ->
        get_index_xy self vx vy = Ok (Z.of_nat i, Z.of_nat j)).
Proof.
  intros H.
  assert (Hx : x (decoded map_flat) = NdArray [10; 12]%float) by (vm_compute; reflexivity).
  assert (Hy : y (decoded map_flat) = NdArray [180; 180]%float) by (vm_compute; reflexivity).
  specialize (H (decoded map_flat) _ _ 0%nat 1%nat 10%float 180%float Hx Hy eq_refl eq_refl).
  assert (E : get_index_xy (decoded map_flat) 10%float 180%float = Ok (0, 0))
    by (vm_compute; reflexivity).
  rewrite E in H. clear - H. discriminate H.
Qed.

(** ** The shape of the assembled matrix *)

(** No length exceeds the maximum. *)
Lemma max_len_bound (lens : list Z) (w : Z) :
  max_len lens = Ok w -> Forall (fun l => l <= w) lens.
Proof.
  destruct lens as [| a lens]; simpl; [ discriminate | ].
  intros H. injection H as <-.
  assert (G : forall l b, b <= fold_left Z.max l b
                          /\ Forall (fun v => v <= fold_left Z.max l b) l).
  { induction l as [| c l IH]; intros b; simpl; [ split; [ lia | constructor ] | ].
    destruct (IH (Z.max b c)) as [H1 H2].
    split; [ lia | ]. constructor; [ lia | exact H2 ]. }
  destruct (G lens a) as [H1 H2]. constructor; assumption.
Qed.

(** One row of [out[mask] = values]: from column [s] on, the row of a range
    of length [l] takes the values still due to it and keeps its zeros. *)
Lemma assign_row_padded (l : Z) (n : nat) :
  forall (s : nat) (vals rest : list Z),
    length vals = Z.to_nat (l - Z.of_nat s) ->
    (length vals <= n)%nat ->
    let mask := map (fun j => j <? l) (map Z.of_nat (seq s n)) in
    assign_row (map (fun _ : bool => 0) mask) mask (vals ++ rest)
    = (vals ++ repeat 0 (n - length vals), rest).
Proof.
  induction n as [| n IH]; intros s vals rest Hl Hn; simpl.
  - destruct vals; [ reflexivity | simpl in Hn; lia ].
  - destruct vals as [| v vals]; simpl in *.
    + assert (E : (Z.of_nat s <? l) = false) by (apply Z.ltb_ge; lia).
      rewrite E.
      specialize (IH (S s) [] rest). simpl in IH. rewrite IH by lia.
      now rewrite Nat.sub_0_r.
    + assert (E : (Z.of_nat s <? l) = true) by (apply Z.ltb_lt; lia).
      rewrite E. rewrite (IH (S s) vals rest) by lia. reflexivity.
Qed.

Lemma assign_rows_padded (w : Z) (rngs : list BrukerRange) :
  Forall (fun rng => Z.of_nat (length (counts_data rng)) <= w) rngs ->
  let lens := map (fun item : list float => Z.of_nat (length item))
                (map counts_data rngs) in
  assign_rows (full_zero (len_mask lens w)) (len_mask lens w)
    (map int64_of_float (concat (map counts_data rngs)))
  = map (padded_row w) rngs.
Proof.
  intros H. induction H as [| rng rngs Hr Hrs IH]; simpl; [ reflexivity | ].
  rewrite map_app. unfold arange.
  rewrite (assign_row_padded _ (Z.to_nat w) 0%nat); rewrite ?length_map; try lia.
  f_equal. exact IH.
Qed.

Lemma count_true_row (l : Z) (n : nat) :
  forall s : nat,
    Z.of_nat s <= l <= Z.of_nat (s + n) ->
    length (List.filter (fun b : bool => b)
              (map (fun j => j <? l) (map Z.of_nat (seq s n))))
    = Z.to_nat (l - Z.of_nat s).
Proof.
  induction n as [| n IH]; intros s H; simpl; [ lia | ].
  destruct (Z.of_nat s <? l) eqn:E.
  - apply Z.ltb_lt in E. simpl. rewrite IH by lia. lia.
  - apply Z.ltb_ge in E. clear IH.
    assert (G : forall m t, l <= Z.of_nat t ->
                  List.filter (fun b : bool => b)
                    (map (fun j => j <? l) (map Z.of_nat (seq t m))) = []).
    { induction m as [| m IHm]; intros t Ht; simpl; [ reflexivity | ].
      assert (E' : (Z.of_nat t <? l) = false) by (apply Z.ltb_ge; lia).
      rewrite E'. apply IHm. lia. }
    rewrite G by lia. simpl. lia.
Qed.

Lemma count_true_len_mask (w : Z) (rngs : list BrukerRange) :
  Forall (fun rng => Z.of_nat (length (counts_data rng)) <= w) rngs ->
  count_true (len_mask (map (fun item : list float => Z.of_nat (length item))
                          (map counts_data rngs)) w)
  = length (concat (map counts_data rngs)).
Proof.
  unfold count_true. intros H.
  induction H as [| rng rngs Hr Hrs IH]; simpl; [ reflexivity | ].
  rewrite List.filter_app, !length_app, IH. f_equal.
  unfold arange. rewrite (count_true_row _ (Z.to_nat w) 0%nat) by lia. lia.
Qed.

(** The matrix [get_smap] assembles has one row per range; the row of a
    range holds its samples, converted to the integer type the matrix was
    created with, from column 0 on, then zeros; every row has [max_len]
    columns. *)
Theorem get_smap_rows (rngs : list BrukerRange) (xs ys : list float)
  (m : list (list Z)) :
  get_smap rngs = Ok (xs, ys, m) ->
  exists w,
    max_len (map (fun rng => Z.of_nat (length (counts_data rng))) rngs) = Ok w
    /\ m = map (padded_row w) rngs
    /\ length m = length rngs
    /\ Forall (fun row => length row = Z.to_nat w) m
    /\ forall i rng row, nth_error rngs i = Some rng -> nth_error m i = Some row ->
         firstn (length (counts_data rng)) row = map int64_of_float (counts_data rng)
         /\ forall k, (length (counts_data rng) <= k < Z.to_nat w)%nat ->
                      nth_error row k = Some 0.
Proof.
  unfold get_smap. intros H.
  bind_as H ts Hts. bind_as H w Hw. bind_as H out Hout.
  bind_as H userng Hu. bind_as H rng Hrng. bind_as H xs' Hxs.
  bind_as H ymin Hmin. bind_as H ymax Hmax. bind_as H ys' Hys.
  injection H as <- <- <-.
  exists w. rewrite map_map in Hw. split; [ exact Hw | ].
  assert (B : Forall (fun rng => Z.of_nat (length (counts_data rng)) <= w) rngs).
  { exact (proj1 (List.Forall_map _ (fun l => l <= w) rngs) (max_len_bound _ _ Hw)). }
  assert (E : out = map (padded_row w) rngs).
  { unfold masked_assign in Hout.
    rewrite length_map, count_true_len_mask, Nat.eqb_refl in Hout by exact B.
    injection Hout as <-. now apply assign_rows_padded. }
  assert (L : forall r, Z.of_nat (length (counts_data r)) <= w ->
                length (padded_row w r) = Z.to_nat w).
  { intros r Hr. unfold padded_row. rewrite length_app, length_map, repeat_length. lia. }
  split; [ exact E | ]. subst out.
  split; [ apply length_map | ].
  split.
  - apply List.Forall_map. clear - B L. induction B; constructor; auto.
  - intros i r row Hi Hrow.
    rewrite List.nth_error_map, Hi in Hrow. simpl in Hrow. injection Hrow as <-.
    unfold padded_row. split.
    + rewrite <- (length_map int64_of_float) at 1.
      rewrite List.firstn_app, Nat.sub_diag, List.firstn_all. simpl. apply app_nil_r.
    + intros k Hk. rewrite List.nth_error_app2 by (rewrite length_map; lia).
      rewrite length_map. apply List.nth_error_repeat. lia.
Qed.

(** ** The axes of a decoded dataset *)

(** Which branch of [__init__] built the axes: without a matrix the first
    range gives both; with a matrix [get_smap] gives all three. *)
Lemma BrukerData_init_axes fs name d :
  name <> "" ->
  BrukerData_init fs (Some name) = Ok d ->
  exists rng0 rest,
    rngs d = rng0 :: rest
    /\ (smap d = None ->
        y d = PyList (counts_data rng0)
        /\ exists xs, twoth_axis rng0 (Z.of_nat (length (counts_data rng0))) = Ok xs
                      /\ x d = NdArray xs)
    /\ (forall m, smap d = Some m ->
        exists xs ys, get_smap (rngs d) = Ok (xs, ys, m)
                      /\ x d = NdArray xs /\ y d = NdArray ys).
Proof.
  intros Hn H. unfold BrukerData_init in H.
  destruct name as [| c name]; [ congruence | ].
  bind_as H content Hc. bind_as H hdr Hh. bind_as H cnt Hcnt. bind_as H hr Hhr.
  destruct hr as [hdr' rs]. simpl in H.
  destruct rs as [| rng0 rest]; simpl in H; [ discriminate | ].
  bind_as H tag Htag. exists rng0, rest.
  destruct (eq_int tag 200).
  - bind_as H xys Hx. injection H as <-. simpl.
    split; [ reflexivity | ]. split; [ discriminate | ].
    intros m Hm. injection Hm as <-.
    destruct xys as [[xs ys] m]. exists xs, ys. auto.
  - bind_as H xs Hx. injection H as <-. simpl.
    split; [ reflexivity | ]. split; [ | discriminate ].
    intros _. split; [ reflexivity | ]. exists xs. auto.
Qed.

Lemma set_last_length {A} (l : list A) (v : A) : length (set_last l v) = length l.
Proof.
  induction l as [| a l IH]; simpl; [ reflexivity | ].
  destruct l; simpl in *; [ reflexivity | now rewrite IH ].
Qed.

(** [np.linspace(start, stop, num)] has [num] points. *)
Lemma linspace_length (start stop : float) (num : Z) (l : list float) :
  linspace start stop num = Ok l -> length l = Z.to_nat num.
Proof.
  unfold linspace. destruct (num <? 0); [ discriminate | ].
  intros H. injection H as <-.
  assert (E : forall f : float -> float,
             length (map f (map float_of_int (arange num))) = Z.to_nat num).
  { intros f. unfold arange. now rewrite !length_map, length_seq. }
  destruct (1 <? num); rewrite ?set_last_length, length_map;
    destruct (0 <? num - 1); try destruct (_ =? 0)%float; apply E.
Qed.

Lemma decode_ranges_steps filecontent n :
  forall pos all,
    decode_ranges filecontent n pos = Ok all ->
    Forall (fun rng => exists s, getitem (metta rng) "steps" = VInt s
                                 /\ length (counts_data rng) = Z.to_nat s) all.
Proof.
  induction n as [| n IH]; intros pos all H; simpl in H.
  - injection H as <-. constructor.
  - bind_as H rp Hrp. bind_as H rest Hrest. injection H as <-.
    constructor; [ eapply get_range_steps; eauto | eapply IH; eauto ].
Qed.

(** A dataset without a matrix (a 1-D scan): the intensity vector is the
    first range's samples, and it and the angular axis both have as many
    entries as that range has steps. *)
Theorem scan_axis_lengths fs name d :
  name <> "" ->
  BrukerData_init fs (Some name) = Ok d ->
  smap d = None ->
  exists rng0 rest steps,
    rngs d = rng0 :: rest
    /\ getitem (metta rng0) "steps" = VInt steps
    /\ y d = PyList (counts_data rng0)
    /\ length (axis_values (y d)) = Z.to_nat steps
    /\ length (axis_values (x d)) = Z.to_nat steps.
Proof.
  intros Hn H Hs.
  destruct (BrukerData_init_axes _ _ _ Hn H) as (rng0 & rest & Hr & H1 & _).
  destruct (H1 Hs) as (Hy & xs & Hxs & Hx).
  destruct (retained_ranges_decoded fs name d Hn H)
    as (content & declared & all & Hd & Hk).
  apply decode_ranges_steps in Hd.
  assert (F : Forall (fun rng => exists s, getitem (metta rng) "steps" = VInt s
                        /\ length (counts_data rng) = Z.to_nat s) (rngs d)).
  { rewrite Hk. clear - Hd. induction Hd as [| r l Hr Hl IH]; simpl; [ constructor | ].
    destruct (has_steps r); [ constructor; assumption | assumption ]. }
  rewrite Hr in F. inversion F as [| ? ? (s & Hsteps & Hlen) _]; subst.
  exists rng0, rest, s.
  split; [ exact Hr | ]. split; [ exact Hsteps | ]. split; [ exact Hy | ].
  rewrite Hy, Hx. simpl. split; [ exact Hlen | ].
  unfold twoth_axis in Hxs.
  bind_as Hxs t0 Ht0. bind_as Hxs t1 Ht1. bind_as Hxs t2 Ht2.
  apply linspace_length in Hxs. rewrite Hxs, Hlen. lia.
Qed.

(** The scan of 5 steps: 5 intensities and 5 angles. *)
Lemma scan_axis_lengths_witness :
  length (axis_values (y (decoded scan_1d))) = 5%nat
  /\ length (axis_values (x (decoded scan_1d))) = 5%nat.
Proof.
  assert (H : BrukerData_init (one_file "scan.raw" scan_1d) (Some "scan.raw")
              = Ok (decoded scan_1d)) by (vm_compute; reflexivity).
  assert (Hs : smap (decoded scan_1d) = None) by (vm_compute; reflexivity).
  destruct (scan_axis_lengths _ "scan.raw" _ ltac:(discriminate) H Hs)
    as (rng0 & rest & steps & Hr & Hsteps & Hy & Ly & Lx).
  assert (E : steps = 5).
  { assert (R : exists r l, rngs (decoded scan_1d) = r :: l
                            /\ getitem (metta r) "steps" = VInt 5)
      by (eexists; eexists; split; [ vm_compute; reflexivity | reflexivity ]).
    destruct R as (r & l & R1 & R2). rewrite Hr in R1. injection R1 as <- <-.
    congruence. }
  subst steps. split; [ exact Ly | exact Lx ].
Defined.

(** The axes [get_smap] builds: as many angles as the matrix has columns, as
    many tilts as there are ranges. *)
Lemma get_smap_axes (rngs : list BrukerRange) (xs ys : list float)
  (m : list (list Z)) :
  get_smap rngs = Ok (xs, ys, m) ->
  exists w,
    max_len (map (fun rng => Z.of_nat (length (counts_data rng))) rngs) = Ok w
    /\ length xs = Z.to_nat w
    /\ length ys = length rngs.
Proof.
  unfold get_smap. intros H.
  bind_as H ts Hts. bind_as H w Hw. bind_as H out Hout.
  bind_as H userng Hu. bind_as H rng Hrng. bind_as H xs' Hxs.
  bind_as H ymin Hmin. bind_as H ymax Hmax. bind_as H ys' Hys.
  injection H as <- <- <-.
  exists w. rewrite map_map in Hw. split; [ exact Hw | ].
  unfold twoth_axis in Hxs.
  bind_as Hxs t0 Ht0. bind_as Hxs t1 Ht1. bind_as Hxs t2 Ht2.
  apply linspace_length in Hxs. apply linspace_length in Hys.
  split; [ exact Hxs | ]. rewrite Hys. apply Nat2Z.id.
Qed.

(** A dataset with a matrix (an area map): the matrix has one row per
    retained range and [max_len] columns, the row of a range being its
    samples, converted to the matrix's integer type, followed by zeros; the
    tilt axis has one entry per row and the angular axis one per column. *)
Theorem area_map_shape fs name d m :
  name <> "" ->
  BrukerData_init fs (Some name) = Ok d ->
  smap d = Some m ->
  exists w,
    max_len (map (fun rng => Z.of_nat (length (counts_data rng))) (rngs d)) = Ok w
    /\ m = map (padded_row w) (rngs d)
    /\ length m = length (rngs d)
    /\ Forall (fun row => length row = Z.to_nat w) m
    /\ length (axis_values (y d)) = length m
    /\ length (axis_values (x d)) = Z.to_nat w.
Proof.
  intros Hn H Hm.
  destruct (BrukerData_init_axes _ _ _ Hn H) as (rng0 & rest & Hr & _ & H2).
  destruct (H2 m Hm) as (xs & ys & Hg & Hx & Hy).
  destruct (get_smap_rows _ _ _ _ Hg) as (w & Hw & Em & Lm & Fm & _).
  destruct (get_smap_axes _ _ _ _ Hg) as (w' & Hw' & Lx & Ly).
  assert (w' = w) by congruence. subst w'.
  exists w. rewrite Hx, Hy. simpl.
  split; [ exact Hw | ]. split; [ exact Em | ]. split; [ exact Lm | ].
  split; [ exact Fm | ]. split; [ congruence | exact Lx ].
Qed.

(** The area map of two ranges: 2 rows of 5 columns, 2 tilts, 5 angles. *)
Lemma area_map_shape_witness :
  smap (decoded map_2d) = Some [[1; 2; 3; 0; 0]; [1; 2; 3; 4; 5]]
  /\ length (axis_values (y (decoded map_2d))) = 2%nat
  /\ exists w, length (axis_values (x (decoded map_2d))) = Z.to_nat w
               /\ [[1; 2; 3; 0; 0]; [1; 2; 3; 4; 5]]
                  = map (padded_row w) (rngs (decoded map_2d)).
Proof.
  assert (H : BrukerData_init (one_file "scan.raw" map_2d) (Some "scan.raw")
              = Ok (decoded map_2d)) by (vm_compute; reflexivity).
  assert (Hm : smap (decoded map_2d) = Some [[1; 2; 3; 0; 0]; [1; 2; 3; 4; 5]])
    by (vm_compute; reflexivity).
  destruct (area_map_shape _ "scan.raw" _ _ ltac:(discriminate) H Hm)
    as (w & Hw & Em & Lm & Fm & Ly & Lx).
  split; [ exact Hm | ]. split; [ exact Ly | ].
  exists w. split; [ exact Lx | exact Em ].
Defined.

(** ** Decoding against a schema *)

Lemma has_key_In key (a : attrs) : has_key key a = true <-> In key (map fst a).
Proof.
  unfold has_key. induction a as [| [k f] a IH]; simpl.
  - split; [ discriminate | contradiction ].
  - destruct (String.eqb key k) eqn:E.
    + apply String.eqb_eq in E. subst. split; auto.
    + apply String.eqb_neq in E. rewrite IH. split; [ auto | ].
      intros [H | H]; [ congruence | exact H ].
Qed.

Lemma unique_keys_NoDup (a : attrs) : unique_keys a = true -> List.NoDup (map fst a).
Proof.
  induction a as [| [k f] a IH]; simpl; [ constructor | ].
  rewrite andb_true_iff, negb_true_iff. intros [H1 H2].
  constructor; [ | auto ].
  intros Hin. apply has_key_In in Hin. congruence.
Qed.

Lemma schema_of_set_value key item (a : attrs) :
  schema_of (set_value key item a) = schema_of a.
Proof.
  induction a as [| [k f] a IH]; simpl; [ reflexivity | ].
  destruct (String.eqb key k); simpl; [ reflexivity | now rewrite IH ].
Qed.

Lemma dict_get_schema key (a b : attrs) :
  schema_of a = schema_of b ->
  option_map (fun f => (flabel f, ftyp f, fpos f)) (dict_get key a)
  = option_map (fun f => (flabel f, ftyp f, fpos f)) (dict_get key b).
Proof.
  revert b. induction a as [| [k f] a IH]; intros [| [k' f'] b] H; simpl in *;
    try discriminate; [ reflexivity | ].
  injection H as <- Hl Ht Hp Hr.
  destruct (String.eqb key k); [ simpl; congruence | now apply IH ].
Qed.

Lemma get_metta_key_inv fc start (m m' : attrs) key :
  get_metta_key fc start m key = Ok m' ->
  exists f p tb v,
    dict_get key m = Some f /\ fpos f = Some p
    /\ field_bits m (Some (ftyp f)) (p + start) = Ok tb
    /\ _unpack fc (p + start) (fst tb) (snd tb) = Ok v
    /\ m' = set_value key v m.
Proof.
  unfold get_metta_key, pos, typ_of, setitem, has_key. intros H.
  destruct (dict_get key m) as [f |] eqn:E; simpl in H; [ | discriminate ].
  destruct (fpos f) as [p |] eqn:Ep; simpl in H; [ | discriminate ].
  bind_as H tb Htb. bind_as H v Hv. injection H as <-.
  exists f, p, tb, v. auto 10.
Qed.

Lemma get_metta_keys_schema fc start keys :
  forall m m', get_metta_keys fc start keys m = Ok m' -> schema_of m' = schema_of m.
Proof.
  induction keys as [| key keys IH]; intros m m' H; simpl in H.
  - now injection H as <-.
  - bind_as H m1 H1. apply IH in H. rewrite H.
    destruct (get_metta_key_inv _ _ _ _ _ H1) as (f & p & tb & v & _ & _ & _ & _ & ->).
    apply schema_of_set_value.
Qed.

(** Decoding fills in values only: keys, labels, types and positions of the
    schema are those it had. *)
Lemma get_metta_schema_eq fc (m m' : attrs) start :
  get_metta fc m start = Ok m' -> schema_of m' = schema_of m.
Proof.
  unfold get_metta. intros H. bind_as H keys Hk.
  eapply get_metta_keys_schema; eauto.
Qed.

(** *** The order of iteration *)

Lemma positions_keys (a : attrs) l : positions a = Ok l -> map fst l = map fst a.
Proof.
  revert l. induction a as [| [k f] a IH]; intros l H; simpl in H.
  - now injection H as <-.
  - destruct (fpos f); [ | discriminate ]. bind_as H l' Hl. injection H as <-.
    simpl. f_equal. now apply IH.
Qed.

Lemma insert_by_pos_perm k p l :
  Permutation (map fst (insert_by_pos k p l)) (k :: map fst l).
Proof.
  induction l as [| [k' p'] l IH]; simpl; [ reflexivity | ].
  destruct (p <? p'); simpl; [ reflexivity | ].
  rewrite IH. apply perm_swap.
Qed.

(** [__next__] visits every key of the schema once. *)
Lemma sorted_keys_perm (a : attrs) keys :
  sorted_keys a = Ok keys -> Permutation keys (map fst a).
Proof.
  unfold sorted_keys. intros H. bind_as H l Hl. injection H as <-.
  rewrite <- (positions_keys _ _ Hl). clear.
  rewrite <- (app_nil_r (map fst l)) at 1.
  change (@nil string) with (map fst (@nil (string * Z))).
  generalize (@nil (string * Z)).
  induction l as [| [k p] l IH]; intros acc; simpl.
  - reflexivity.
  - rewrite IH, insert_by_pos_perm. simpl.
    rewrite Permutation_middle. reflexivity.
Qed.

Lemma dict_get_set_value_other key k item (a : attrs) :
  key <> k -> dict_get key (set_value k item a) = dict_get key a.
Proof.
  intros Hne. induction a as [| [k' f] a IH]; simpl; [ reflexivity | ].
  destruct (String.eqb k k') eqn:E; simpl.
  - apply String.eqb_eq in E. subst k'.
    destruct (String.eqb key k) eqn:E'; [ | reflexivity ].
    apply String.eqb_eq in E'. congruence.
  - destruct (String.eqb key k'); [ reflexivity | exact IH ].
Qed.

Lemma field_bits_fixed (m : attrs) t p :
  is_var t = false -> field_bits m (Some t) p = Ok (Some t, fixed_bits t).
Proof. destruct t as [n | []]; simpl; try reflexivity; discriminate. Qed.

Lemma get_metta_keys_values fc start keys :
  forall m m' : attrs,
    get_metta_keys fc start keys m = Ok m' ->
    List.NoDup keys ->
    (forall key, ~ In key keys -> getitem m' key = getitem m key)
    /\ (forall key f p,
           In key keys -> dict_get key m = Some f -> fpos f = Some p ->
           is_var (ftyp f) = false ->
           _unpack fc (p + start) (Some (ftyp f)) (fixed_bits (ftyp f))
           = Ok (getitem m' key)).
Proof.
  induction keys as [| key0 keys IH]; intros m m' H Hnd; simpl in H.
  - injection H as <-. split; [ reflexivity | contradiction ].
  - bind_as H m1 H1. inversion Hnd as [| ? ? Hnotin Hnd']; subst.
    destruct (IH _ _ H Hnd') as [IH1 IH2].
    destruct (get_metta_key_inv _ _ _ _ _ H1)
      as (f0 & p0 & tb & v & Hf0 & Hp0 & Htb & Hv & ->).
    split.
    + intros key Hkey. simpl in Hkey.
      rewrite IH1 by tauto. unfold getitem.
      rewrite dict_get_set_value_other by (intros ->; tauto). reflexivity.
    + intros key f p [<- | Hin] Hf Hp Hvar.
      * rewrite IH1 by exact Hnotin. unfold getitem.
        rewrite dict_get_set_value, Hf0. simpl.
        rewrite Hf in Hf0. injection Hf0 as <-.
        rewrite Hp in Hp0. injection Hp0 as <-.
        rewrite field_bits_fixed in Htb by exact Hvar. injection Htb as <-.
        exact Hv.
      * apply (IH2 key f p Hin); auto.
        rewrite dict_get_set_value_other; [ exact Hf | ].
        intros ->. tauto.
Qed.

(** After [get_metta] every field of a type other than ['??'] holds what
    [_unpack] reads at the field's offset from [start_pos], with the type and
    the byte count of the schema. *)
Lemma get_metta_field_value fc (m m' : attrs) start key f p :
  get_metta fc m start = Ok m' ->
  unique_keys m = true ->
  dict_get key m = Some f ->
  fpos f = Some p ->
  is_var (ftyp f) = false ->
  _unpack fc (p + start) (Some (ftyp f)) (fixed_bits (ftyp f)) = Ok (getitem m' key).
Proof.
  unfold get_metta. intros H Hu Hf Hp Hvar. bind_as H keys Hk.
  pose proof (sorted_keys_perm _ _ Hk) as P.
  assert (Hnd : List.NoDup keys).
  { eapply Permutation_NoDup; [ symmetry; exact P | now apply unique_keys_NoDup ]. }
  destruct (get_metta_keys_values _ _ _ _ _ H Hnd) as [_ H2].
  apply (H2 key f p); auto.
  eapply Permutation_in; [ symmetry; exact P | ].
  apply has_key_In. unfold has_key. now rewrite Hf.
Qed.

(** *** Reading past the end of the buffer *)

Lemma slice_length (b : bytes) (lo n : Z) :
  0 <= lo -> 0 <= n ->
  blen (slice b lo (lo + n)) = Z.min (lo + n) (blen b) - Z.min lo (blen b).
Proof.
  intros Hlo Hn. unfold slice, py_index, blen.
  destruct (lo <? 0) eqn:E1; [ apply Z.ltb_lt in E1; lia | ].
  destruct (lo + n <? 0) eqn:E2; [ apply Z.ltb_lt in E2; lia | ].
  rewrite length_firstn, length_skipn. lia.
Qed.

Lemma slice_full (b : bytes) (lo n : Z) :
  0 <= lo -> 0 <= n ->
  (blen (slice b lo (lo + n)) = n <-> n = 0 \/ lo + n <= blen b).
Proof. intros Hlo Hn. rewrite slice_length by assumption. lia. Qed.

(** A field of a type other than ['??'] is read when its bytes lie in the
    buffer, and is a struct.error otherwise. *)
Lemma unpack_fixed fc q t :
  0 <= q -> is_var t = false ->
  if (0 <=? fixed_bits t) && ((fixed_bits t =? 0) || (q + fixed_bits t <=? blen fc))
  then exists v, _unpack fc q (Some t) (fixed_bits t) = Ok v
  else _unpack fc q (Some t) (fixed_bits t) = Err StructError.
Proof.
  intros Hq Hvar. unfold _unpack, struct_unpack.
  destruct (0 <=? fixed_bits t) eqn:E0; simpl.
  - apply Z.leb_le in E0.
    pose proof (slice_full fc q (fixed_bits t) Hq E0) as S.
    destruct ((fixed_bits t =? 0) || (q + fixed_bits t <=? blen fc)) eqn:E.
    + assert (L : blen (slice fc q (q + fixed_bits t)) = fixed_bits t).
      { apply S. apply orb_true_iff in E. rewrite Z.eqb_eq, Z.leb_le in E. exact E. }
      destruct t as [n | []]; simpl in *; try discriminate;
        try solve [ rewrite L; simpl; eauto ].
      destruct (n <? 0) eqn:En; [ apply Z.ltb_lt in En; lia | ].
      rewrite L, Z.eqb_refl. simpl. eauto.
    + assert (L : blen (slice fc q (q + fixed_bits t)) <> fixed_bits t).
      { intros L. apply S in L. apply orb_false_iff in E.
        rewrite Z.eqb_neq, Z.leb_gt in E. lia. }
      apply Z.eqb_neq in L.
      destruct t as [n | []]; simpl in *; try discriminate;
        try solve [ rewrite L; reflexivity ].
      destruct (n <? 0); [ reflexivity | ]. rewrite L. reflexivity.
  - destruct t as [n | []]; simpl in *; try discriminate.
    apply Z.leb_gt in E0. apply Z.ltb_lt in E0. rewrite E0. reflexivity.
Qed.

Lemma positions_total (m : attrs) :
  forallb (fun kf => fixed_field (snd kf)) m = true -> exists l, positions m = Ok l.
Proof.
  induction m as [| [k f] m IH]; simpl; [ eauto | ].
  rewrite andb_true_iff. intros [Hf Hm]. unfold fixed_field in Hf.
  destruct (fpos f); [ | now rewrite andb_false_r in Hf ].
  destruct (IH Hm) as [l ->]. simpl. eauto.
Qed.

Lemma dict_get_In key f (m : attrs) : dict_get key m = Some f -> In (key, f) m.
Proof.
  induction m as [| [k g] m IH]; simpl; [ discriminate | ].
  destruct (String.eqb key k) eqn:E; [ | auto ].
  apply String.eqb_eq in E. subst. intros H. injection H as <-. auto.
Qed.

Lemma In_dict_get key f (m : attrs) :
  unique_keys m = true -> In (key, f) m -> dict_get key m = Some f.
Proof.
  induction m as [| [k g] m IH]; simpl; [ contradiction | ].
  rewrite andb_true_iff, negb_true_iff. intros [Hk Hu] [H | H].
  - injection H as <- <-. now rewrite String.eqb_refl.
  - destruct (String.eqb key k) eqn:E; [ | auto ].
    apply String.eqb_eq in E. subst k. exfalso.
    assert (Hin : has_key key m = true).
    { apply has_key_In. change key with (fst (key, f)). now apply in_map. }
    congruence.
Qed.

Lemma extent_nonneg (m : attrs) : 0 <= extent m.
Proof. induction m as [| [k g] m IH]; simpl; lia. Qed.

Lemma extent_bound (m : attrs) (L : Z) :
  0 <= L ->
  (extent m <= L <-> forall k f, In (k, f) m -> field_end f <= L).
Proof.
  intros HL. induction m as [| [k g] m IH]; simpl.
  - split; [ contradiction | lia ].
  - split.
    + intros H k' f [E | Hin]; [ injection E as <- <-; lia | ].
      apply IH in Hin; [ exact Hin | lia ].
    + intros H. apply Z.max_lub; [ eapply H; eauto | ].
      apply IH. intros k' f Hin. eapply H; eauto.
Qed.

Section FixedSchema.
Variables (fc : bytes) (start : Z) (m : attrs).
Hypothesis Hstart : 0 <= start.
Hypothesis Hfixed : fixed_schema m = true.

Lemma fixed_schema_unique : unique_keys m = true.
Proof.
  unfold fixed_schema in Hfixed. rewrite !andb_true_iff in Hfixed. tauto.
Qed.

Lemma fixed_schema_fields : forall k f, In (k, f) m -> fixed_field f = true.
Proof.
  unfold fixed_schema in Hfixed. rewrite !andb_true_iff in Hfixed.
  destruct Hfixed as [_ H]. rewrite forallb_forall in H.
  intros k f Hin. exact (H (k, f) Hin).
Qed.

(** One turn of the loop on a table with the schema of [m]. *)
Lemma get_metta_key_fixed (m0 : attrs) key f :
  schema_of m0 = schema_of m ->
  In (key, f) m ->
  if start + field_end f <=? blen fc
  then exists m1, get_metta_key fc start m0 key = Ok m1
                  /\ schema_of m1 = schema_of m
  else get_metta_key fc start m0 key = Err StructError.
Proof.
  intros Hs Hin.
  pose proof (fixed_schema_fields _ _ Hin) as Hf. unfold fixed_field in Hf.
  rewrite !andb_true_iff, negb_true_iff in Hf. destruct Hf as [[Hvar Hbits] Hp].
  apply Z.ltb_lt in Hbits.
  destruct (fpos f) as [p |] eqn:Ep; [ apply Z.leb_le in Hp | discriminate ].
  pose proof (dict_get_schema key _ _ Hs) as D.
  rewrite (In_dict_get _ _ _ fixed_schema_unique Hin) in D. simpl in D.
  destruct (dict_get key m0) as [f0 |] eqn:E0; [ | discriminate ].
  simpl in D. injection D as Dl Dt Dp.
  assert (EQ : get_metta_key fc start m0 key
               = bind (_unpack fc (p + start) (Some (ftyp f)) (fixed_bits (ftyp f)))
                   (fun v => Ok (setitem m0 key v))).
  { unfold get_metta_key, pos, typ_of. rewrite E0. cbn [option_map].
    rewrite Dp, Ep. cbn [bind]. rewrite Dt, field_bits_fixed by exact Hvar.
    reflexivity. }
  rewrite EQ. clear EQ.
  pose proof (unpack_fixed fc (p + start) (ftyp f) ltac:(lia) Hvar) as U.
  replace (0 <=? fixed_bits (ftyp f)) with true in U by (symmetry; apply Z.leb_le; lia).
  replace (fixed_bits (ftyp f) =? 0) with false in U by (symmetry; apply Z.eqb_neq; lia).
  cbn [andb orb] in U. unfold field_end. rewrite Ep.
  replace (start + (p + fixed_bits (ftyp f))) with (p + start + fixed_bits (ftyp f)) by lia.
  destruct (p + start + fixed_bits (ftyp f) <=? blen fc).
  - destruct U as [v ->]. simpl. eexists. split; [ reflexivity | ].
    unfold setitem, has_key. rewrite E0. rewrite schema_of_set_value. exact Hs.
  - rewrite U. reflexivity.
Qed.

Lemma get_metta_keys_fixed keys :
  forall m0 : attrs,
    schema_of m0 = schema_of m ->
    (forall key, In key keys -> exists f, In (key, f) m) ->
    if forallb (fun key => match dict_get key m with
                           | Some f => start + field_end f <=? blen fc
                           | None => false
                           end) keys
    then exists m', get_metta_keys fc start keys m0 = Ok m'
    else get_metta_keys fc start keys m0 = Err StructError.
Proof.
  induction keys as [| key keys IH]; intros m0 Hs Hk; simpl; [ eauto | ].
  destruct (Hk key (or_introl eq_refl)) as [f Hin].
  rewrite (In_dict_get _ _ _ fixed_schema_unique Hin).
  pose proof (get_metta_key_fixed m0 key f Hs Hin) as K.
  destruct (start + field_end f <=? blen fc); simpl.
  - destruct K as (m1 & -> & Hs1). simpl. apply IH; [ exact Hs1 | ].
    intros k Hkin. apply Hk. now right.
  - rewrite K. reflexivity.
Qed.

(** A schema of fixed layout decodes exactly when the buffer reaches the end
    of its last field; a shorter buffer is a struct.error. *)
Theorem get_metta_fixed :
  if start + extent m <=? blen fc
  then exists m', get_metta fc m start = Ok m'
  else get_metta fc m start = Err StructError.
Proof.
  unfold get_metta.
  destruct (positions_total m) as [l Hl].
  { unfold fixed_schema in Hfixed. rewrite !andb_true_iff in Hfixed. tauto. }
  assert (Hk : exists keys, sorted_keys m = Ok keys).
  { unfold sorted_keys. rewrite Hl. simpl. eauto. }
  destruct Hk as [keys Hk]. rewrite Hk. simpl.
  pose proof (sorted_keys_perm _ _ Hk) as P.
  assert (Hin : forall key, In key keys -> exists f, In (key, f) m).
  { intros key H. apply (Permutation_in _ P) in H. apply in_map_iff in H.
    destruct H as ([k f] & <- & H). eauto. }
  pose proof (get_metta_keys_fixed keys m eq_refl Hin) as G.
  assert (E : forallb (fun key => match dict_get key m with
                                  | Some f => start + field_end f <=? blen fc
                                  | None => false
                                  end) keys
              = (start + extent m <=? blen fc)).
  { apply eq_true_iff_eq. rewrite forallb_forall, Z.leb_le.
    assert (Hne : exists k f, In (k, f) m).
    { unfold fixed_schema in Hfixed. destruct m as [| [k f] ?]; [ discriminate | ].
      simpl. eauto. }
    split.
    - intros H.
      destruct Hne as (k0 & f0 & H0).
      assert (B0 : 0 <= blen fc - start).
      { assert (Hk0 : In k0 keys).
        { apply (Permutation_in _ (Permutation_sym P)).
          change k0 with (fst (k0, f0)). now apply in_map. }
        specialize (H k0 Hk0). rewrite (In_dict_get _ _ _ fixed_schema_unique H0) in H.
        apply Z.leb_le in H.
        pose proof (fixed_schema_fields _ _ H0) as F. unfold fixed_field, field_end in *.
        rewrite !andb_true_iff in F. destruct F as [[_ Fb] Fp].
        apply Z.ltb_lt in Fb. destruct (fpos f0); [ apply Z.leb_le in Fp | discriminate ].
        lia. }
      cut (extent m <= blen fc - start); [ lia | ].
      apply extent_bound; [ exact B0 | ].
      intros k f Hkf.
      assert (Hkk : In k keys).
      { apply (Permutation_in _ (Permutation_sym P)).
        change k with (fst (k, f)). now apply in_map. }
      specialize (H k Hkk). rewrite (In_dict_get _ _ _ fixed_schema_unique Hkf) in H.
      apply Z.leb_le in H. lia.
    - intros H key Hkey. destruct (Hin key Hkey) as [f Hf].
      rewrite (In_dict_get _ _ _ fixed_schema_unique Hf). apply Z.leb_le.
      assert (B : extent m <= blen fc - start) by lia.
      assert (B0 : 0 <= blen fc - start).
      { pose proof (extent_nonneg m). lia. }
      pose proof (proj1 (extent_bound m (blen fc - start) B0) B _ _ Hf). lia. }
  rewrite <- E. exact G.
Qed.
End FixedSchema.

(** *** What [get_range] reads *)

Lemma le_uint_bound (b : bytes) : 0 <= le_uint b < 256 ^ blen b.
Proof.
  unfold blen. induction b as [| x b IH]; simpl le_uint.
  - simpl. lia.
  - assert (Hx : 0 <= byte_val x < 256).
    { unfold byte_val. pose proof (Byte.to_N_bounded x). lia. }
    rewrite length_cons, Nat2Z.inj_succ, Z.pow_succ_r by lia. lia.
Qed.

(** An unsigned 4-byte field is an int below [2^32]. *)
Lemma unpack_uint32 fc q v :
  _unpack fc q (Some (TFmt FI)) 4 = Ok v ->
  v = VInt (le_uint (slice fc q (q + 4)))
  /\ 0 <= le_uint (slice fc q (q + 4)) < 2 ^ 32.
Proof.
  unfold _unpack, struct_unpack. 
  destruct (blen (slice fc q (q + 4)) =? 4) eqn:E; simpl; [ | discriminate ].
  intros H. injection H as <-. split; [ reflexivity | ].
  apply Z.eqb_eq in E. pose proof (le_uint_bound (slice fc q (q + 4))) as B.
  rewrite E in B. exact B.
Qed.

Lemma read_counts_nth fc p n :
  forall i l,
    read_counts fc p n i = Ok l ->
    length l = n
    /\ forall k, (k < n)%nat ->
         nth_error l k
         = Some (float_of_bits 23 8
                   (le_uint (slice fc (p + (i + Z.of_nat k) * 4)
                                      (p + (i + Z.of_nat k) * 4 + 4)))).
Proof.
  induction n as [| n IH]; intros i l H; simpl in H.
  - injection H as <-. split; [ reflexivity | lia ].
  - bind_as H ret Hret. bind_as H f Hf. bind_as H rest Hrest. injection H as <-.
    destruct (IH _ _ Hrest) as [IH1 IH2]. split; [ simpl; now rewrite IH1 | ].
    intros [| k] Hk; simpl.
    + unfold struct_unpack in Hret.
      destruct (blen (slice fc (p + i * 4) (p + i * 4 + 4)) =? 4); [ | discriminate ].
      injection Hret as <-. simpl in Hf. injection Hf as <-.
      now rewrite Z.add_0_r.
    + rewrite IH2 by lia.
      replace (i + 1 + Z.of_nat k) with (i + Z.of_nat (S k)) by lia. reflexivity.
Qed.

Lemma BrukerSupp_cases tag cls : BrukerSupp tag = Ok cls -> In (tag, cls) supp_classes.
Proof.
  unfold BrukerSupp, supp_classes.
  repeat match goal with
         | |- (if ?c then _ else _) = _ -> _ =>
             let E := fresh "E" in
             let Hk := fresh "Hk" in
             destruct c eqn:E;
             [ apply Z.eqb_eq in E; subst tag; intros Hk; injection Hk as <-;
               simpl; tauto | ]
         end.
  intros Hk. discriminate Hk.
Qed.

(** Every supplemental schema starts with an unsigned 4-byte [type]. *)
Lemma supp_classes_type tag cls :
  In (tag, cls) supp_classes ->
  unique_keys cls = true
  /\ exists f, dict_get "type" cls = Some f /\ fpos f = Some 0 /\ ftyp f = TFmt FI.
Proof.
  unfold supp_classes. simpl.
  intros H; repeat destruct H as [H | H]; try contradiction;
    injection H as <- <-; (split; [ vm_compute; reflexivity | ]);
    eexists; (split; [ reflexivity | split; reflexivity ]).
Qed.

Lemma get_range_inv fc pos rng pos' :
  get_range fc pos = Ok (rng, pos') ->
  exists h s n,
    get_metta fc BrukerRangeHeader pos = Ok (metta rng)
    /\ getitem (metta rng) "header_len" = VInt h
    /\ getitem (metta rng) "sup_len" = VInt s
    /\ getitem (metta rng) "steps" = VInt n
    /\ read_counts fc (pos + h + s) (Z.to_nat n) 0 = Ok (counts_data rng)
    /\ pos' = pos + h + s + n * 4
    /\ if 0 <? s
       then exists tag cls a,
              struct_unpack (TFmt FI) (slice fc (pos + h) (pos + h + 4)) = Ok (VInt tag)
              /\ BrukerSupp tag = Ok cls
              /\ get_metta fc cls (pos + h) = Ok a
              /\ supmetta rng = SupHeader a
       else supmetta rng = SupDict [("type", VNone)].
Proof.
  unfold get_range. intros H.
  bind_as H m Hm. bind_as H h Hh. bind_as H s Hs. bind_as H sup Hsup.
  bind_as H n Hn. bind_as H counts Hc. injection H as <- <-. simpl.
  apply as_int_ok in Hh, Hs, Hn.
  exists h, s, n. repeat (split; [ assumption || reflexivity | ]).
  destruct (0 <? s).
  - bind_as Hsup t Ht. bind_as Hsup tag Htag. bind_as Hsup cls Hcls.
    bind_as Hsup a Ha. injection Hsup as <-. apply as_int_ok in Htag. subst t.
    exists tag, cls, a. auto.
  - now injection Hsup as <-.
Qed.

Lemma range_header_uint32 fc pos (m' : attrs) key p :
  get_metta fc BrukerRangeHeader pos = Ok m' ->
  (exists f, dict_get key BrukerRangeHeader = Some f
             /\ fpos f = Some p /\ ftyp f = TFmt FI) ->
  exists n, getitem m' key = VInt n /\ 0 <= n < 2 ^ 32.
Proof.
  intros H (f & Hf & Hp & Ht).
  assert (U : unique_keys BrukerRangeHeader = true) by (vm_compute; reflexivity).
  pose proof (get_metta_field_value _ _ _ _ _ _ _ H U Hf Hp) as D.
  rewrite Ht in D. specialize (D eq_refl). simpl fixed_bits in D.
  apply unpack_uint32 in D. destruct D as [D B]. eauto.
Qed.

(** A decoded range and the cursor behind it: header length, supplemental
    length and step count are unsigned 32-bit ints; the cursor advances by
    [header_len + sup_len + 4 * steps]; there are [steps] samples, sample [k]
    being the binary32 at byte [4 * k] behind the supplemental bytes. *)
Lemma get_range_fields fc pos rng pos' :
  get_range fc pos = Ok (rng, pos') ->
  exists h s n,
    getitem (metta rng) "header_len" = VInt h
    /\ getitem (metta rng) "sup_len" = VInt s
    /\ getitem (metta rng) "steps" = VInt n
    /\ 0 <= h < 2 ^ 32 /\ 0 <= s < 2 ^ 32 /\ 0 <= n < 2 ^ 32
    /\ pos' = pos + h + s + 4 * n
    /\ Z.of_nat (length (counts_data rng)) = n
    /\ forall k, 0 <= k < n ->
         nth_error (counts_data rng) (Z.to_nat k)
         = Some (float_of_bits 23 8
                   (le_uint (slice fc (pos + h + s + 4 * k) (pos + h + s + 4 * k + 4)))).
Proof.
  intros H.
  destruct (get_range_inv _ _ _ _ H) as (h & s & n & Hm & Hh & Hs & Hn & Hc & Hp & _).
  destruct (range_header_uint32 _ _ _ "header_len" 0 Hm) as (h' & Eh & Bh);
    [ eexists; repeat split; reflexivity | ].
  destruct (range_header_uint32 _ _ _ "sup_len" 256 Hm) as (s' & Es & Bs);
    [ eexists; repeat split; reflexivity | ].
  destruct (range_header_uint32 _ _ _ "steps" 4 Hm) as (n' & En & Bn);
    [ eexists; repeat split; reflexivity | ].
  assert (h' = h) by congruence. assert (s' = s) by congruence.
  assert (n' = n) by congruence. subst h' s' n'.
  destruct (read_counts_nth _ _ _ _ _ Hc) as [L N].
  exists h, s, n.
  repeat (split; [ assumption || lia | ]).
  intros k Hk. rewrite N by lia. rewrite Z2Nat.id by lia.
  do 4 f_equal; lia.
Qed.

(** The supplemental header of a decoded range: absent (the dict
    [{'type': None}]) exactly when [sup_len] is 0; otherwise decoded with the
    schema of one of the eight record types, whose tag is the [type] field. *)
Lemma get_range_supmetta_cases fc pos rng pos' :
  get_range fc pos = Ok (rng, pos') ->
  match supmetta rng with
  | SupDict d =>
      d = [("type", VNone)] /\ getitem (metta rng) "sup_len" = VInt 0
  | SupHeader a =>
      exists tag cls s,
        In (tag, cls) supp_classes
        /\ schema_of a = schema_of cls
        /\ getitem a "type" = VInt tag
        /\ getitem (metta rng) "sup_len" = VInt s /\ 0 < s
  end.
Proof.
  intros H.
  destruct (get_range_inv _ _ _ _ H) as (h & s & n & Hm & Hh & Hs & Hn & Hc & Hp & Hsup).
  destruct (range_header_uint32 _ _ _ "sup_len" 256 Hm) as (s' & Es & Bs);
    [ eexists; repeat split; reflexivity | ].
  assert (s' = s) by congruence. subst s'.
  destruct (0 <? s) eqn:E.
  - destruct Hsup as (tag & cls & a & Ht & Hcls & Ha & ->).
    apply Z.ltb_lt in E. apply BrukerSupp_cases in Hcls.
    exists tag, cls, s. split; [ exact Hcls | ].
    split; [ eapply get_metta_schema_eq; eauto | ].
    split; [ | auto ].
    destruct (supp_classes_type _ _ Hcls) as (U & f & Hf & Hp0 & Hty).
    pose proof (get_metta_field_value _ _ _ _ _ _ _ Ha U Hf Hp0) as D.
    rewrite Hty in D. specialize (D eq_refl). simpl fixed_bits in D.
    rewrite Z.add_0_l in D. unfold _unpack in D. rewrite Ht in D. simpl in D. congruence.
  - rewrite Hsup. apply Z.ltb_ge in E. split; [ reflexivity | ].
    rewrite Hs. f_equal. lia.
Qed.

(** *** Invariants of a decoded dataset *)

Lemma decode_ranges_each fc n :
  forall pos all,
    decode_ranges fc n pos = Ok all ->
    Forall (fun rng => exists p p', get_range fc p = Ok (rng, p')) all.
Proof.
  induction n as [| n IH]; intros pos all H; simpl in H.
  - injection H as <-. constructor.
  - bind_as H rp Hrp. bind_as H rest Hrest. injection H as <-.
    constructor; [ | eapply IH; eauto ].
    exists pos, (snd rp). now destruct rp.
Qed.

Lemma filter_split_length {A} (p : A -> bool) (l : list A) :
  (length (List.filter p l) + length (List.filter (fun a => negb (p a)) l)
   = length l)%nat.
Proof.
  induction l as [| a l IH]; simpl; [ reflexivity | ].
  destruct (p a); simpl; lia.
Qed.

Lemma Forall_filter_keep {A} (P : A -> Prop) (p : A -> bool) (l : list A) :
  Forall P l -> Forall (fun a => P a /\ p a = true) (List.filter p l).
Proof.
  induction 1 as [| a l Ha Hl IH]; simpl; [ constructor | ].
  destruct (p a) eqn:E; [ constructor; auto | exact IH ].
Qed.

(** The ranges of a dataset decoded from a file are ranges [get_range]
    returned, each with steps. *)
Lemma decoded_ranges_from_get_range fs name d :
  name <> "" ->
  BrukerData_init fs (Some name) = Ok d ->
  exists fc,
    Forall (fun rng => (exists p p', get_range fc p = Ok (rng, p'))
                       /\ has_steps rng = true) (rngs d).
Proof.
  intros Hn H.
  destruct (retained_ranges_decoded _ _ _ Hn H) as (fc & declared & all & Hd & Hr).
  exists fc. rewrite Hr. apply Forall_filter_keep. eapply decode_ranges_each; eauto.
Qed.

(** Every range of a decoded dataset has a step count between 1 and
    [2^32 - 1] and exactly that many samples. *)
Theorem decoded_ranges_samples fs name d :
  name <> "" ->
  BrukerData_init fs (Some name) = Ok d ->
  Forall (fun rng => exists n, getitem (metta rng) "steps" = VInt n
                               /\ 0 < n < 2 ^ 32
                               /\ Z.of_nat (length (counts_data rng)) = n) (rngs d).
Proof.
  intros Hn H. destruct (decoded_ranges_from_get_range _ _ _ Hn H) as (fc & F).
  eapply List.Forall_impl; [ | exact F ]. simpl.
  intros rng [(p & p' & G) Hs].
  destruct (get_range_fields _ _ _ _ G) as (h & s & n & _ & _ & En & _ & _ & Bn & _ & L & _).
  exists n. unfold has_steps in Hs. rewrite En in Hs. apply Z.ltb_lt in Hs.
  repeat split; auto; lia.
Qed.

(** After construction the header's range count is the number of ranges the
    dataset holds. *)
Theorem range_cnt_is_number_of_ranges fs name d :
  name <> "" ->
  BrukerData_init fs (Some name) = Ok d ->
  exists h, header d = Some h
            /\ getitem h "range_cnt" = VInt (Z.of_nat (length (rngs d))).
Proof.
  intros Hn H.
  destruct (BrukerData_init_ok _ _ _ Hn H)
    as (content & hdr & cnt & hdr' & rng0 & rngs' & Hf & Hm & Hc & Hi & Hr & Hh & _).
  destruct (init_ranges_decode _ _ _ _ _ _ _ _ Hi Hc) as (all & Hd & Hl & Hk & Hcnt).
  exists hdr'. split; [ exact Hh | ]. rewrite Hcnt, Hr. f_equal.
  simpl app in Hk. pose proof (filter_split_length has_steps all) as S.
  fold no_steps in S.
  change (fun a : BrukerRange => negb (has_steps a)) with no_steps in S.
  rewrite <- Hk in S. simpl length in S |- *. lia.
Qed.

(** Of the eight supplemental schemas only the area-detector one has the
    field [act_psi]. *)
Lemma act_psi_only_200 tag cls :
  In (tag, cls) supp_classes -> has_key "act_psi" cls = true -> tag = 200.
Proof.
  unfold supp_classes. simpl.
  intros H; repeat destruct H as [H | H]; try contradiction;
    injection H as <- <-; vm_compute; congruence.
Qed.

Lemma has_key_schema key (a b : attrs) :
  schema_of a = schema_of b -> has_key key a = has_key key b.
Proof.
  intros H. pose proof (dict_get_schema key _ _ H) as D. unfold has_key.
  destruct (dict_get key a), (dict_get key b); simpl in D; congruence.
Qed.

Lemma tilts_each rngs ts :
  tilts rngs = Ok ts -> Forall (fun rng => exists t, tilt rng = Ok t) rngs.
Proof.
  revert ts. induction rngs as [| rng rngs IH]; intros ts H; simpl in H.
  - constructor.
  - bind_as H t Ht. bind_as H ts' Hts. constructor; eauto.
Qed.

(** In a dataset with a matrix every range, not only the first, carries an
    area-detector supplemental header (type 200): [get_smap] reads its
    [act_psi], which no other supplemental record has. *)
Theorem area_map_ranges_are_type_200 fs name d m :
  name <> "" ->
  BrukerData_init fs (Some name) = Ok d ->
  smap d = Some m ->
  Forall (fun rng => exists a, supmetta rng = SupHeader a
                               /\ getitem a "type" = VInt 200
                               /\ schema_of a = schema_of BrukerSupp200) (rngs d).
Proof.
  intros Hn H Hm.
  destruct (BrukerData_init_axes _ _ _ Hn H) as (rng0 & rest & Hr & _ & H2).
  destruct (H2 m Hm) as (xs & ys & Hg & _).
  destruct (decoded_ranges_from_get_range _ _ _ Hn H) as (fc & F).
  assert (T : Forall (fun rng => exists t, tilt rng = Ok t) (rngs d)).
  { unfold get_smap in Hg. bind_as Hg ts Hts. eapply tilts_each; eauto. }
  clear - F T. induction F as [| rng l [(p & p' & G) _] F IH]; [ constructor | ].
  inversion T as [| ? ? [t Ht] T']; subst. constructor; [ | auto ].
  pose proof (get_range_supmetta_cases _ _ _ _ G) as S.
  unfold tilt in Ht. bind_as Ht phi Hphi. bind_as Ht cs Hcs. bind_as Ht ce Hce.
  bind_as Ht phi' Hphi'.
  destruct (supmetta rng) as [dct | a].
  - destruct S as [-> _]. discriminate.
  - destruct S as (tag & cls & s & Hin & Hsch & Hty & _).
    simpl in Hphi. injection Hphi as <-.
    assert (K : has_key "act_psi" a = true).
    { unfold has_key. unfold getitem in Hphi'.
      destruct (dict_get "act_psi" a); [ reflexivity | discriminate ]. }
    rewrite (has_key_schema _ _ _ Hsch) in K.
    pose proof (act_psi_only_200 _ _ Hin K). subst tag.
    exists a. split; [ reflexivity | ]. split; [ exact Hty | ].
    rewrite Hsch. clear - Hin. unfold supp_classes in Hin. simpl in Hin.
    repeat destruct Hin as [Hin | Hin]; try contradiction; try discriminate.
    now injection Hin as <-.
Qed.

(** A schema of fixed layout decodes exactly when the buffer reaches the end
    of its last field, and a shorter buffer is a struct.error. *)
Theorem fixed_schema_decodes_iff fc start (m : attrs) :
  0 <= start ->
  fixed_schema m = true ->
  ((exists m', get_metta fc m start = Ok m') <-> start + extent m <= blen fc)
  /\ (blen fc < start + extent m -> get_metta fc m start = Err StructError).
Proof.
  intros Hs Hf. pose proof (get_metta_fixed fc start m Hs Hf) as G.
  destruct (start + extent m <=? blen fc) eqn:E.
  - apply Z.leb_le in E. split; [ tauto | lia ].
  - apply Z.leb_gt in E. split; [ | auto ].
    split; [ | lia ]. intros [m' Hm']. congruence.
Qed.

(** A file with the signature that is shorter than the 712 bytes of the
    global header is refused with struct.error. *)
Theorem short_file_is_struct_error fs name content :
  name <> "" ->
  fs name = Some content ->
  bytes_in RAW1_01 (slice content 0 8) = true ->
  blen content < 712 ->
  BrukerData_init fs (Some name) = Err StructError.
Proof.
  intros Hn Hf Hsig Hlen. unfold BrukerData_init.
  destruct name as [| c name]; [ congruence | ].
  unfold get_data_from_file. rewrite Hf. fold RAW1_01. rewrite Hsig. simpl.
  pose proof (get_metta_fixed content 0 BrukerHeader ltac:(lia)
                ltac:(vm_compute; reflexivity)) as G.
  change (extent BrukerHeader) with 712 in G.
  destruct (0 + 712 <=? blen content) eqn:E; [ apply Z.leb_le in E; lia | ].
  rewrite G. reflexivity.
Qed.

(** *** Decoding keeps the schema *)

(** [get_metta] fills in values only: the decoded instance has the keys
    of the schema in the same order, and [label], [typ] and [pos] answer for
    every key as they did before decoding. *)
Theorem get_metta_keeps_schema fc (m m' : attrs) start :
  get_metta fc m start = Ok m' ->
  map fst m' = map fst m
  /\ forall key, label m' key = label m key
                 /\ typ_of m' key = typ_of m key
                 /\ pos m' key = pos m key.
Proof.
  intros H. apply get_metta_schema_eq in H. split.
  - apply (f_equal (map fst)) in H. unfold schema_of in H.
    rewrite !map_map in H. exact H.
  - intros key. pose proof (dict_get_schema key _ _ H) as D.
    unfold label, typ_of, pos.
    destruct (dict_get key m') as [f' |], (dict_get key m) as [f |];
      simpl in D |- *; try discriminate; [ | auto ].
    injection D as -> -> ->. auto.
Qed.

Lemma get_metta_keeps_schema_witness :
  map fst (setitem (setitem (setitem BrukerSupp140 "type" (VInt 140))
                      "length" (VInt 20))
             "comment" (VBytes (list_byte_of_string "hello world!")))
  = map fst BrukerSupp140.
Proof.
  refine (proj1 (get_metta_keeps_schema comment_record BrukerSupp140 _ 0 _)).
  vm_compute. reflexivity.
Defined.

(** After [get_metta] every field of a type other than ['??'] holds what
    [_unpack] reads at the field's position counted from [start_pos], with
    the type of the schema and the byte count the type stands for. *)
Theorem get_metta_decodes_field fc (m m' : attrs) start key f p :
  get_metta fc m start = Ok m' ->
  unique_keys m = true ->
  dict_get key m = Some f ->
  fpos f = Some p ->
  is_var (ftyp f) = false ->
  _unpack fc (p + start) (Some (ftyp f)) (fixed_bits (ftyp f)) = Ok (getitem m' key).
Proof. apply get_metta_field_value. Qed.

Lemma get_metta_decodes_field_witness :
  exists m',
    get_metta comment_record BrukerSupp140 0 = Ok m'
    /\ _unpack comment_record (4 + 0) (Some (TFmt FI)) 4 = Ok (getitem m' "length").
Proof.
  assert (H : exists m', get_metta comment_record BrukerSupp140 0 = Ok m')
    by (eexists; vm_compute; reflexivity).
  destruct H as [m' H]. exists m'. split; [ exact H | ].
  assert (F : exists f, dict_get "length" BrukerSupp140 = Some f
                        /\ fpos f = Some 4 /\ ftyp f = TFmt FI)
    by (eexists; repeat split; reflexivity).
  destruct F as (f & Hf & Hp & Ht).
  pose proof (get_metta_decodes_field comment_record BrukerSupp140 m' 0 "length"
                f 4 H eq_refl Hf Hp) as D.
  rewrite Ht in D. exact (D eq_refl).
Defined.

(** *** The layout of a range *)

(** A decoded range and the cursor behind it: header length,
    supplemental length and step count are unsigned 32-bit ints; the cursor
    advances by [header_len + sup_len + 4 * steps]; there are [steps]
    samples, sample [k] being the binary32 at byte [4 * k] behind the
    supplemental bytes. *)
Theorem get_range_layout fc pos rng pos' :
  get_range fc pos = Ok (rng, pos') ->
  exists h s n,
    getitem (metta rng) "header_len" = VInt h
    /\ getitem (metta rng) "sup_len" = VInt s
    /\ getitem (metta rng) "steps" = VInt n
    /\ 0 <= h < 2 ^ 32 /\ 0 <= s < 2 ^ 32 /\ 0 <= n < 2 ^ 32
    /\ pos' = pos + h + s + 4 * n
    /\ Z.of_nat (length (counts_data rng)) = n
    /\ forall k, 0 <= k < n ->
         nth_error (counts_data rng) (Z.to_nat k)
         = Some (float_of_bits 23 8
                   (le_uint (slice fc (pos + h + s + 4 * k) (pos + h + s + 4 * k + 4)))).
Proof. apply get_range_fields. Qed.

Lemma get_range_layout_witness :
  exists rng pos',
    get_range map_2d 712 = Ok (rng, pos')
    /\ exists h s n,
         getitem (metta rng) "header_len" = VInt h
         /\ getitem (metta rng) "sup_len" = VInt s
         /\ getitem (metta rng) "steps" = VInt n
         /\ pos' = 712 + h + s + 4 * n.
Proof.
  assert (H : exists r, get_range map_2d 712 = Ok r)
    by (eexists; vm_compute; reflexivity).
  destruct H as [[rng pos'] H]. exists rng, pos'. split; [ exact H | ].
  destruct (get_range_layout map_2d 712 rng pos' H)
    as (h & s & n & Hh & Hs & Hn & _ & _ & _ & Hp & _).
  exists h, s, n. auto.
Defined.

(** The supplemental header of a decoded range: absent (the dict
    [{'type': None}]) exactly when [sup_len] is 0; otherwise decoded with the
    schema of one of the eight record types, whose tag is the [type] field
    read behind the range header. *)
Theorem get_range_supplemental fc pos rng pos' :
  get_range fc pos = Ok (rng, pos') ->
  match supmetta rng with
  | SupDict d =>
      d = [("type", VNone)] /\ getitem (metta rng) "sup_len" = VInt 0
  | SupHeader a =>
      exists tag cls s,
        In (tag, cls) supp_classes
        /\ schema_of a = schema_of cls
        /\ getitem a "type" = VInt tag
        /\ getitem (metta rng) "sup_len" = VInt s /\ 0 < s
  end.
Proof. apply get_range_supmetta_cases. Qed.

Lemma get_range_supplemental_witness :
  exists rng pos',
    get_range map_2d 712 = Ok (rng, pos')
    /\ match supmetta rng with
       | SupDict d =>
           d = [("type", VNone)] /\ getitem (metta rng) "sup_len" = VInt 0
       | SupHeader a =>
           exists tag cls s,
             In (tag, cls) supp_classes
             /\ schema_of a = schema_of cls
             /\ getitem a "type" = VInt tag
             /\ getitem (metta rng) "sup_len" = VInt s /\ 0 < s
       end.
Proof.
  assert (H : exists r, get_range map_2d 712 = Ok r)
    by (eexists; vm_compute; reflexivity).
  destruct H as [[rng pos'] H]. exists rng, pos'. split; [ exact H | ].
  exact (get_range_supplemental map_2d 712 rng pos' H).
Defined.

(** *** Witnesses of the dataset invariants *)

Lemma decoded_ranges_samples_witness :
  Forall (fun rng => exists n, getitem (metta rng) "steps" = VInt n
                               /\ 0 < n < 2 ^ 32
                               /\ Z.of_nat (length (counts_data rng)) = n)
         (rngs (decoded scan_gap)).
Proof.
  apply (decoded_ranges_samples (one_file "scan.raw" scan_gap) "scan.raw");
    [ discriminate | vm_compute; reflexivity ].
Defined.

Lemma range_cnt_is_number_of_ranges_witness :
  exists h, header (decoded scan_gap) = Some h
            /\ getitem h "range_cnt" = VInt (Z.of_nat (length (rngs (decoded scan_gap)))).
Proof.
  apply (range_cnt_is_number_of_ranges (one_file "scan.raw" scan_gap) "scan.raw");
    [ discriminate | vm_compute; reflexivity ].
Defined.

Lemma area_map_ranges_are_type_200_witness :
  Forall (fun rng => exists a, supmetta rng = SupHeader a
                               /\ getitem a "type" = VInt 200
                               /\ schema_of a = schema_of BrukerSupp200)
         (rngs (decoded map_2d)).
Proof.
  assert (H : exists m, smap (decoded map_2d) = Some m)
    by (eexists; vm_compute; reflexivity).
  destruct H as [m H].
  apply (area_map_ranges_are_type_200 (one_file "scan.raw" map_2d) "scan.raw" _ m);
    [ discriminate | vm_compute; reflexivity | exact H ].
Defined.

Lemma fixed_schema_decodes_iff_witness :
  ((exists m', get_metta scan_1d BrukerHeader 0 = Ok m')
   <-> 0 + extent BrukerHeader <= blen scan_1d)
  /\ (blen scan_1d < 0 + extent BrukerHeader
      -> get_metta scan_1d BrukerHeader 0 = Err StructError).
Proof.
  apply (fixed_schema_decodes_iff scan_1d 0 BrukerHeader);
    [ lia | vm_compute; reflexivity ].
Defined.

Lemma short_file_is_struct_error_witness :
  BrukerData_init (one_file "scan.raw" (RAW1_01 ++ zeros 100)) (Some "scan.raw")
  = Err StructError.
Proof.
  apply (short_file_is_struct_error _ "scan.raw" (RAW1_01 ++ zeros 100));
    [ discriminate | reflexivity | vm_compute; reflexivity | vm_compute; reflexivity ].
Defined.

(** ** Coordinate lookups *)

(** *** The order of distances *)

Lemma SFleb_finite_iff m1 e1 m2 e2 :
  SFleb (S754_finite false m1 e1) (S754_finite false m2 e2) = true
  <-> e1 < e2 \/ (e1 = e2 /\ Z.pos m1 <= Z.pos m2).
Proof.
  unfold SFleb, SFcompare.
  destruct (Z.compare_spec e1 e2) as [E | E | E].
  - change (Pos.compare_cont Eq m1 m2) with (Pos.compare m1 m2).
    destruct (Pos.compare_spec m1 m2) as [M | M | M]; split; intros H;
      try discriminate; try reflexivity; try lia.
  - split; [ lia | reflexivity ].
  - split; [ discriminate | lia ].
Qed.

Lemma SFleb_nonneg_refl x : nonneg_sf x -> SFleb x x = true.
Proof.
  intros [H | H].
  - unfold zero_sf in H. subst. reflexivity.
  - destruct x as [s | s | | s m e]; try contradiction; destruct s; try contradiction.
    + reflexivity.
    + apply SFleb_finite_iff. lia.
Qed.

Lemma SFleb_nonneg_total x y :
  nonneg_sf x -> nonneg_sf y -> SFleb x y = false -> SFleb y x = true.
Proof.
  intros [Hx | Hx] [Hy | Hy]; unfold zero_sf in *; subst;
    try destruct x as [[] | [] | | [] mx ex]; try contradiction;
    try destruct y as [[] | [] | | [] my ey]; try contradiction;
    try (intros; reflexivity); try (intros H; discriminate H).
  intros H. apply SFleb_finite_iff.
  destruct (SFleb (S754_finite false mx ex) (S754_finite false my ey)) eqn:E;
    [ discriminate | ].
  destruct (Z.lt_trichotomy ex ey) as [L | [L | L]]; [ | | lia ].
  - assert (T : SFleb (S754_finite false mx ex) (S754_finite false my ey) = true)
      by (apply SFleb_finite_iff; lia).
    congruence.
  - destruct (Z.le_gt_cases (Z.pos mx) (Z.pos my)) as [M | M]; [ | lia ].
    assert (T : SFleb (S754_finite false mx ex) (S754_finite false my ey) = true)
      by (apply SFleb_finite_iff; lia).
    congruence.
Qed.

Lemma SFleb_nonneg_trans x y z :
  nonneg_sf x -> nonneg_sf y -> nonneg_sf z ->
  SFleb x y = true -> SFleb y z = true -> SFleb x z = true.
Proof.
  intros [Hx | Hx] [Hy | Hy] [Hz | Hz]; unfold zero_sf in *; subst;
    try destruct x as [[] | [] | | [] mx ex]; try contradiction;
    try destruct y as [[] | [] | | [] my ey]; try contradiction;
    try destruct z as [[] | [] | | [] mz ez]; try contradiction;
    try (intros; reflexivity); try (intros H; discriminate H);
    try (intros _ H; discriminate H).
  rewrite !SFleb_finite_iff. lia.
Qed.

Lemma dist_leb_refl d : is_dist d -> (d <=? d)%float = true.
Proof. intros H. rewrite FloatAxioms.leb_spec. now apply SFleb_nonneg_refl. Qed.

Lemma dist_leb_total a b :
  is_dist a -> is_dist b -> (a <=? b)%float = false -> (b <=? a)%float = true.
Proof. rewrite !FloatAxioms.leb_spec. apply SFleb_nonneg_total. Qed.

Lemma dist_leb_trans a b c :
  is_dist a -> is_dist b -> is_dist c ->
  (a <=? b)%float = true -> (b <=? c)%float = true -> (a <=? c)%float = true.
Proof. rewrite !FloatAxioms.leb_spec. apply SFleb_nonneg_trans. Qed.

(** *** The position [argmin] returns *)



(** Among distances the scan ends on a least one: on the best seen before,
    if none of the rest is smaller, and else on an entry of the rest. *)
Lemma argmin_from_least l :
  forall i best mp,
    is_dist mp -> Forall is_dist l ->
    exists least,
      is_dist least
      /\ (least <=? mp)%float = true
      /\ (forall w, In w l -> (least <=? w)%float = true)
      /\ ((argmin_from l i best mp = best /\ least = mp)
          \/ exists k, argmin_from l i best mp = (i + k)%nat
                       /\ nth_error l k = Some least).
Proof.
  induction l as [| v l IH]; intros i best mp Hmp Hl; simpl.
  - exists mp. split; [ exact Hmp | ]. split; [ now apply dist_leb_refl | ].
    split; [ contradiction | left; auto ].
  - inversion Hl as [| ? ? Hv Hl']; subst.
    destruct (mp <=? v)%float eqn:E; simpl.
    + destruct (IH (S i) best mp Hmp Hl') as (least & Hd & H1 & H2 & H3).
      exists least. split; [ exact Hd | ]. split; [ exact H1 | ]. split.
      * intros w [<- | Hw]; [ | auto ].
        apply (dist_leb_trans least mp v); auto.
      * destruct H3 as [H3 | (k & H3 & H4)]; [ left; exact H3 | ].
        right. exists (S k). split; [ rewrite H3; lia | exact H4 ].
    + rewrite (dist_not_nan v Hv).
      destruct (IH (S i) i v Hv Hl') as (least & Hd & H1 & H2 & H3).
      pose proof (dist_leb_total mp v Hmp Hv E) as T.
      exists least. split; [ exact Hd | ]. split.
      * apply (dist_leb_trans least v mp); auto.
      * split.
        -- intros w [<- | Hw]; auto.
        -- right. destruct H3 as [[H3 ->] | (k & H3 & H4)].
           ++ exists 0%nat. split; [ rewrite H3; lia | reflexivity ].
           ++ exists (S k). split; [ rewrite H3; lia | exact H4 ].
Qed.

Lemma argmin_least l k :
  Forall is_dist l -> argmin l = Ok k ->
  exists least, nth_error l k = Some least
                /\ forall w, In w l -> (least <=? w)%float = true.
Proof.
  destruct l as [| a l]; simpl; [ discriminate | ].
  intros Hl H. inversion Hl as [| ? ? Ha Hl']; subst.
  rewrite (dist_not_nan a Ha) in H. injection H as <-.
  destruct (argmin_from_least l 1 0 a Ha Hl') as (least & Hd & H1 & H2 & H3).
  exists least. split.
  - destruct H3 as [[-> ->] | (k & -> & H4)]; [ reflexivity | exact H4 ].
  - intros w [<- | Hw]; auto.
Qed.

Lemma dists_are_dists l v :
  Forall (fun e => is_finite e = true) l -> is_finite v = true ->
  Forall is_dist (map (fun e => abs (e - v))%float l).
Proof.
  intros Hl Hv. induction Hl as [| e l He Hl IH]; simpl; constructor; auto.
  destruct (abs_sub_finite e v He Hv) as [Z P].
  destruct (e =? v)%float; [ left; apply Z; reflexivity | right; apply P; reflexivity ].
Qed.

Lemma argmin_total l : l <> [] -> exists k, argmin l = Ok k.
Proof. destruct l; [ congruence | simpl; eauto ]. Qed.

(** One coordinate: the position returned holds an entry at the least
    distance from the query. *)
Lemma nearest_index_least l v :
  Forall (fun e => is_finite e = true) l -> is_finite v = true ->
  answered l v ->
  exists k e,
    nearest_index (NdArray l) v = Ok (Z.of_nat k)
    /\ nth_error l k = Some e
    /\ forall e', In e' l -> (dist e v <=? dist e' v)%float = true.
Proof.
  intros Hl Hv Ha.
  destruct (argmin_total (map (fun e => abs (e - v))%float l)) as [k Hk].
  { destruct l; [ contradiction | discriminate ]. }
  destruct (argmin_least _ _ (dists_are_dists l v Hl Hv) Hk) as (least & Hn & Hmin).
  rewrite nth_error_map in Hn.
  destruct (nth_error l k) as [e |] eqn:En; [ | discriminate ].
  simpl in Hn. injection Hn as <-.
  exists k, e. split; [ | split; [ exact En | ] ].
  - unfold nearest_index. rewrite Hk. simpl.
    destruct l as [| a0 [| a1 l]]; [ contradiction | | reflexivity ].
    simpl in Ha. rewrite Ha. reflexivity.
  - intros e' He'. apply Hmin. apply in_map_iff. exists e'. auto.
Qed.

(** *** Positions and the values behind them *)

Lemma axis_getitem_nth a k e :
  nth_error (axis_values a) k = Some e -> axis_getitem a (Z.of_nat k) = Ok e.
Proof.
  intros H. unfold axis_getitem.
  assert (L : (k < length (axis_values a))%nat)
    by (apply nth_error_Some; congruence).
  replace ((- Z.of_nat (length (axis_values a)) <=? Z.of_nat k)
           && (Z.of_nat k <? Z.of_nat (length (axis_values a)))) with true
    by (symmetry; apply andb_true_iff; split; [ apply Z.leb_le | apply Z.ltb_lt ]; lia).
  replace (Z.of_nat k <? 0) with false by (symmetry; apply Z.ltb_ge; lia).
  rewrite Nat2Z.id, H. reflexivity.
Qed.

Lemma axis_getitem_beyond a k :
  Z.of_nat (length (axis_values a)) <= k -> axis_getitem a k = Err IndexError.
Proof.
  intros H. unfold axis_getitem.
  replace (k <? Z.of_nat (length (axis_values a))) with false
    by (symmetry; apply Z.ltb_ge; lia).
  now rewrite andb_false_r.
Qed.


Lemma forallb_finite l :
  forallb is_finite l = true -> Forall (fun e => is_finite e = true) l.
Proof.
  induction l as [| e l IH]; simpl; [ constructor | ].
  rewrite andb_true_iff. intros [H1 H2]. constructor; auto.
Qed.





(** On axes of finite numbers a finite query is answered with the positions
    of nearest entries: reading the axes at the returned positions gives an
    entry of each axis whose distance from the query no entry undercuts.
    (The positions are passed on as Python ints.) *)
Theorem lookup_returns_nearest self lx ly qx qy :
  x self = NdArray lx -> y self = NdArray ly ->
  Forall (fun e => is_finite e = true) lx ->
  Forall (fun e => is_finite e = true) ly ->
  is_finite qx = true -> is_finite qy = true ->
  answered lx qx -> answered ly qy ->
  exists i j ex ey,
    get_index_xy self qx qy = Ok (i, j)
    /\ get_real_xy self (CNum (PInt i)) (CNum (PInt j)) = Ok (RNum ex, RNum ey)
    /\ In ex lx /\ In ey ly
    /\ (forall e, In e lx -> (dist ex qx <=? dist e qx)%float = true)
    /\ (forall e, In e ly -> (dist ey qy <=? dist e qy)%float = true).
Proof.
  intros Ex Ey Fx Fy Qx Qy Ax Ay.
  destruct (nearest_index_least lx qx Fx Qx Ax) as (i & ex & Hi & Ni & Mi).
  destruct (nearest_index_least ly qy Fy Qy Ay) as (j & ey & Hj & Nj & Mj).
  exists (Z.of_nat i), (Z.of_nat j), ex, ey.
  split; [ unfold get_index_xy; rewrite Ex, Ey, Hj, Hi; reflexivity | ].
  split.
  - unfold get_real_xy, real_of, py_int. cbn [bind].
    rewrite (axis_getitem_nth (x self) i ex) by (rewrite Ex; exact Ni).
    rewrite (axis_getitem_nth (y self) j ey) by (rewrite Ey; exact Nj).
    reflexivity.
  - split; [ eapply nth_error_In; eauto | ].
    split; [ eapply nth_error_In; eauto | auto ].
Qed.

Lemma lookup_returns_nearest_witness :
  exists i j ex ey,
    get_index_xy (decoded map_2d) 12.25 177 = Ok (i, j)
    /\ get_real_xy (decoded map_2d) (CNum (PInt i)) (CNum (PInt j))
       = Ok (RNum ex, RNum ey)
    /\ In ex (axis_values (x (decoded map_2d)))
    /\ In ey (axis_values (y (decoded map_2d)))
    /\ (forall e, In e (axis_values (x (decoded map_2d))) ->
                  (dist ex 12.25 <=? dist e 12.25)%float = true)
    /\ (forall e, In e (axis_values (y (decoded map_2d))) ->
                  (dist ey 177 <=? dist e 177)%float = true).
Proof.
  apply (lookup_returns_nearest (decoded map_2d));
    try (vm_compute; reflexivity);
    try (apply forallb_finite; vm_compute; reflexivity);
    exact I.
Defined.

(** The position 1 that a one-entry axis returns for a query above its entry
    cannot be read back: [get_real_xy] raises IndexError at it. *)
Theorem single_entry_position_is_unreadable self a0 qx qy i j cy :
  x self = NdArray [a0] ->
  (a0 <? qx)%float = true ->
  get_index_xy self qx qy = Ok (i, j) ->
  get_real_xy self (CNum (PInt i)) cy = Err IndexError.
Proof.
  intros Ex Hlt H. unfold get_index_xy in H. bind_as H yo Hy. bind_as H xo Hx.
  injection H as <- <-. rewrite Ex in Hx. simpl in Hx. rewrite Hlt in Hx.
  injection Hx as <-.
  unfold get_real_xy, real_of, py_int. cbn [bind].
  rewrite (axis_getitem_beyond (x self) 1) by (rewrite Ex; simpl; lia).
  reflexivity.
Qed.

Lemma single_entry_position_is_unreadable_witness :
  get_real_xy (mkData None None [] (NdArray [10%float]) (NdArray [0%float; 5%float]) None)
    (CNum (PInt 1)) CNone
  = Err IndexError.
Proof.
  apply (single_entry_position_is_unreadable _ 10 12 3 1 1 CNone);
    [ reflexivity | vm_compute; reflexivity | vm_compute; reflexivity ].
Defined.

(** ** Integration *)

(** *** Sums over a region of the matrix *)

Lemma seq_slice_full {A} (l : list A) : seq_slice l 0 (Z.of_nat (length l)) = l.
Proof.
  unfold seq_slice.
  assert (E0 : py_index (Z.of_nat (length l)) 0 = 0)
    by (unfold py_index; change (0 <? 0) with false; cbv iota; lia).
  assert (E1 : py_index (Z.of_nat (length l)) (Z.of_nat (length l))
               = Z.of_nat (length l)).
  { unfold py_index.
    destruct (Z.of_nat (length l) <? 0) eqn:E; [ apply Z.ltb_lt in E; lia | lia ]. }
  rewrite E0, E1, Z.sub_0_r, Nat2Z.id. simpl. apply firstn_all.
Qed.

Lemma seq_slice_length {A} (l : list A) lo hi :
  length (seq_slice l lo hi)
  = Z.to_nat (py_index (Z.of_nat (length l)) hi - py_index (Z.of_nat (length l)) lo).
Proof.
  unfold seq_slice. rewrite length_firstn, length_skipn.
  assert (B : forall i, 0 <= py_index (Z.of_nat (length l)) i <= Z.of_nat (length l)).
  { intros i. unfold py_index. destruct (i <? 0) eqn:E; [ lia | ].
    apply Z.ltb_ge in E. lia. }
  pose proof (B lo). pose proof (B hi). lia.
Qed.

Lemma seq_slice_length_eq {A B} (l : list A) (l' : list B) lo hi :
  length l = length l' -> length (seq_slice l lo hi) = length (seq_slice l' lo hi).
Proof. intros H. rewrite !seq_slice_length, H. reflexivity. Qed.

Lemma wrap64_mod z : wrap64 z mod 2 ^ 64 = z mod 2 ^ 64.
Proof.
  unfold wrap64, to_signed.
  pose proof (Z.mod_pos_bound z (2 ^ 64) ltac:(lia)) as B.
  destruct (z mod 2 ^ 64 <? 2 ^ (64 - 1)).
  - apply Z.mod_mod. lia.
  - replace (z mod 2 ^ 64 - 2 ^ 64) with (z mod 2 ^ 64 + (-1) * 2 ^ 64) by lia.
    rewrite Z.mod_add by lia. apply Z.mod_mod. lia.
Qed.

Lemma wrap64_eq a b : a mod 2 ^ 64 = b mod 2 ^ 64 -> wrap64 a = wrap64 b.
Proof. unfold wrap64. now intros ->. Qed.

Lemma wrap64_small z : - 2 ^ 63 <= z < 2 ^ 63 -> wrap64 z = z.
Proof.
  intros H. unfold wrap64, to_signed. change (64 - 1) with 63.
  destruct (Z.neg_nonneg_cases z) as [N | N].
  - replace (z mod 2 ^ 64) with (z + 2 ^ 64)
      by (apply Z.mod_unique with (q := -1); lia).
    destruct (z + 2 ^ 64 <? 2 ^ 63) eqn:E; [ apply Z.ltb_lt in E; lia | lia ].
  - rewrite Z.mod_small by lia.
    destruct (z <? 2 ^ 63) eqn:E; [ reflexivity | apply Z.ltb_ge in E; lia ].
Qed.

Lemma total_app a b : total (a ++ b) = total a + total b.
Proof. induction a as [| v a IH]; simpl; [ reflexivity | rewrite IH; lia ]. Qed.

Lemma total_repeat_0 n : total (repeat 0 n) = 0.
Proof. induction n; simpl; auto. Qed.

Lemma total_map_wrap64 {A} (f : A -> Z) (l : list A) :
  total (map (fun v => wrap64 (f v)) l) mod 2 ^ 64 = total (map f l) mod 2 ^ 64.
Proof.
  induction l as [| v l IH]; simpl; [ reflexivity | ].
  rewrite Z.add_mod, wrap64_mod, IH, <- Z.add_mod by lia. reflexivity.
Qed.

Lemma total_nth_seq (row : list Z) :
  total (map (fun j => nth j row 0) (seq 0 (length row))) = total row.
Proof.
  induction row as [| v row IH]; simpl; [ reflexivity | ].
  rewrite <- seq_shift, map_map. simpl. now rewrite IH.
Qed.

Lemma total_map_add {A} (f g : A -> Z) (l : list A) :
  total (map (fun v => f v + g v) l) = total (map f l) + total (map g l).
Proof. induction l as [| v l IH]; simpl; [ reflexivity | rewrite IH; lia ]. Qed.

Lemma total_map_0 {A} (l : list A) : total (map (fun _ => 0) l) = 0.
Proof. induction l as [| v l IH]; simpl; auto. Qed.

(** Summing a matrix by columns and by rows gives the same total. *)
Lemma total_exchange (w : nat) (b : list (list Z)) :
  rectangular w b ->
  total (map (fun j => total (map (fun row => nth j row 0) b)) (seq 0 w))
  = total (map total b).
Proof.
  induction 1 as [| row b Hrow Hb IH]; simpl.
  - apply total_map_0.
  - rewrite (total_map_add (fun j => nth j row 0)), IH.
    rewrite <- Hrow at 1. now rewrite total_nth_seq.
Qed.

Lemma box_rectangular w m x1 y1 x2 y2 :
  rectangular w m ->
  rectangular (length (seq_slice (seq 0 w) x1 x2)) (box m x1 y1 x2 y2).
Proof.
  intros H. unfold box, rectangular. apply List.Forall_map.
  assert (S : Forall (fun row : list Z => length row = w) (seq_slice m y1 y2)).
  { unfold seq_slice. apply list.Forall_take, list.Forall_drop. exact H. }
  eapply List.Forall_impl; [ | exact S ]. simpl. intros row Hrow.
  apply seq_slice_length_eq. now rewrite length_seq.
Qed.

Lemma ncols_rectangular w m : rectangular w m -> m <> [] -> ncols m = Z.of_nat w.
Proof.
  intros H Hm. destruct m as [| row m]; [ congruence | ].
  inversion H; subst. reflexivity.
Qed.

Lemma rectangular_ncols w m : rectangular w m -> rectangular (Z.to_nat (ncols m)) m.
Proof.
  intros H. destruct m as [| row m]; [ constructor | ].
  rewrite (ncols_rectangular w) by (auto; discriminate).
  now rewrite Nat2Z.id.
Qed.

Lemma area_bounds_inv self a x1 y1 x2 y2 :
  area_bounds self a = Done (x1, y1, x2, y2) ->
  (a = AreaAll /\ exists m, smap self = Some m
                            /\ (x1, y1, x2, y2) = (0, 0, ncols m, Z.of_nat (length m)))
  \/ a = AreaSeq [x1; y1; x2; y2].
Proof.
  unfold area_bounds. destruct a as [| l].
  - destruct (smap self) as [m |]; [ | discriminate ].
    intros H. injection H as <- <- <- <-. left. eauto.
  - destruct l as [| a [| b [| c [| d [| e l]]]]]; try discriminate.
    intros H. injection H as <- <- <- <-. now right.
Qed.

(** [integrate_2d] returns exactly when the dataset has a matrix, the axis
    is ['x'] or ['y'], and the area is ['all'] or has four entries; a box
    that reaches beyond the matrix is no error. *)
Theorem integrate_2d_returns_iff self a axis :
  (exists line, integrate_2d self a axis = Done line)
  <-> (exists m, smap self = Some m)
      /\ (axis = "x" \/ axis = "y")
      /\ (a = AreaAll \/ exists x1 y1 x2 y2, a = AreaSeq [x1; y1; x2; y2]).
Proof.
  unfold integrate_2d. split.
  - intros [line H].
    destruct (area_bounds self a) as [[[[x1 y1] x2] y2] | e] eqn:B; [ | discriminate ].
    assert (A : a = AreaAll \/ exists x1 y1 x2 y2, a = AreaSeq [x1; y1; x2; y2]).
    { destruct (area_bounds_inv _ _ _ _ _ _ B) as [[-> _] | ->]; [ now left | ].
      right. eauto. }
    destruct (String.eqb axis "x") eqn:Ex.
    + apply String.eqb_eq in Ex.
      destruct (smap self) as [m |]; [ | discriminate ]. eauto.
    + destruct (String.eqb axis "y") eqn:Ey; [ | discriminate ].
      apply String.eqb_eq in Ey.
      destruct (smap self) as [m |]; [ | discriminate ]. eauto.
  - intros ([m Hm] & Hax & Ha).
    assert (B : exists b, area_bounds self a = Done b).
    { unfold area_bounds. destruct Ha as [-> | (x1 & y1 & x2 & y2 & ->)].
      - rewrite Hm. eauto.
      - eauto. }
    destruct B as [[[[x1 y1] x2] y2] ->]. rewrite Hm.
    destruct Hax as [-> | ->]; simpl; eauto.
Qed.

Lemma integrate_2d_returns_iff_witness :
  exists line, integrate_2d (decoded map_2d) (AreaSeq [1; 0; 100; -1]) "x" = Done line.
Proof.
  apply (proj2 (integrate_2d_returns_iff (decoded map_2d) (AreaSeq [1; 0; 100; -1]) "x")).
  split; [ eexists; vm_compute; reflexivity | ].
  split; [ now left | right; eauto ].
Defined.

(** Over any area of a rectangular matrix the profile along x and the
    profile along y add up to the same int64 total. *)
Theorem integrate_2d_totals_agree self m w a line_x line_y :
  smap self = Some m ->
  rectangular w m ->
  integrate_2d self a "x" = Done line_x ->
  integrate_2d self a "y" = Done line_y ->
  wrap64 (total line_x) = wrap64 (total line_y).
Proof.
  unfold integrate_2d. intros Hm Hr Hx Hy.
  destruct (area_bounds self a) as [[[[x1 y1] x2] y2] | e]; [ | discriminate ].
  rewrite Hm in Hx, Hy. simpl in Hx, Hy.
  injection Hx as <-. injection Hy as <-.
  pose proof (box_rectangular _ _ x1 y1 x2 y2 (rectangular_ncols _ _ Hr)) as Hb.
  unfold sum_axis0, sum_axis1. apply wrap64_eq.
  rewrite (total_map_wrap64 (fun j => total (map (fun row => nth j row 0)
                                                  (box m x1 y1 x2 y2)))).
  rewrite (total_map_wrap64 total).
  now rewrite (total_exchange _ _ Hb).
Qed.

Lemma integrate_2d_totals_agree_witness :
  exists line_x line_y,
    integrate_2d (decoded map_2d) (AreaSeq [1; 0; 4; 2]) "x" = Done line_x
    /\ integrate_2d (decoded map_2d) (AreaSeq [1; 0; 4; 2]) "y" = Done line_y
    /\ wrap64 (total line_x) = wrap64 (total line_y).
Proof.
  eexists. eexists. split; [ vm_compute; reflexivity | ].
  split; [ vm_compute; reflexivity | ].
  apply (integrate_2d_totals_agree (decoded map_2d)
           [[1; 2; 3; 0; 0]; [1; 2; 3; 4; 5]] 5 (AreaSeq [1; 0; 4; 2]));
    [ vm_compute; reflexivity | repeat constructor
    | vm_compute; reflexivity | vm_compute; reflexivity ].
Defined.

(** *** Profiles of a decoded area map *)

Lemma nth_padded_row w rng j :
  nth j (padded_row w rng) 0 = nth j (map int64_of_float (counts_data rng)) 0.
Proof.
  unfold padded_row.
  destruct (Nat.lt_ge_cases j (length (map int64_of_float (counts_data rng)))) as [L | L].
  - now rewrite app_nth1.
  - rewrite app_nth2 by exact L. rewrite (nth_overflow _ _ L).
    generalize (j - length (map int64_of_float (counts_data rng)))%nat as k.
    generalize (Z.to_nat w - length (counts_data rng))%nat as n.
    induction n as [| n IH]; intros [| k]; simpl; auto.
Qed.

Lemma total_padded_row w rng :
  total (padded_row w rng) = total (map int64_of_float (counts_data rng)).
Proof. unfold padded_row. rewrite total_app, total_repeat_0. lia. Qed.

Lemma box_all m w :
  rectangular w m -> box m 0 0 (Z.of_nat w) (Z.of_nat (length m)) = m.
Proof.
  intros H. unfold box. rewrite seq_slice_full.
  induction H as [| row m Hrow Hm IH]; simpl; [ reflexivity | ].
  rewrite IH. f_equal. rewrite <- Hrow. apply seq_slice_full.
Qed.

(** Integrating all of a decoded area map: the profile along y has one entry
    per range, the int64 sum of that range's samples as the matrix holds
    them (cut to integers); the profile along x has one entry per point of
    the angular axis, entry [j] being the sum over the ranges of their
    sample [j], a range too short for [j] adding nothing. *)
Theorem integrate_2d_all_of_area_map fs name d m :
  name <> "" ->
  BrukerData_init fs (Some name) = Ok d ->
  smap d = Some m ->
  integrate_2d d AreaAll "y"
  = Done (map (fun rng => wrap64 (total (map int64_of_float (counts_data rng))))
              (rngs d))
  /\ integrate_2d d AreaAll "x"
     = Done (map (fun j => wrap64 (total (map (fun rng =>
                                 nth j (map int64_of_float (counts_data rng)) 0)
                               (rngs d))))
                 (seq 0 (length (axis_values (x d))))).
Proof.
  intros Hn H Hm.
  destruct (BrukerData_init_axes _ _ _ Hn H) as (rng0 & rest & Hr & _ & H2).
  destruct (H2 m Hm) as (xs & ys & Hg & Hx & Hy).
  destruct (get_smap_rows _ _ _ _ Hg) as (w & Hw & Em & Lm & Rm & _).
  destruct (get_smap_axes _ _ _ _ Hg) as (w' & Hw' & Lx & _).
  assert (w' = w) by congruence. subst w'.
  assert (Hne : m <> []) by (intros ->; rewrite Hr in Lm; discriminate).
  assert (Rect : rectangular (Z.to_nat w) m) by exact Rm.
  pose proof (ncols_rectangular _ _ Rect Hne) as Nc.
  unfold integrate_2d, area_bounds. rewrite Hm. simpl.
  rewrite Nc, (box_all _ _ Rect). split.
  - f_equal. unfold sum_axis1. rewrite Em, map_map.
    apply map_ext. intros rng. now rewrite total_padded_row.
  - f_equal. unfold sum_axis0. rewrite Nat2Z.id.
    replace (Z.of_nat (Z.to_nat w)) with (Z.of_nat (length (seq 0 (Z.to_nat w))))
      by (now rewrite length_seq).
    rewrite seq_slice_full, length_seq, Hx. simpl axis_values. rewrite Lx.
    apply map_ext. intros j. f_equal. rewrite Em, map_map. f_equal.
    apply map_ext. intros rng. apply nth_padded_row.
Qed.

Lemma integrate_2d_all_of_area_map_witness :
  integrate_2d (decoded map_2d) AreaAll "y"
  = Done (map (fun rng => wrap64 (total (map int64_of_float (counts_data rng))))
              (rngs (decoded map_2d)))
  /\ integrate_2d (decoded map_2d) AreaAll "x"
     = Done (map (fun j => wrap64 (total (map (fun rng =>
                                 nth j (map int64_of_float (counts_data rng)) 0)
                               (rngs (decoded map_2d)))))
                 (seq 0 (length (axis_values (x (decoded map_2d)))))).
Proof.
  assert (H : exists m, smap (decoded map_2d) = Some m)
    by (eexists; vm_compute; reflexivity).
  destruct H as [m H].
  apply (integrate_2d_all_of_area_map (one_file "scan.raw" map_2d) "scan.raw" _ m);
    [ discriminate | vm_compute; reflexivity | exact H ].
Defined.

(** ** Schemas and sums of datasets *)

(** *** Keys added after construction *)

Lemma positions_new_key (a : attrs) key f :
  fpos f = None -> positions (a ++ [(key, f)]) = Err IndexError.
Proof.
  intros Hf. induction a as [| [k g] a IH]; simpl.
  - now rewrite Hf.
  - destruct (fpos g); [ | reflexivity ]. now rewrite IH.
Qed.

Lemma dict_get_new_key key f (a : attrs) :
  has_key key a = false -> dict_get key (a ++ [(key, f)]) = Some f.
Proof.
  unfold has_key. induction a as [| [k g] a IH]; simpl.
  - now rewrite String.eqb_refl.
  - destruct (String.eqb key k); [ discriminate | exact IH ].
Qed.

(** A key stored with [__setitem__] that the schema did not have gets the
    entry [[item, key, len]]: its label is the key and its type the former
    number of entries, and it has no position, so that [pos] raises
    IndexError, and so do iteration and decoding of the schema from then
    on. *)
Theorem new_key_has_no_position (a : attrs) key item :
  has_key key a = false ->
  getitem (setitem a key item) key = item
  /\ label (setitem a key item) key = Some key
  /\ typ_of (setitem a key item) key = Some (TStr (len a))
  /\ pos (setitem a key item) key = Err IndexError
  /\ (forall index, next (setitem a key item) index = Err IndexError)
  /\ (forall fc start, get_metta fc (setitem a key item) start = Err IndexError).
Proof.
  intros H. unfold setitem. rewrite H.
  set (f := mkField item key (TStr (Z.of_nat (length a))) None).
  assert (D : dict_get key (a ++ [(key, f)]) = Some f)
    by now apply dict_get_new_key.
  assert (S : sorted_keys (a ++ [(key, f)]) = Err IndexError).
  { unfold sorted_keys. now rewrite positions_new_key. }
  unfold getitem, label, typ_of, pos, next, get_metta. rewrite D, S.
  repeat split.
Qed.

Lemma new_key_has_no_position_witness :
  pos (setitem BrukerHeader "operator" (VBytes [])) "operator" = Err IndexError.
Proof.
  apply (new_key_has_no_position BrukerHeader "operator" (VBytes []) eq_refl).
Defined.

(** *** The order of iteration *)

Lemma insert_by_pos_perm_pairs k p l : Permutation (insert_by_pos k p l) ((k, p) :: l).
Proof.
  induction l as [| [k' p'] l IH]; simpl; [ reflexivity | ].
  destruct (p <? p'); [ reflexivity | ].
  rewrite IH. apply perm_swap.
Qed.

Lemma insert_by_pos_sorted k p l :
  sorted_by_pos l -> sorted_by_pos (insert_by_pos k p l).
Proof.
  induction l as [| [k' p'] l IH]; simpl.
  - intros _. split; [ constructor | exact I ].
  - intros [F S]. destruct (p <? p') eqn:E.
    + apply Z.ltb_lt in E. simpl. split; [ | split; assumption ].
      constructor; [ simpl; lia | ].
      eapply List.Forall_impl; [ | exact F ]. simpl. intros kp. lia.
    + apply Z.ltb_ge in E. simpl. split; [ | auto ].
      eapply Permutation_Forall; [ symmetry; apply insert_by_pos_perm_pairs | ].
      constructor; [ simpl; lia | exact F ].
Qed.

Lemma insertion_sort_spec l :
  forall acc,
    sorted_by_pos acc ->
    sorted_by_pos (fold_left (fun acc kp => insert_by_pos (fst kp) (snd kp) acc) l acc)
    /\ Permutation (fold_left (fun acc kp => insert_by_pos (fst kp) (snd kp) acc) l acc)
         (l ++ acc).
Proof.
  induction l as [| [k p] l IH]; intros acc S; simpl.
  - split; [ exact S | reflexivity ].
  - destruct (IH (insert_by_pos k p acc) (insert_by_pos_sorted k p acc S)) as [S' P].
    split; [ exact S' | ].
    rewrite P, insert_by_pos_perm_pairs. symmetry. apply Permutation_middle.
Qed.

Lemma sorted_by_pos_nth l :
  sorted_by_pos l ->
  forall i j a b, (i < j)%nat -> nth_error l i = Some a -> nth_error l j = Some b ->
                  snd a <= snd b.
Proof.
  induction l as [| kp l IH]; intros S i j a b Hij Ha Hb.
  - destruct i; discriminate.
  - destruct S as [F S]. destruct j as [| j]; [ lia | ].
    simpl in Hb. destruct i as [| i].
    + simpl in Ha. injection Ha as <-.
      rewrite List.Forall_forall in F. apply F. eapply nth_error_In; eauto.
    + simpl in Ha. apply (IH S i j); auto. lia.
Qed.

Lemma positions_In (a : attrs) l k p :
  positions a = Ok l -> In (k, p) l -> exists f, In (k, f) a /\ fpos f = Some p.
Proof.
  revert l. induction a as [| [k' f'] a IH]; intros l H Hin; simpl in H.
  - injection H as <-. contradiction.
  - destruct (fpos f') as [p' |] eqn:E; [ | discriminate ].
    bind_as H l' Hl. injection H as <-.
    destruct Hin as [Hin | Hin].
    + injection Hin as <- <-. exists f'. split; [ now left | exact E ].
    + destruct (IH _ Hl Hin) as (f & Hf & Hp). exists f. split; [ now right | exact Hp ].
Qed.

(** Iterating over a schema ([__iter__], then [__next__] until
    StopIteration) yields every key once, in non-decreasing order of the
    positions the schema gives the keys. *)
Theorem iteration_follows_positions (a : attrs) keys :
  unique_keys a = true ->
  sorted_keys a = Ok keys ->
  Permutation keys (map fst a)
  /\ (forall i key, nth_error keys i = Some key ->
                    next a (Z.of_nat i - 1) = Ok (Some (key, Z.of_nat i)))
  /\ next a (Z.of_nat (length keys) - 1) = Ok None
  /\ forall i j ki kj pi pj,
       (i < j)%nat ->
       nth_error keys i = Some ki -> nth_error keys j = Some kj ->
       pos a ki = Ok (Some pi) -> pos a kj = Ok (Some pj) ->
       pi <= pj.
Proof.
  intros U H.
  split; [ now apply sorted_keys_perm | ].
  split; [ intros i key Hk; rewrite (next_visits_sorted_keys a keys i H), Hk; reflexivity | ].
  split.
  { rewrite (next_visits_sorted_keys a keys (length keys) H).
    replace (nth_error keys (length keys)) with (@None string)
      by (symmetry; apply nth_error_None; lia).
    now rewrite Nat.eqb_refl. }
  unfold sorted_keys in H. bind_as H l Hl. injection H as <-.
  destruct (insertion_sort_spec l [] I) as [S P].
  set (sl := fold_left (fun acc kp => insert_by_pos (fst kp) (snd kp) acc) l []) in *.
  assert (Pos : forall i k p, nth_error sl i = Some (k, p) -> pos a k = Ok (Some p)).
  { intros i k p Hn. apply nth_error_In in Hn.
    apply (Permutation_in _ P) in Hn. rewrite app_nil_r in Hn.
    destruct (positions_In _ _ _ _ Hl Hn) as (f & Hf & Hp).
    unfold pos. rewrite (In_dict_get _ _ _ U Hf), Hp. reflexivity. }
  intros i j ki kj pi pj Hij Hi Hj Hpi Hpj.
  rewrite nth_error_map in Hi, Hj.
  destruct (nth_error sl i) as [[ki' pi'] |] eqn:Ei; [ | discriminate ].
  destruct (nth_error sl j) as [[kj' pj'] |] eqn:Ej; [ | discriminate ].
  simpl in Hi, Hj. injection Hi as ->. injection Hj as ->.
  pose proof (Pos _ _ _ Ei) as Qi. pose proof (Pos _ _ _ Ej) as Qj.
  assert (pi' = pi) by congruence. assert (pj' = pj) by congruence. subst.
  exact (sorted_by_pos_nth sl S i j _ _ Hij Ei Ej).
Qed.

Lemma iteration_follows_positions_witness :
  exists keys,
    sorted_keys BrukerSupp200 = Ok keys
    /\ Permutation keys (map fst BrukerSupp200)
    /\ next BrukerSupp200 (Z.of_nat (length keys) - 1) = Ok None.
Proof.
  assert (H : exists keys, sorted_keys BrukerSupp200 = Ok keys)
    by (eexists; vm_compute; reflexivity).
  destruct H as [keys H]. exists keys. split; [ exact H | ].
  destruct (iteration_follows_positions BrukerSupp200 keys eq_refl H)
    as (P & _ & N & _).
  split; [ exact P | exact N ].
Defined.

(** *** Adding schemas *)

Lemma replace_or_append_new (acc : attrs) kf :
  has_key (fst kf) acc = false ->
  (if has_key (fst kf) acc then replace_entry (fst kf) (snd kf) acc else acc ++ [kf])
  = acc ++ [kf].
Proof. now intros ->. Qed.

Lemma has_key_app key (a b : attrs) :
  has_key key (a ++ b) = has_key key a || has_key key b.
Proof.
  unfold has_key. induction a as [| [k f] a IH]; simpl; [ reflexivity | ].
  destruct (String.eqb key k); [ reflexivity | exact IH ].
Qed.

(** [dict.update] with a dict that shares no key: its items are appended. *)
Lemma update_disjoint (b : attrs) :
  forall a : attrs,
    unique_keys b = true ->
    (forall key, has_key key b = true -> has_key key a = false) ->
    update a b = a ++ b.
Proof.
  unfold update. induction b as [| [k f] b IH]; intros a U D; simpl.
  - now rewrite app_nil_r.
  - simpl in U. apply andb_true_iff in U. destruct U as [U1 U2].
    apply negb_true_iff in U1.
    assert (Hk : has_key k a = false).
    { apply D. unfold has_key. simpl. now rewrite String.eqb_refl. }
    rewrite Hk. rewrite IH; [ now rewrite <- app_assoc | exact U2 | ].
    intros key Hkey. rewrite has_key_app. apply orb_false_iff. split.
    + apply D. unfold has_key in *. simpl.
      destruct (String.eqb key k); [ reflexivity | exact Hkey ].
    + unfold has_key at 1. simpl.
      destruct (String.eqb key k) eqn:E; [ | reflexivity ].
      apply String.eqb_eq in E. subst. congruence.
Qed.

Lemma filter_nil_iff {A} (p : A -> bool) (l : list A) :
  List.filter p l = [] <-> forall v, In v l -> p v = false.
Proof.
  induction l as [| v l IH]; simpl.
  - split; [ contradiction | reflexivity ].
  - destruct (p v) eqn:E.
    + split; [ discriminate | ]. intros H. rewrite (H v) in E by now left. discriminate.
    + rewrite IH. split.
      * intros H w [<- | Hw]; auto.
      * intros H w Hw. apply H. now right.
Qed.

(** Two schemas add exactly when they share no key.  A shared key gives the
    'Type mismatch' exception; otherwise the table of the left operand,
    which the result shares, becomes its items followed by those of the
    right operand. *)
Theorem BrukerHeader_add_succeeds_iff (h : store) (self other : BrukerHeaderObj)
  (sa oa : attrs) :
  h !! _attrs self = Some sa ->
  h !! _attrs other = Some oa ->
  unique_keys oa = true ->
  ((exists key, has_key key sa = true /\ has_key key oa = true) ->
   BrukerHeader_add self other h = Err SchemaMismatch)
  /\ ((forall key, has_key key sa = true -> has_key key oa = false) ->
      exists h',
        BrukerHeader_add self other h = Ok (h', mkObj (_attrs self))
        /\ h' !! _attrs self = Some (sa ++ oa)).
Proof.
  intros Hs Ho U. split.
  - intros (key & K1 & K2). unfold BrukerHeader_add. rewrite Hs, Ho.
    destruct (List.filter (fun key => has_key key oa) (map fst sa)) as [| k l] eqn:F;
      [ | reflexivity ].
    rewrite filter_nil_iff in F. apply has_key_In in K1.
    rewrite (F key K1) in K2. discriminate.
  - intros D.
    assert (F : List.filter (fun key => has_key key oa) (map fst sa) = []).
    { apply filter_nil_iff. intros key Hk. apply D. now apply has_key_In. }
    destruct (BrukerHeader_add_shares h self other sa oa Hs Ho F) as (h' & H1 & H2 & _).
    exists h'. split; [ exact H1 | ].
    rewrite H2. f_equal. apply update_disjoint; [ exact U | ].
    intros key Hk. destruct (has_key key sa) eqn:E; [ | reflexivity ].
    rewrite (D key E) in Hk. discriminate.
Qed.

Lemma BrukerHeader_add_succeeds_iff_witness :
  BrukerHeader_add range_schema range_schema store0 = Err SchemaMismatch.
Proof.
  refine (proj1 (BrukerHeader_add_succeeds_iff store0 range_schema range_schema
                   BrukerRangeHeader BrukerRangeHeader _ _ _) _).
  - vm_compute. reflexivity.
  - vm_compute. reflexivity.
  - vm_compute. reflexivity.
  - exists "steps". split; reflexivity.
Defined.

(** *** Adding datasets *)

Lemma SFcompare_Eq x y :
  SFcompare x y = Some Eq ->
  x = y \/ exists s s', x = S754_zero s /\ y = S754_zero s'.
Proof.
  destruct x as [sx | sx | | sx mx ex], y as [sy | sy | | sy my ey]; simpl;
    intros H; try discriminate H;
    try (right; eauto; fail);
    try (destruct sx; discriminate H);
    try (destruct sy; discriminate H).
  - destruct sx, sy; try discriminate H; now left.
  - destruct sx, sy; try discriminate H;
      destruct (Z.compare_spec ex ey) as [E | E | E]; try discriminate H;
      subst; injection H as H;
      destruct (Pos.compare_cont Eq mx my) eqn:C; try discriminate H;
      apply Pos.compare_eq in C; subst; now left.
Qed.

Lemma SFeqb_trans x y z :
  SFeqb x y = true -> SFeqb y z = true -> SFeqb x z = true.
Proof.
  unfold SFeqb. intros H1 H2.
  destruct (SFcompare x y) as [[] |] eqn:E1; try discriminate.
  destruct (SFcompare y z) as [[] |] eqn:E2; try discriminate.
  destruct (SFcompare_Eq _ _ E1) as [-> | (s & s' & -> & ->)].
  - now rewrite E2.
  - destruct (SFcompare_Eq _ _ E2) as [<- | (t & t' & _ & ->)]; reflexivity.
Qed.

Lemma eqb_trans u v w :
  (u =? v)%float = true -> (v =? w)%float = true -> (u =? w)%float = true.
Proof. rewrite !FloatAxioms.eqb_spec. apply SFeqb_trans. Qed.

Lemma all_eqb_trans a :
  forall b c, all_eqb a b = true -> all_eqb b c = true -> all_eqb a c = true.
Proof.
  induction a as [| u a IH]; intros [| v b] [| w c]; simpl; try discriminate; auto.
  rewrite !andb_true_iff. intros [H1 H2] [H3 H4].
  split; [ eapply eqb_trans; eauto | eapply IH; eauto ].
Qed.

Lemma hstack_assoc a : forall b c, hstack (hstack a b) c = hstack a (hstack b c).
Proof.
  induction a as [| r a IH]; intros [| s b] [| t c]; simpl; try reflexivity.
  now rewrite IH, app_assoc.
Qed.

Lemma hstack_length_min a : forall b, length (hstack a b) = Nat.min (length a) (length b).
Proof.
  induction a as [| r a IH]; intros [| s b]; simpl; try reflexivity.
  now rewrite IH.
Qed.

Lemma hstack_rectangular wa wb a :
  forall b, rectangular wa a -> rectangular wb b -> rectangular (wa + wb) (hstack a b).
Proof.
  induction a as [| r a IH]; intros [| s b] Ha Hb; simpl; try constructor.
  - inversion Ha; inversion Hb; subst. now rewrite length_app.
  - inversion Ha; inversion Hb; subst. now apply IH.
Qed.

Lemma string_app_assoc (a b c : string) : ((a ++ b) ++ c = a ++ (b ++ c))%string.
Proof.
  induction a as [| ch a IH]; [ reflexivity | ].
  change (String ch ((a ++ b) ++ c) = String ch (a ++ (b ++ c)))%string.
  now rewrite IH.
Qed.

Lemma BrukerData_add_inv a b r :
  BrukerData_add a b = Ok r ->
  array_equal (y a) (y b) = true
  /\ exists ma mb na nb,
       smap a = Some ma /\ smap b = Some mb /\ length ma = length mb
       /\ filename a = Some na /\ filename b = Some nb
       /\ r = mkData (Some (na ++ " & " ++ nb)%string) None (rngs a ++ rngs b)
                (NdArray (axis_values (x a) ++ axis_values (x b))) (y a)
                (Some (hstack ma mb)).
Proof.
  unfold BrukerData_add. intros H.
  destruct (array_equal (y a) (y b)); [ | discriminate ]. simpl in H.
  split; [ reflexivity | ].
  bind_as H m Hm. bind_as H name Hname. injection H as <-.
  unfold concatenate_cols in Hm.
  destruct (smap a) as [ma |]; [ | discriminate ].
  destruct (smap b) as [mb |]; [ | discriminate ].
  destruct (Nat.eqb (length ma) (length mb)) eqn:E; [ | discriminate ].
  apply Nat.eqb_eq in E. injection Hm as <-.
  destruct (filename a) as [na |]; [ | discriminate ].
  destruct (filename b) as [nb |]; [ | discriminate ].
  injection Hname as <-.
  exists ma, mb, na, nb. auto 10.
Qed.

Lemma BrukerData_add_ok a b ma mb na nb :
  array_equal (y a) (y b) = true ->
  smap a = Some ma -> smap b = Some mb -> length ma = length mb ->
  filename a = Some na -> filename b = Some nb ->
  BrukerData_add a b
  = Ok (mkData (Some (na ++ " & " ++ nb)%string) None (rngs a ++ rngs b)
          (NdArray (axis_values (x a) ++ axis_values (x b))) (y a)
          (Some (hstack ma mb))).
Proof.
  intros Hy Ha Hb Hl Hna Hnb. unfold BrukerData_add, concatenate_cols.
  rewrite Hy, Ha, Hb, Hna, Hnb. simpl.
  now rewrite (proj2 (Nat.eqb_eq _ _) Hl).
Qed.

(** Addition of datasets is associative: where [a + b] and [b + c] are
    defined, [(a + b) + c] and [a + (b + c)] are defined and are the same
    dataset. *)
Theorem BrukerData_add_assoc a b c ab bc :
  BrukerData_add a b = Ok ab ->
  BrukerData_add b c = Ok bc ->
  exists r, BrukerData_add ab c = Ok r /\ BrukerData_add a bc = Ok r.
Proof.
  intros Hab Hbc.
  destruct (BrukerData_add_inv _ _ _ Hab)
    as (Y1 & ma & mb & na & nb & Sa & Sb & L1 & Na & Nb & Eab).
  destruct (BrukerData_add_inv _ _ _ Hbc)
    as (Y2 & mb' & mc & nb' & nc & Sb' & Sc & L2 & Nb' & Nc & Ebc).
  assert (mb' = mb) by congruence. assert (nb' = nb) by congruence. subst mb' nb'.
  assert (Y3 : array_equal (y ab) (y c) = true).
  { rewrite Eab. simpl. unfold array_equal in *. eapply all_eqb_trans; eauto. }
  assert (Y4 : array_equal (y a) (y bc) = true) by (rewrite Ebc; exact Y1).
  assert (L3 : length (hstack ma mb) = length mc)
    by (rewrite hstack_length_min; lia).
  assert (L4 : length ma = length (hstack mb mc))
    by (rewrite hstack_length_min; lia).
  rewrite (BrukerData_add_ok ab c (hstack ma mb) mc (na ++ " & " ++ nb)%string nc Y3)
    by (try assumption; rewrite Eab; reflexivity).
  rewrite (BrukerData_add_ok a bc ma (hstack mb mc) na (nb ++ " & " ++ nc)%string Y4)
    by (try assumption; rewrite Ebc; reflexivity).
  eexists. split; [ reflexivity | ].
  rewrite Eab, Ebc. cbn [filename rngs x y smap axis_values].
  rewrite (string_app_assoc na), (string_app_assoc " & " nb).
  now rewrite !app_assoc, hstack_assoc.
Qed.

Lemma BrukerData_add_assoc_witness :
  exists ab bc r,
    BrukerData_add (decoded map_2d) (decoded map_2d) = Ok ab
    /\ BrukerData_add (decoded map_2d) (decoded map_2d) = Ok bc
    /\ BrukerData_add ab (decoded map_2d) = Ok r
    /\ BrukerData_add (decoded map_2d) bc = Ok r.
Proof.
  assert (H1 : exists ab, BrukerData_add (decoded map_2d) (decoded map_2d) = Ok ab)
    by (eexists; vm_compute; reflexivity).
  assert (H2 : exists bc, BrukerData_add (decoded map_2d) (decoded map_2d) = Ok bc)
    by (eexists; vm_compute; reflexivity).
  destruct H1 as [ab H1]. destruct H2 as [bc H2].
  destruct (BrukerData_add_assoc _ _ _ _ _ H1 H2) as (r & R1 & R2).
  exists ab, bc, r. auto.
Defined.

Lemma decoded_area_map_well_shaped fs name d m :
  name <> "" ->
  BrukerData_init fs (Some name) = Ok d ->
  smap d = Some m ->
  well_shaped d.
Proof.
  intros Hn H Hm.
  destruct (BrukerData_init_axes _ _ _ Hn H) as (rng0 & rest & Hr & _ & H2).
  destruct (H2 m Hm) as (xs & ys & Hg & Hx & Hy).
  destruct (get_smap_rows _ _ _ _ Hg) as (w & Hw & _ & Lm & Rm & _).
  destruct (get_smap_axes _ _ _ _ Hg) as (w' & Hw' & Lx & Ly).
  assert (w' = w) by congruence. subst w'.
  exists m. rewrite Hx, Hy. simpl. rewrite Lx, Ly. auto.
Qed.

(** Addition keeps the matrix fitted to the axes: if each operand has one
    row per entry of its [y] and one column per entry of its [x] (as every
    decoded area map has), so has the sum. *)
Theorem BrukerData_add_keeps_shape a b r :
  well_shaped a -> well_shaped b ->
  BrukerData_add a b = Ok r ->
  well_shaped r.
Proof.
  intros (ma & Sa & La & Ra) (mb & Sb & Lb & Rb) H.
  destruct (BrukerData_add_inv _ _ _ H)
    as (Y & ma' & mb' & na & nb & Sa' & Sb' & L & _ & _ & ->).
  assert (ma' = ma) by congruence. assert (mb' = mb) by congruence. subst.
  exists (hstack ma mb). simpl. split; [ reflexivity | ].
  split; [ rewrite hstack_length_min; lia | ].
  rewrite length_app. now apply hstack_rectangular.
Qed.

Lemma BrukerData_add_keeps_shape_witness :
  exists r, BrukerData_add (decoded map_2d) (decoded map_2d) = Ok r /\ well_shaped r.
Proof.
  assert (H : exists r, BrukerData_add (decoded map_2d) (decoded map_2d) = Ok r)
    by (eexists; vm_compute; reflexivity).
  destruct H as [r H]. exists r. split; [ exact H | ].
  assert (M1 : exists m, smap (decoded map_2d) = Some m)
    by (eexists; vm_compute; reflexivity).
  assert (M2 : exists m, smap (decoded map_2d) = Some m)
    by (eexists; vm_compute; reflexivity).
  destruct M1 as [m1 M1]. destruct M2 as [m2 M2].
  apply (BrukerData_add_keeps_shape (decoded map_2d) (decoded map_2d) r).
  - apply (decoded_area_map_well_shaped (one_file "scan.raw" map_2d) "scan.raw" _ m1);
      [ discriminate | vm_compute; reflexivity | exact M1 ].
  - apply (decoded_area_map_well_shaped (one_file "scan.raw" map_2d) "scan.raw" _ m2);
      [ discriminate | vm_compute; reflexivity | exact M2 ].
  - exact H.
Defined.

(** The dataset [BrukerData()] made without a file name adds to nothing, on
    either side: its name is [None], and the addition that gets as far as
    the names raises TypeError. *)
Theorem empty_dataset_cannot_be_added fs e d r :
  BrukerData_init fs None = Ok e ->
  BrukerData_add e d <> Ok r /\ BrukerData_add d e <> Ok r.
Proof.
  intros H. simpl in H. injection H as <-. split; intros H.
  - destruct (BrukerData_add_inv _ _ _ H) as (_ & ? & ? & ? & ? & _ & _ & _ & N & _).
    discriminate N.
  - destruct (BrukerData_add_inv _ _ _ H) as (_ & ? & ? & ? & ? & _ & _ & _ & _ & N & _).
    discriminate N.
Qed.

Lemma empty_dataset_cannot_be_added_witness :
  BrukerData_add (mkData None None [] (PyList []) (PyList []) (Some [[]]))
    (decoded map_2d)
  <> Ok (decoded map_2d).
Proof.
  exact (proj1 (empty_dataset_cannot_be_added (fun _ => None)
                  (mkData None None [] (PyList []) (PyList []) (Some [[]]))
                  (decoded map_2d) (decoded map_2d) eq_refl)).
Defined.

(** *** Padding of strings *)

Lemma lstrip_all p (pad rest : bytes) :
  forallb p pad = true -> lstrip p (pad ++ rest) = lstrip p rest.
Proof.
  induction pad as [| c pad IH]; simpl; [ reflexivity | ].
  rewrite andb_true_iff. intros [-> H]. now apply IH.
Qed.

Lemma forallb_rev_true (p : Byte.byte -> bool) (l : bytes) :
  forallb p l = true -> forallb p (rev l) = true.
Proof.
  induction l as [| c l IH]; simpl; [ reflexivity | ].
  rewrite andb_true_iff. intros [H1 H2].
  rewrite forallb_app, IH by exact H2. simpl. now rewrite H1.
Qed.

Lemma lstrip_keep p (b : bytes) :
  match b with [] => True | c :: _ => p c = false end -> lstrip p b = b.
Proof. destruct b as [| c b]; simpl; [ reflexivity | now intros -> ]. Qed.

Lemma rev_head (b : bytes) c :
  b <> [] -> match rev b with [] => False | d :: _ => d = List.last b c end.
Proof.
  intros H. destruct (exists_last H) as (b' & d & ->).
  rewrite rev_app_distr, List.last_last. reflexivity.
Qed.

Lemma strip_padded p (text pad : bytes) :
  match text with
  | [] => True
  | c :: _ => p c = false /\ p (List.last text c) = false
  end ->
  forallb p pad = true ->
  strip p (text ++ pad) = text.
Proof.
  intros Ht Hp. unfold strip. destruct text as [| c text].
  - simpl. rewrite <- (app_nil_r pad), lstrip_all by exact Hp. reflexivity.
  - destruct Ht as [H1 H2].
    rewrite (lstrip_keep p ((c :: text) ++ pad)) by exact H1.
    rewrite rev_app_distr, lstrip_all by (now apply forallb_rev_true).
    rewrite lstrip_keep; [ apply rev_involutive | ].
    pose proof (rev_head (c :: text) c ltac:(discriminate)) as R.
    destruct (rev (c :: text)); [ contradiction | now subst ].
Qed.

(** A fixed-length string field that holds a text followed by NUL bytes up
    to its length decodes to the text, if the text itself neither begins
    nor ends with a NUL or whitespace byte. *)
Theorem unpack_strips_padding fc pos n (text : bytes) k :
  slice fc pos (pos + n) = text ++ repeat Byte.x00 k ->
  n = blen (text ++ repeat Byte.x00 k) ->
  trimmed text = true ->
  _unpack fc pos (Some (TStr n)) n = Ok (VBytes text).
Proof.
  intros Hs Hn Ht. unfold _unpack, struct_unpack. rewrite Hs.
  replace (n <? 0) with false by (symmetry; apply Z.ltb_ge; subst n; unfold blen; lia).
  rewrite <- Hn, Z.eqb_refl. simpl. f_equal. f_equal.
  assert (Hpad : forallb is_nul (repeat Byte.x00 k) = true).
  { clear. induction k as [| k IH]; [ reflexivity | ].
    change (is_nul Byte.x00 && forallb is_nul (repeat Byte.x00 k) = true).
    rewrite IH. reflexivity. }
  unfold trimmed in Ht. destruct text as [| c text].
  - rewrite strip_padded by (auto; exact I). reflexivity.
  - apply andb_true_iff in Ht. destruct Ht as [T1 T2].
    apply negb_true_iff, orb_false_iff in T1, T2.
    rewrite strip_padded by tauto.
    rewrite <- (app_nil_r (c :: text)) at 1.
    apply strip_padded; [ tauto | reflexivity ].
Qed.

Lemma unpack_strips_padding_witness :
  _unpack scan_1d 0 (Some (TStr 8)) 8 = Ok (VBytes RAW1_01).
Proof.
  apply (unpack_strips_padding scan_1d 0 8 RAW1_01 1);
    vm_compute; reflexivity.
Defined.

(** ** Ends of axes and of files *)

(** *** The end of the angular axis *)

Lemma last_set_last {A} (l : list A) (v d : A) :
  l <> [] -> List.last (set_last l v) d = v.
Proof.
  induction l as [| a l IH]; [ congruence | ].
  intros _. destruct l as [| b l]; [ reflexivity | ].
  change (set_last (a :: b :: l) v) with (a :: set_last (b :: l) v).
  assert (N : set_last (b :: l) v <> []).
  { intros E. apply (f_equal (@length A)) in E.
    rewrite set_last_length in E. discriminate. }
  destruct (set_last (b :: l) v) as [| c r] eqn:E; [ congruence | ].
  change (List.last (a :: c :: r) d) with (List.last (c :: r) d).
  apply IH. discriminate.
Qed.

Lemma linspace_last start stop num l d :
  linspace start stop num = Ok l -> 2 <= num -> List.last l d = stop.
Proof.
  unfold linspace. intros H Hn.
  destruct (num <? 0) eqn:E0; [ apply Z.ltb_lt in E0; lia | ].
  destruct (1 <? num) eqn:E1; [ | apply Z.ltb_ge in E1; lia ].
  injection H as <-. apply last_set_last.
  intros E. apply (f_equal (@length float)) in E.
  rewrite length_map in E.
  assert (L : length (map float_of_int (arange num)) = Z.to_nat num)
    by (unfold arange; now rewrite !length_map, length_seq).
  destruct (0 <? num - 1); [ destruct (_ =? 0)%float | ];
    rewrite length_map, L in E; simpl in E; lia.
Qed.

(** The angular axis of a 1-D scan of two or more steps ends at
    [start_2th + step_size * steps], one step beyond the angle
    [start_2th + step_size * (steps - 1)] of the last of its [steps]
    samples. *)
Theorem scan_axis_last_point fs name d :
  name <> "" ->
  BrukerData_init fs (Some name) = Ok d ->
  smap d = None ->
  exists rng0 rest t0 ts n,
    rngs d = rng0 :: rest
    /\ as_float (getitem (metta rng0) "start_2th") = Ok t0
    /\ as_float (getitem (metta rng0) "step_size") = Ok ts
    /\ getitem (metta rng0) "steps" = VInt n
    /\ (2 <= n ->
        List.last (axis_values (x d)) 0%float = (t0 + ts * float_of_int n)%float).
Proof.
  intros Hn H Hs.
  destruct (BrukerData_init_axes _ _ _ Hn H) as (rng0 & rest & Hr & H1 & _).
  destruct (H1 Hs) as (Hy & xs & Hxs & Hx).
  destruct (decoded_ranges_from_get_range _ _ _ Hn H) as (fc & F).
  rewrite Hr in F. inversion F as [| ? ? [(p & p' & G) _] _]; subst.
  destruct (get_range_steps _ _ _ G) as (n & Hsteps & Hlen). simpl in Hsteps, Hlen.
  unfold twoth_axis in Hxs.
  bind_as Hxs t0 Ht0. bind_as Hxs ts Hts. bind_as Hxs st Hst.
  rewrite Hsteps in Hst. simpl in Hst. injection Hst as <-.
  exists rng0, rest, t0, ts, n.
  repeat (split; [ assumption | ]).
  intros Hn2. rewrite Hx. simpl.
  apply (linspace_last _ _ _ _ _ Hxs). rewrite Hlen. lia.
Qed.

Lemma scan_axis_last_point_witness :
  exists rng0 rest t0 ts n,
    rngs (decoded scan_1d) = rng0 :: rest
    /\ as_float (getitem (metta rng0) "start_2th") = Ok t0
    /\ as_float (getitem (metta rng0) "step_size") = Ok ts
    /\ getitem (metta rng0) "steps" = VInt n
    /\ (2 <= n ->
        List.last (axis_values (x (decoded scan_1d))) 0%float
        = (t0 + ts * float_of_int n)%float).
Proof.
  apply (scan_axis_last_point (one_file "scan.raw" scan_1d) "scan.raw");
    [ discriminate | vm_compute; reflexivity | vm_compute; reflexivity ].
Defined.

(** *** Supplemental records of other types *)

Lemma BrukerSupp_unknown tag :
  (forall cls, ~ In (tag, cls) supp_classes) -> BrukerSupp tag = Err KeyError.
Proof.
  intros H. destruct (BrukerSupp tag) as [cls | e] eqn:E.
  - destruct (H cls (BrukerSupp_cases _ _ E)).
  - unfold BrukerSupp in E.
    repeat match type of E with
           | (if ?c then _ else _) = _ => destruct c; [ discriminate E | ]
           end.
    congruence.
Qed.

(** A file whose first range has a supplemental record of a type other than
    the eight the module has a class for is refused with KeyError. *)
Theorem unknown_supplement_is_key_error fs name content hdr cnt m h s tag :
  name <> "" ->
  get_data_from_file fs name = Ok content ->
  get_metta content BrukerHeader 0 = Ok hdr ->
  getitem hdr "range_cnt" = VInt cnt -> 0 < cnt ->
  get_metta content BrukerRangeHeader 712 = Ok m ->
  getitem m "header_len" = VInt h ->
  getitem m "sup_len" = VInt s -> 0 < s ->
  struct_unpack (TFmt FI) (slice content (712 + h) (712 + h + 4)) = Ok (VInt tag) ->
  (forall cls, ~ In (tag, cls) supp_classes) ->
  BrukerData_init fs (Some name) = Err KeyError.
Proof.
  intros Hn Hf Hh Hc Hcnt Hm Hl Hs Hs0 Ht Htag.
  assert (G : get_range content 712 = Err KeyError).
  { unfold get_range. rewrite Hm. cbn [bind]. rewrite Hl. cbn [as_int bind].
    rewrite Hs. cbn [as_int bind].
    replace (0 <? s) with true by (symmetry; now apply Z.ltb_lt).
    rewrite Ht. cbn [as_int bind]. rewrite (BrukerSupp_unknown _ Htag). reflexivity. }
  unfold BrukerData_init. destruct name as [| ch name]; [ congruence | ].
  rewrite Hf. cbn [bind]. rewrite Hh. cbn [bind]. rewrite Hc. cbn [as_int bind].
  destruct (Z.to_nat cnt) as [| k] eqn:K; [ lia | ].
  cbn [init_ranges]. rewrite G. reflexivity.
Qed.

Lemma unknown_supplement_is_key_error_witness :
  BrukerData_init (one_file "scan.raw" scan_supp210) (Some "scan.raw") = Err KeyError.
Proof.
  assert (Hn : "scan.raw" <> "") by discriminate.
  assert (Htag : forall cls, ~ In (210, cls) supp_classes).
  { intros cls Hin. unfold supp_classes in Hin. simpl in Hin.
    repeat destruct Hin as [Hin | Hin]; try discriminate Hin; contradiction. }
  assert (Hf : get_data_from_file (one_file "scan.raw" scan_supp210) "scan.raw"
               = Ok scan_supp210) by (vm_compute; reflexivity).
  assert (Ht : struct_unpack (TFmt FI) (slice scan_supp210 (712 + 304) (712 + 304 + 4))
               = Ok (VInt 210)) by (vm_compute; reflexivity).
  assert (Hh : exists hdr, get_metta scan_supp210 BrukerHeader 0 = Ok hdr
                           /\ getitem hdr "range_cnt" = VInt 1)
    by (eexists; split; [ vm_compute; reflexivity | reflexivity ]).
  assert (Hm : exists m, get_metta scan_supp210 BrukerRangeHeader 712 = Ok m
                         /\ getitem m "header_len" = VInt 304
                         /\ getitem m "sup_len" = VInt 72)
    by (eexists; split; [ vm_compute; reflexivity | split; reflexivity ]).
  destruct Hh as (hdr & Hh & Hc). destruct Hm as (m & Hm & Hl & Hs).
  exact (unknown_supplement_is_key_error _ "scan.raw" scan_supp210 hdr 1 m 304 72 210
           Hn Hf Hh Hc eq_refl Hm Hl Hs eq_refl Ht Htag).
Defined.

(** *** Ranges and the end of the file *)

Lemma read_counts_within fc p n :
  forall i l,
    0 <= p -> 0 <= i ->
    read_counts fc p n i = Ok l ->
    (0 < n)%nat ->
    p + (i + Z.of_nat n) * 4 <= blen fc.
Proof.
  induction n as [| n IH]; intros i l Hp Hi H Hn; [ lia | ].
  simpl in H. bind_as H ret Hret. bind_as H f Hf. bind_as H rest Hrest.
  destruct n as [| n'].
  - unfold struct_unpack in Hret.
    destruct (blen (slice fc (p + i * 4) (p + i * 4 + 4)) =? 4) eqn:E; [ | discriminate ].
    apply Z.eqb_eq in E. apply slice_full in E; lia.
  - specialize (IH (i + 1) rest Hp ltac:(lia) Hrest ltac:(lia)). lia.
Qed.

Lemma decode_ranges_cursors fc n :
  forall pos all,
    0 <= pos ->
    decode_ranges fc n pos = Ok all ->
    Forall (fun rng => exists p p', pos <= p /\ get_range fc p = Ok (rng, p')) all.
Proof.
  induction n as [| n IH]; intros pos all Hpos H; simpl in H.
  - injection H as <-. constructor.
  - bind_as H rp Hrp. bind_as H rest Hrest. injection H as <-.
    destruct rp as [rng p']. simpl in *.
    destruct (get_range_fields _ _ _ _ Hrp)
      as (h & s & k & _ & _ & _ & Bh & Bs & Bk & Hp' & _).
    constructor; [ exists pos, p'; split; [ lia | exact Hrp ] | ].
    eapply List.Forall_impl; [ | apply (IH p' rest); [ lia | exact Hrest ] ].
    simpl. intros r (p & q & Hp & Hq). exists p, q. split; [ lia | exact Hq ].
Qed.

(** Every range of a decoded dataset was read entirely from the file: it
    starts behind the global header, and its header, its supplemental bytes
    and its samples end at or before the end of the file. *)
Theorem decoded_ranges_lie_in_file fs name d :
  name <> "" ->
  BrukerData_init fs (Some name) = Ok d ->
  exists content,
    fs name = Some content
    /\ Forall (fun rng => exists p p',
                 get_range content p = Ok (rng, p')
                 /\ 712 <= p /\ p < p' <= blen content) (rngs d).
Proof.
  intros Hn H.
  destruct (BrukerData_init_ok _ _ _ Hn H)
    as (content & hdr & cnt & hdr' & rng0 & rngs' & Hf & Hm & Hc & Hi & Hr & _).
  destruct (init_ranges_decode _ _ _ _ _ _ _ _ Hi Hc) as (all & Hd & _ & Hk & _).
  apply get_data_from_file_ok in Hf. destruct Hf as [Hf _].
  exists content. split; [ exact Hf | ].
  rewrite Hr, Hk. simpl app.
  pose proof (decode_ranges_cursors content (Z.to_nat cnt) 712 all ltac:(lia) Hd) as F.
  clear - F. induction F as [| rng l (p & p' & Hp & G) F IH]; simpl; [ constructor | ].
  destruct (has_steps rng) eqn:S; [ | exact IH ].
  constructor; [ | exact IH ].
  exists p, p'. split; [ exact G | ]. split; [ exact Hp | ].
  destruct (get_range_inv _ _ _ _ G) as (h & s & n & _ & Hh & Hs & Hn & Hc & Hp' & _).
  destruct (get_range_fields _ _ _ _ G)
    as (h' & s' & n' & Hh' & Hs' & Hn' & Bh & Bs & Bn & _).
  assert (h' = h) by congruence. assert (s' = s) by congruence.
  assert (n' = n) by congruence. subst h' s' n'.
  unfold has_steps in S. rewrite Hn in S. apply Z.ltb_lt in S.
  pose proof (read_counts_within content (p + h + s) (Z.to_nat n) 0 _
                ltac:(lia) ltac:(lia) Hc ltac:(lia)) as W.
  rewrite Z2Nat.id in W by lia. lia.
Qed.

Lemma decoded_ranges_lie_in_file_witness :
  exists content,
    one_file "scan.raw" scan_gap "scan.raw" = Some content
    /\ Forall (fun rng => exists p p',
                 get_range content p = Ok (rng, p')
                 /\ 712 <= p /\ p < p' <= blen content) (rngs (decoded scan_gap)).
Proof.
  apply (decoded_ranges_lie_in_file (one_file "scan.raw" scan_gap) "scan.raw");
    [ discriminate | vm_compute; reflexivity ].
Defined.
